(** * Sentinel-2 grid explorer: selection and spatial-query engine

    A shallow embedding of the selection store, hit-testing, world-wrap
    visibility query and share-state codec of [script.js], with the
    properties of its specification stated and proved over it.

    Conventions of the embedding.
    - JavaScript numbers are binary64 floats ([PrimFloat.float]); reading a
      missing array element in a numeric context gives [nan], as
      [ToNumber(undefined)] does.  Facts about their order rest on the
      Standard Library's specification of the primitive comparisons.
    - JavaScript strings are [string]s of 8-bit characters.  Case conversion
      and trimming act on the ASCII range (grid identifiers such as
      [01CCV]); characters above 127 are left alone.
    - [null] and [undefined] are [None].
    - A feature's [properties] hold string values; a geometry of type
      [Polygon] or [MultiPolygon] has its [coordinates] array, be it
      empty.
    - The [Map] holding the selection is an association list in insertion
      order, a [Set] is a duplicate-free list in insertion order.
    - A thrown exception is the [Throw] completion; the state mutated so
      far is kept, as in JavaScript.
    - Leaflet's bounds objects are an interface ([LeafletBounds]).
    - Rendering, timers and the share panel are effects on the map widget
      and the DOM and are left out. *)

From Stdlib Require Import PrimFloat FloatClass FloatOps SpecFloat FloatAxioms
  ZArith String Ascii List Bool Arith Lia
  Permutation Sorted.
Import ListNotations.

Local Open Scope string_scope.
Local Open Scope list_scope.

(* ================================================================= *)
(** * JavaScript strings *)

Module Js.

Definition isLowerAscii (c : ascii) : bool :=
  (97 <=? nat_of_ascii c)%nat && (nat_of_ascii c <=? 122)%nat.

Definition isUpperAscii (c : ascii) : bool :=
  (65 <=? nat_of_ascii c)%nat && (nat_of_ascii c <=? 90)%nat.

Definition upperChar (c : ascii) : ascii :=
  if isLowerAscii c then ascii_of_nat (nat_of_ascii c - 32) else c.

Definition lowerChar (c : ascii) : ascii :=
  if isUpperAscii c then ascii_of_nat (nat_of_ascii c + 32) else c.

(** [String.prototype.toUpperCase] *)
Fixpoint toUpperCase (s : string) : string :=
  match s with
  | EmptyString => EmptyString
  | String c r => String (upperChar c) (toUpperCase r)
  end.

(** [String.prototype.toLowerCase] *)
Fixpoint toLowerCase (s : string) : string :=
  match s with
  | EmptyString => EmptyString
  | String c r => String (lowerChar c) (toLowerCase r)
  end.

(** White space and line terminators removed by [trim]: TAB, LF, VT, FF,
    CR and SPACE. *)
Definition isWhiteSpace (c : ascii) : bool :=
  let n := nat_of_ascii c in
  ((9 <=? n)%nat && (n <=? 13)%nat) || (n =? 32)%nat.

Fixpoint trimStart (s : string) : string :=
  match s with
  | EmptyString => EmptyString
  | String c r => if isWhiteSpace c then trimStart r else s
  end.

Fixpoint trimEnd (s : string) : string :=
  match s with
  | EmptyString => EmptyString
  | String c r =>
      match trimEnd r with
      | EmptyString => if isWhiteSpace c then EmptyString else String c EmptyString
      | r' => String c r'
      end
  end.

(** [String.prototype.trim] *)
Definition trim (s : string) : string := trimEnd (trimStart s).

(** Truthiness of a string value: the empty string is falsy. *)
Definition truthy (s : string) : bool :=
  match s with EmptyString => false | _ => true end.

Definition comma : ascii := ascii_of_nat 44.
Definition quote : ascii := ascii_of_nat 34.
Definition newline : ascii := ascii_of_nat 10.

(** [s.split(sep)] for a one-character separator. *)
Fixpoint split (sep : ascii) (s : string) : list string :=
  match s with
  | EmptyString => [EmptyString]
  | String c r =>
      if Ascii.eqb c sep then EmptyString :: split sep r
      else match split sep r with
           | h :: t => String c h :: t
           | [] => [String c EmptyString]
           end
  end.

(** [xs.join(sep)] *)
Fixpoint join (sep : string) (xs : list string) : string :=
  match xs with
  | [] => EmptyString
  | [x] => x
  | x :: r => x ++ sep ++ join sep r
  end.

Fixpoint contains (c : ascii) (s : string) : bool :=
  match s with
  | EmptyString => false
  | String d r => Ascii.eqb d c || contains c r
  end.

Definition mem (x : string) (xs : list string) : bool :=
  existsb (String.eqb x) xs.

(** [Set.prototype.add]: a [Set] keeps insertion order and ignores a
    value it already holds. *)
Definition Set_add (s : list string) (x : string) : list string :=
  if mem x s then s else s ++ [x].

(** [[...new Set(xs)]] *)
Definition newSet (xs : list string) : list string :=
  fold_left Set_add xs [].

Fixpoint insertSorted (x : string) (xs : list string) : list string :=
  match xs with
  | [] => [x]
  | y :: r => if String.leb x y then x :: xs else y :: insertSorted x r
  end.

(** [xs.sort()] with the default comparison: strings ordered by their
    code units. *)
Definition sort (xs : list string) : list string :=
  fold_right insertSorted [] xs.

End Js.

(* ================================================================= *)
(** * JavaScript numbers *)

Module Num.

Local Open Scope float_scope.

(** [a > b] and [a >= b]; both are false when an operand is [nan]. *)
Definition gt (a b : float) : bool := b <? a.
Definition ge (a b : float) : bool := b <=? a.

(** [a || b] on numbers: [0], [-0] and [NaN] are falsy. *)
Definition orElse (a b : float) : float :=
  if is_zero a || is_nan a then b else a.

(** [Math.min]: [NaN] if an argument is [NaN]; [-0] is below [+0]. *)
Definition Math_min (a b : float) : float :=
  if is_nan a || is_nan b then nan
  else if a <? b then a
  else if b <? a then b
  else match classify a with NZero => a | _ => b end.

(** [Math.max]: [NaN] if an argument is [NaN]; [+0] is above [-0]. *)
Definition Math_max (a b : float) : float :=
  if is_nan a || is_nan b then nan
  else if a <? b then b
  else if b <? a then a
  else match classify a with PZero => a | _ => b end.

(** The literal [1e-12], that is the binary64 number nearest to it. *)
Definition tieBreakEpsilon : float := 0x1.19799812dea11p-40.

End Num.

(* ================================================================= *)
(** * GeoJSON data model *)

(** A position is an array of numbers, longitude first. *)
Definition Position : Type := list float.

(** A linear ring is an array of positions. *)
Definition Ring : Type := list Position.

(** [coord[0]] and [coord[1]] read as numbers. *)
Definition lngOf (coord : Position) : float := nth 0 coord nan.
Definition latOf (coord : Position) : float := nth 1 coord nan.

(** A geometry object, tagged by its [type].  A [Polygon] or
    [MultiPolygon] carries its [coordinates] array, which may be empty;
    the other geometry types are of no concern to the functions below
    beyond their tag. *)
Inductive Geometry : Type :=
| Polygon (coordinates : list Ring)
| MultiPolygon (coordinates : list (list Ring))
| OtherGeometry (type : string).

(** A grid feature.  [oid] is the identity of the JavaScript object, what
    [===] compares; [properties] maps keys to string values in the order
    of the object's own keys. *)
Record Feature : Type := mkFeature {
  oid : nat;
  properties : option (list (string * string));
  geometry : option Geometry
}.

Record LatLng : Type := mkLatLng { lat : float; lng : float }.

(** The cached centroid [{lat, lng}] of a selection entry. *)
Definition Centroid : Type := LatLng.

(** Completion of a call that may throw. *)
Inductive Completion (A : Type) : Type :=
| Normal (a : A)
| Throw (e : string).
Arguments Normal {A} a.
Arguments Throw {A} e.

Definition isNormal {A} (c : Completion A) : bool :=
  match c with Normal _ => true | Throw _ => false end.

(** [obj[key]] on a properties object. *)
Fixpoint getProperty (key : string) (props : list (string * string))
  : option string :=
  match props with
  | [] => None
  | (k, v) :: r => if String.eqb k key then Some v else getProperty key r
  end.

(** [feature.properties?.key] followed by [||]: the value if it is a
    non-empty string, else the alternative. *)
Definition propOr (f : Feature) (key : string) (alt : string) : string :=
  match properties f with
  | None => alt
  | Some props =>
      match getProperty key props with
      | Some v => if Js.truthy v then v else alt
      | None => alt
      end
  end.

Definition getGridName (f : Feature) : string :=
  propOr f "name" (propOr f "Name" (propOr f "title"
    (propOr f "TITLE" (propOr f "id" "Grid")))).

(** The upper-cased name under which a feature is stored. *)
Definition upperName (f : Feature) : string :=
  Js.toUpperCase (getGridName f).

(* ================================================================= *)
(** * Geometry utilities *)

Local Open Scope float_scope.

(** The vertex average of a ring: the sums run over the positions with at
    least two numbers, in array order, and are divided by their count. *)
Definition sumStep (acc : float * float * float) (coord : Position)
  : float * float * float :=
  let '(sumLat, sumLng, count) := acc in
  (sumLat + latOf coord, sumLng + lngOf coord, count + 1).

Definition ringAverage (coords : Ring) : Centroid :=
  let validCoords := filter (fun coord => (2 <=? length coord)%nat) coords in
  let '(sumLat, sumLng, count) := fold_left sumStep validCoords (0, 0, 0) in
  {| lat := sumLat / count; lng := sumLng / count |}.

Definition centroidOfCoords (coords : option Ring) : option Centroid :=
  match coords with
  | None => None
  | Some [] => None
  | Some cs => Some (ringAverage cs)
  end.

Definition getPolygonCentroid (g : option Geometry)
  : Completion (option Centroid) :=
  match g with
  | None => Normal None
  | Some (Polygon coordinates) =>
      Normal (centroidOfCoords (nth_error coordinates 0))
  | Some (MultiPolygon coordinates) =>
      match coordinates with
      | [] => Throw "TypeError: geometry.coordinates[0] is undefined"
      | polygon :: _ => Normal (centroidOfCoords (nth_error polygon 0))
      end
  | Some (OtherGeometry _) => Normal None
  end.

(** One edge of the ray-casting test, between [ring[i]] and [ring[j]]. *)
Definition edgeCrosses (point ringI ringJ : Position) : bool :=
  let xi := lngOf ringI in
  let yi := latOf ringI in
  let xj := lngOf ringJ in
  let yj := latOf ringJ in
  negb (Bool.eqb (Num.gt yi (latOf point)) (Num.gt yj (latOf point)))
  && (lngOf point <?
        ((xj - xi) * (latOf point - yi))
          / Num.orElse (yj - yi) Num.tieBreakEpsilon + xi).

(** The loop [for (i = 0, j = ring.length - 1; i < ring.length; j = i++)]:
    [rest] holds [ring[i..]], [ringJ] is [ring[j]]. *)
Fixpoint ringLoop (point : Position) (rest : Ring) (ringJ : Position)
  (inside : bool) : bool :=
  match rest with
  | [] => inside
  | ringI :: rest' =>
      ringLoop point rest' ringI
        (if edgeCrosses point ringI ringJ then negb inside else inside)
  end.

Definition isPointInLinearRing (point : Position) (ring : Ring) : bool :=
  match ring with
  | [] => false
  | first :: _ => ringLoop point ring (last ring first) false
  end.

(** The loop over [polygon[1..]]: the first hole holding the point ends
    the test with [false]. *)
Fixpoint outsideHoles (point : Position) (holes : list Ring) : bool :=
  match holes with
  | [] => true
  | hole :: rest =>
      if isPointInLinearRing point hole then false
      else outsideHoles point rest
  end.

Definition isPointInPolygon (point : Position) (polygon : list Ring) : bool :=
  match polygon with
  | [] => false
  | outerRing :: holes =>
      if negb (isPointInLinearRing point outerRing) then false
      else outsideHoles point holes
  end.

Definition isLatLngInFeature (latlng : LatLng) (f : Feature) : bool :=
  let point := [lng latlng; lat latlng] in
  match geometry f with
  | None => false
  | Some (Polygon coordinates) => isPointInPolygon point coordinates
  | Some (MultiPolygon coordinates) =>
      existsb (fun polygon => isPointInPolygon point polygon) coordinates
  | Some (OtherGeometry _) => false
  end.

(** [polygonLayer] is [None] before the first render, else the features of
    its layers. *)
Definition findGridCandidatesAtLatLng (latlng : option LatLng)
  (polygonLayer : option (list Feature)) : list Feature :=
  match latlng, polygonLayer with
  | Some ll, Some layers =>
      filter (fun f =>
                match geometry f with
                | None => false
                | Some _ => isLatLngInFeature ll f
                end) layers
  | _, _ => []
  end.

(* ================================================================= *)
(** * The map widget's bounds objects *)

(** The bounds objects are Leaflet's, which is not part of the sources:
    the engine only builds them from two corners, reads their four sides
    and asks whether they contain a point.  That interface is taken as a
    parameter of the development. *)
Class LeafletBounds : Type := {
  LatLngBounds : Type;
  (** [L.latLngBounds(corner1, corner2)] *)
  latLngBounds : LatLng -> LatLng -> LatLngBounds;
  getWest : LatLngBounds -> float;
  getEast : LatLngBounds -> float;
  getNorth : LatLngBounds -> float;
  getSouth : LatLngBounds -> float;
  (** [bounds.contains([lat, lng])] *)
  boundsContains : LatLngBounds -> LatLng -> bool
}.

(** A box [[south,west]-[north,east]] kept as four sides. *)
Record Box : Type := mkBox {
  boxSouth : float; boxWest : float; boxNorth : float; boxEast : float
}.

(** Modelled from the spec: Leaflet's bounds constructor and accessors
    are missing from the sources.  The spec writes the box built from the
    corners [[south, west]] and [[north, east]] as
    [[south,west]-[north,east]], with those sides.  As in Leaflet, the
    constructor starts from the first corner and extends the box by the
    second: the south-west corner takes the smaller latitude and
    longitude, the north-east corner the larger ones, so that two
    corners given in any order build the same box.  Containment is the
    closed-interval test on both axes.  The corners hold numbers: Leaflet
    refuses a corner with [NaN].  A viewport handed to the engine is any
    box read through the four accessors. *)
#[export] Instance CornerBox : LeafletBounds := {|
  LatLngBounds := Box;
  latLngBounds := fun corner1 corner2 =>
    {| boxSouth := Num.Math_min (lat corner2) (lat corner1);
       boxWest := Num.Math_min (lng corner2) (lng corner1);
       boxNorth := Num.Math_max (lat corner2) (lat corner1);
       boxEast := Num.Math_max (lng corner2) (lng corner1) |};
  getWest := boxWest;
  getEast := boxEast;
  getNorth := boxNorth;
  getSouth := boxSouth;
  boundsContains := fun b p =>
    (boxSouth b <=? lat p) && (lat p <=? boxNorth b)
    && (boxWest b <=? lng p) && (lng p <=? boxEast b)
|}.

(* ================================================================= *)
(** * World-wrap bounds expander and visibility query *)

Section Visibility.
Context {LB : LeafletBounds}.

(** The values taken by [offset] in
    [for (offset = -worldWidth; offset <= worldWidth; offset += worldWidth)]
    with [worldWidth = 360]. *)
Definition worldOffsets : list float := [-360; 0; 360].

Definition getWrappedBounds (bounds : LatLngBounds) : list LatLngBounds :=
  let wrappedBounds := [bounds] in
  let west := getWest bounds in
  let east := getEast bounds in
  let north := getNorth bounds in
  let south := getSouth bounds in
  let wrappedBounds :=
    if Num.gt west east then
      wrappedBounds ++
        [latLngBounds (mkLatLng south west) (mkLatLng north 180);
         latLngBounds (mkLatLng south (-180)) (mkLatLng north east)]
    else wrappedBounds in
  fold_left
    (fun wrappedBounds offset =>
       if offset =? 0 then wrappedBounds
       else
         let offsetWest := west + offset in
         let offsetEast := east + offset in
         wrappedBounds ++
           [latLngBounds (mkLatLng south offsetWest)
                         (mkLatLng north offsetEast)])
    worldOffsets wrappedBounds.

(** The bounding box accumulated over a ring's positions. *)
Record Extent : Type := mkExtent {
  minLat : float; maxLat : float; minLng : float; maxLng : float
}.

Definition extendExtent (e : Extent) (coord : Position) : Extent :=
  let lng := lngOf coord in
  let lat := latOf coord in
  {| minLat := Num.Math_min (minLat e) lat;
     maxLat := Num.Math_max (maxLat e) lat;
     minLng := Num.Math_min (minLng e) lng;
     maxLng := Num.Math_max (maxLng e) lng |}.

Definition ringExtent (coords : Ring) : Extent :=
  fold_left extendExtent coords
    {| minLat := infinity; maxLat := neg_infinity;
       minLng := infinity; maxLng := neg_infinity |}.

Definition isPolygonIntersectingBounds (coords : option Ring)
  (bounds : LatLngBounds) : bool :=
  match coords with
  | None => false
  | Some [] => false
  | Some cs =>
      let e := ringExtent cs in
      let mapSouth := getSouth bounds in
      let mapNorth := getNorth bounds in
      let mapWest := getWest bounds in
      let mapEast := getEast bounds in
      let lngIntersects :=
        (Num.ge (maxLng e) mapWest && (minLng e <=? mapEast))
        || (Num.gt mapWest mapEast
            && (Num.ge (maxLng e) mapWest || (minLng e <=? mapEast))) in
      let latIntersects :=
        Num.ge (maxLat e) mapSouth && (minLat e <=? mapNorth) in
      lngIntersects && latIntersects
  end.

(** The body of [wrappedBounds.forEach] in [getVisibleGrids]: once the
    feature is found visible the remaining boxes are skipped. *)
Definition visibleStep (g : Geometry) (isVisible : bool)
  (wrappedBound : LatLngBounds) : bool :=
  if isVisible then isVisible
  else match g with
       | Polygon coordinates =>
           isPolygonIntersectingBounds (nth_error coordinates 0) wrappedBound
       | MultiPolygon coordinates =>
           existsb (fun polygon =>
                      isPolygonIntersectingBounds (nth_error polygon 0)
                        wrappedBound) coordinates
       | OtherGeometry _ => isVisible
       end.

Definition isFeatureVisible (wrappedBounds : list LatLngBounds)
  (f : Feature) : bool :=
  match geometry f with
  | None => false
  | Some g => fold_left (visibleStep g) wrappedBounds false
  end.

(** [features] is [gridData.features]. *)
Definition getVisibleGrids (features : list Feature) (bounds : LatLngBounds)
  : list Feature :=
  let wrappedBounds := getWrappedBounds bounds in
  filter (isFeatureVisible wrappedBounds) features.

(** The outer-ring test of [doesFeatureIntersectBounds], before the
    centroid fallback. *)
Definition outerRingIntersects (g : Geometry) (bounds : LatLngBounds)
  : bool :=
  match g with
  | Polygon coordinates =>
      match nth_error coordinates 0 with
      | Some ring0 => isPolygonIntersectingBounds (Some ring0) bounds
      | None => false
      end
  | MultiPolygon coordinates =>
      existsb (fun polygon =>
                 match nth_error polygon 0 with
                 | Some ring0 => isPolygonIntersectingBounds (Some ring0) bounds
                 | None => false
                 end) coordinates
  | OtherGeometry _ => false
  end.

Definition doesFeatureIntersectBounds (f : Feature) (bounds : LatLngBounds)
  : Completion bool :=
  match geometry f with
  | None => Normal false
  | Some g =>
      if outerRingIntersects g bounds then Normal true
      else match getPolygonCentroid (Some g) with
           | Throw e => Throw e
           | Normal (Some centroid) =>
               Normal (boundsContains bounds
                         (mkLatLng (lat centroid) (lng centroid)))
           | Normal None => Normal false
           end
  end.

End Visibility.

(* ================================================================= *)
(** * De-duplication by name *)

(** The body of [features.forEach] in [dedupeFeaturesByName], on the pair
    of [uniqueFeatures] and [seenNames]. *)
Definition dedupeStep (acc : list Feature * list string)
  (feature : option Feature) : list Feature * list string :=
  let '(uniqueFeatures, seenNames) := acc in
  match feature with
  | None => acc
  | Some f =>
      let name := getGridName f in
      if negb (Js.truthy name) then acc
      else
        let upper := Js.toUpperCase name in
        if Js.mem upper seenNames then acc
        else (uniqueFeatures ++ [f], Js.Set_add seenNames upper)
  end.

Definition dedupeFeaturesByName (features : list (option Feature))
  : list Feature :=
  match features with
  | [] => []
  | _ => fst (fold_left dedupeStep features ([], []))
  end.

(* ================================================================= *)
(** * Selection store *)

Record SelectionEntry : Type := mkEntry {
  feature : Feature;
  name : string;
  centroid : option Centroid
}.

(** [selectedGridMap]: a [Map] from upper-cased name to entry, in
    insertion order. *)
Definition SelectionStore : Type := list (string * SelectionEntry).

Module JsMap.

Definition has (key : string) (m : SelectionStore) : bool :=
  existsb (fun kv => String.eqb (fst kv) key) m.

Fixpoint get (key : string) (m : SelectionStore) : option SelectionEntry :=
  match m with
  | [] => None
  | (k, v) :: r => if String.eqb k key then Some v else get key r
  end.

(** [set] on a key already present replaces the value in place; a new key
    goes to the end. *)
Fixpoint set (key : string) (value : SelectionEntry) (m : SelectionStore)
  : SelectionStore :=
  match m with
  | [] => [(key, value)]
  | (k, v) :: r =>
      if String.eqb k key then (key, value) :: r
      else (k, v) :: set key value r
  end.

Definition delete (key : string) (m : SelectionStore) : SelectionStore :=
  filter (fun kv => negb (String.eqb (fst kv) key)) m.

Definition clear : SelectionStore := [].

Definition size (m : SelectionStore) : nat := length m.

Definition keys (m : SelectionStore) : list string := map fst m.

Definition values (m : SelectionStore) : list SelectionEntry := map snd m.

End JsMap.

(** The state of one drag gesture. *)
Record RectangleSelectState : Type := mkRect {
  active : bool;
  startLatLng : option LatLng;
  lastLatLng : option LatLng;
  hasMoved : bool
}.

(** The module-level variables the engine reads and writes. *)
Record AppState : Type := mkState {
  selectedGridMap : SelectionStore;
  suppressNextGridClick : bool;
  rectangleSelectState : RectangleSelectState;
  polygonLayer : option (list Feature);
  gridData : option (list Feature)
}.

Definition withStore (st : AppState) (m : SelectionStore) : AppState :=
  {| selectedGridMap := m;
     suppressNextGridClick := suppressNextGridClick st;
     rectangleSelectState := rectangleSelectState st;
     polygonLayer := polygonLayer st;
     gridData := gridData st |}.

Definition withSuppress (st : AppState) (b : bool) : AppState :=
  {| selectedGridMap := selectedGridMap st;
     suppressNextGridClick := b;
     rectangleSelectState := rectangleSelectState st;
     polygonLayer := polygonLayer st;
     gridData := gridData st |}.

Definition withRectangle (st : AppState) (r : RectangleSelectState)
  : AppState :=
  {| selectedGridMap := selectedGridMap st;
     suppressNextGridClick := suppressNextGridClick st;
     rectangleSelectState := r;
     polygonLayer := polygonLayer st;
     gridData := gridData st |}.

Definition initialState : AppState :=
  {| selectedGridMap := JsMap.clear;
     suppressNextGridClick := false;
     rectangleSelectState :=
       {| active := false; startLatLng := None; lastLatLng := None;
          hasMoved := false |};
     polygonLayer := None;
     gridData := None |}.

(** The options of [updateSelection], with the defaults of its
    destructuring. *)
Record UpdateOptions : Type := mkOptions {
  replace : bool;
  centerMap : bool;
  flash : bool;
  focusShareLink : bool
}.

Definition defaultOptions : UpdateOptions :=
  {| replace := false; centerMap := true; flash := true;
     focusShareLink := true |}.

(** The body of [features.forEach] in [updateSelection], run over the
    list; a throwing centroid computation ends the loop with the store as
    mutated so far. *)
Fixpoint addFeatures (replace : bool) (features : list (option Feature))
  (m : SelectionStore) (addedCount : nat) : SelectionStore * Completion nat :=
  match features with
  | [] => (m, Normal addedCount)
  | None :: rest => addFeatures replace rest m addedCount
  | Some f :: rest =>
      let name := getGridName f in
      if negb (Js.truthy name) then addFeatures replace rest m addedCount
      else
        let upper := Js.toUpperCase name in
        if negb replace && JsMap.has upper m
        then addFeatures replace rest m addedCount
        else
          match getPolygonCentroid (geometry f) with
          | Throw e => (m, Throw e)
          | Normal centroid =>
              addFeatures replace rest
                (JsMap.set upper
                   {| feature := f; name := name; centroid := centroid |} m)
                (S addedCount)
          end
  end.

(** [updateSelection(features, options)].  The closing
    [refreshSelectionState] acts on the widget, the share panel and the
    address bar only. *)
Definition updateSelection (features : list (option Feature))
  (options : UpdateOptions) (st : AppState) : AppState * Completion unit :=
  match features with
  | [] => (st, Normal tt)
  | _ =>
      let m0 := if replace options then JsMap.clear else selectedGridMap st in
      match addFeatures (replace options) features m0 0 with
      | (m1, Throw e) => (withStore st m1, Throw e)
      | (m1, Normal _) => (withStore st m1, Normal tt)
      end
  end.

(** [replaceAll(features)] of the specification. *)
Definition replaceAll (features : list (option Feature)) (st : AppState)
  : AppState * Completion unit :=
  updateSelection features
    {| replace := true; centerMap := false; flash := true;
       focusShareLink := false |} st.

Definition removeGridFromSelection (gridName : string) (st : AppState)
  : AppState :=
  if negb (Js.truthy gridName) then st
  else
    let upper := Js.toUpperCase gridName in
    if negb (JsMap.has upper (selectedGridMap st)) then st
    else withStore st (JsMap.delete upper (selectedGridMap st)).

Definition clearSelection (st : AppState) : AppState :=
  if (JsMap.size (selectedGridMap st) =? 0)%nat then st
  else withStore st JsMap.clear.

Definition getSelectedEntries (st : AppState) : list SelectionEntry :=
  JsMap.values (selectedGridMap st).

(* ================================================================= *)
(** * Click toggle *)

(** A staged addition [{feature, name, upper}]. *)
Record StagedAdd : Type := mkStaged {
  stagedFeature : Feature;
  stagedName : string;
  stagedUpper : string
}.

(** The body of [uniqueCandidates.forEach]: membership is read from the
    store as it was before the click. *)
Definition stageStep (m : SelectionStore)
  (acc : list string * list StagedAdd) (candidate : Feature)
  : list string * list StagedAdd :=
  let '(namesToRemove, featuresToAdd) := acc in
  let name := getGridName candidate in
  if negb (Js.truthy name) then acc
  else
    let upper := Js.toUpperCase name in
    if JsMap.has upper m then (namesToRemove ++ [upper], featuresToAdd)
    else (namesToRemove,
          featuresToAdd ++
            [{| stagedFeature := candidate; stagedName := name;
                stagedUpper := upper |}]).

Definition removeStep (m : SelectionStore) (upper : string)
  : SelectionStore :=
  if JsMap.has upper m then JsMap.delete upper m else m.

Fixpoint addStaged (featuresToAdd : list StagedAdd) (m : SelectionStore)
  : SelectionStore * Completion unit :=
  match featuresToAdd with
  | [] => (m, Normal tt)
  | entry :: rest =>
      if JsMap.has (stagedUpper entry) m then addStaged rest m
      else
        match getPolygonCentroid (geometry (stagedFeature entry)) with
        | Throw e => (m, Throw e)
        | Normal centroid =>
            addStaged rest
              (JsMap.set (stagedUpper entry)
                 {| feature := stagedFeature entry;
                    name := stagedName entry;
                    centroid := centroid |} m)
        end
  end.

(** The candidates of a click: the features under the pointer, with the
    clicked feature put in front unless it is among them. *)
Definition clickCandidates (f : Feature) (latlng : option LatLng)
  (st : AppState) : list Feature :=
  let candidates :=
    match latlng with
    | Some ll => findGridCandidatesAtLatLng (Some ll) (polygonLayer st)
    | None => []
    end in
  if existsb (fun candidate => (oid candidate =? oid f)%nat) candidates
  then candidates
  else f :: candidates.

(** [processGridClick(feature, event)], with [latlng] standing for
    [event?.latlng]. *)
Definition processGridClick (feature : option Feature)
  (latlng : option LatLng) (st : AppState) : AppState * Completion unit :=
  match feature with
  | None => (st, Normal tt)
  | Some f =>
      if suppressNextGridClick st then (withSuppress st false, Normal tt)
      else
        let uniqueCandidates :=
          dedupeFeaturesByName (map Some (clickCandidates f latlng st)) in
        match uniqueCandidates with
        | [] => (st, Normal tt)
        | _ =>
            let '(namesToRemove, featuresToAdd) :=
              fold_left (stageStep (selectedGridMap st)) uniqueCandidates
                ([], []) in
            match namesToRemove, featuresToAdd with
            | [], [] => (st, Normal tt)
            | _, _ =>
                let m1 := fold_left removeStep namesToRemove
                            (selectedGridMap st) in
                let '(m2, r) := addStaged featuresToAdd m1 in
                (withStore st m2, r)
            end
        end
  end.

(* ================================================================= *)
(** * Rectangle selection *)

Section Rectangle.
Context {LB : LeafletBounds}.

(** The body of [gridData.features.forEach] in [findFeaturesInBounds]. *)
Fixpoint collectMatches (features : list Feature) (bounds : LatLngBounds)
  (matches : list Feature) : Completion (list Feature) :=
  match features with
  | [] => Normal matches
  | f :: rest =>
      match geometry f with
      | None => collectMatches rest bounds matches
      | Some _ =>
          match doesFeatureIntersectBounds f bounds with
          | Throw e => Throw e
          | Normal true => collectMatches rest bounds (matches ++ [f])
          | Normal false => collectMatches rest bounds matches
          end
      end
  end.

Definition findFeaturesInBounds (data : option (list Feature))
  (bounds : option LatLngBounds) : Completion (list Feature) :=
  match data, bounds with
  | Some features, Some b =>
      match collectMatches features b [] with
      | Throw e => Throw e
      | Normal matches => Normal (dedupeFeaturesByName (map Some matches))
      end
  | _, _ => Normal []
  end.

Definition resetRectangleSelection (st : AppState) : AppState :=
  withRectangle st
    {| active := false; startLatLng := None; lastLatLng := None;
       hasMoved := false |}.

(** [scheduleSuppressNextGridClick]: the flag is raised; the timer that
    lowers it again is the event [SuppressTimerFired] below. *)
Definition scheduleSuppressNextGridClick (st : AppState) : AppState :=
  withSuppress st true.

(** The [reduce] counting the features that are new to the selection. *)
Definition countNew (replaceSelection : bool) (m : SelectionStore)
  (selectedFeatures : list Feature) : nat :=
  fold_left
    (fun count f =>
       let name := getGridName f in
       if negb (Js.truthy name) then count
       else
         let upper := Js.toUpperCase name in
         count + (if replaceSelection || negb (JsMap.has upper m)
                  then 1 else 0))%nat
    selectedFeatures 0%nat.

Definition completeRectangleSelection (finalLatLng : option LatLng)
  (st : AppState) : AppState * Completion unit :=
  let moved := hasMoved (rectangleSelectState st) in
  let start := startLatLng (rectangleSelectState st) in
  let st := resetRectangleSelection st in
  let st := if moved then scheduleSuppressNextGridClick st else st in
  match moved, start, finalLatLng with
  | true, Some startLL, Some finalLL =>
      let bounds := latLngBounds startLL finalLL in
      match findFeaturesInBounds (gridData st) (Some bounds) with
      | Throw e => (st, Throw e)
      | Normal [] => (st, Normal tt)
      | Normal selectedFeatures =>
          let replaceSelection :=
            (JsMap.size (selectedGridMap st) =? 0)%nat in
          let newFeaturesCount :=
            countNew replaceSelection (selectedGridMap st) selectedFeatures in
          if negb replaceSelection && (newFeaturesCount =? 0)%nat
          then (st, Normal tt)
          else
            updateSelection (map Some selectedFeatures)
              {| replace := replaceSelection; centerMap := false;
                 flash := true; focusShareLink := false |} st
      end
  | _, _, _ => (st, Normal tt)
  end.

(** [onRectangleMouseDown], given [event.originalEvent.shiftKey] and
    [event.latlng]. *)
Definition onRectangleMouseDown (shiftKey : bool) (latlng : LatLng)
  (st : AppState) : AppState :=
  if negb shiftKey then st
  else match gridData st with
       | None => st
       | Some _ =>
           withRectangle st
             {| active := true; startLatLng := Some latlng;
                lastLatLng := Some latlng; hasMoved := false |}
       end.

(** [onRectangleMouseMove]; the rectangle overlay exists exactly while the
    gesture is active. *)
Definition onRectangleMouseMove (latlng : LatLng) (st : AppState)
  : AppState :=
  if negb (active (rectangleSelectState st)) then st
  else
    withRectangle st
      {| active := true;
         startLatLng := startLatLng (rectangleSelectState st);
         lastLatLng := Some latlng; hasMoved := true |}.

(** [onRectangleMouseLeave] *)
Definition onRectangleMouseLeave (st : AppState) : AppState :=
  if negb (active (rectangleSelectState st)) then st
  else
    withRectangle st
      {| active := true;
         startLatLng := startLatLng (rectangleSelectState st);
         lastLatLng := lastLatLng (rectangleSelectState st);
         hasMoved := true |}.

(** [onRectangleMouseUp] and [onDocumentMouseUp], with [latlng] standing
    for the pointer position handed to [completeRectangleSelection], if
    any. *)
Definition onRectangleMouseUp (latlng : option LatLng) (st : AppState)
  : AppState * Completion unit :=
  if negb (active (rectangleSelectState st)) then (st, Normal tt)
  else
    completeRectangleSelection
      (match latlng with
       | Some ll => Some ll
       | None => lastLatLng (rectangleSelectState st)
       end) st.

(** The events that reach the engine. *)
Inductive Event : Type :=
| GridClick (feature : option Feature) (latlng : option LatLng)
| UpdateSelection (features : list (option Feature)) (options : UpdateOptions)
| RemoveGrid (gridName : string)
| ClearSelection
| RectangleMouseDown (shiftKey : bool) (latlng : LatLng)
| RectangleMouseMove (latlng : LatLng)
| RectangleMouseLeave
| RectangleMouseUp (latlng : option LatLng)
| SuppressTimerFired
| GridDataLoaded (data : list Feature)
| GridsRendered (grids : list Feature).

(** One event handler run to completion; a handler that throws leaves the
    state as mutated so far. *)
Definition dispatch (ev : Event) (st : AppState) : AppState :=
  match ev with
  | GridClick f latlng => fst (processGridClick f latlng st)
  | UpdateSelection features options =>
      fst (updateSelection features options st)
  | RemoveGrid gridName => removeGridFromSelection gridName st
  | ClearSelection => clearSelection st
  | RectangleMouseDown shiftKey latlng =>
      onRectangleMouseDown shiftKey latlng st
  | RectangleMouseMove latlng => onRectangleMouseMove latlng st
  | RectangleMouseLeave => onRectangleMouseLeave st
  | RectangleMouseUp latlng => fst (onRectangleMouseUp latlng st)
  | SuppressTimerFired => withSuppress st false
  | GridDataLoaded data =>
      {| selectedGridMap := selectedGridMap st;
         suppressNextGridClick := suppressNextGridClick st;
         rectangleSelectState := rectangleSelectState st;
         polygonLayer := polygonLayer st;
         gridData := Some data |}
  | GridsRendered grids =>
      {| selectedGridMap := selectedGridMap st;
         suppressNextGridClick := suppressNextGridClick st;
         rectangleSelectState := rectangleSelectState st;
         polygonLayer := Some grids;
         gridData := gridData st |}
  end.

(** The states reached from the initial one by a run of events. *)
Inductive Reachable : AppState -> Prop :=
| reach_init : Reachable initialState
| reach_step ev st : Reachable st -> Reachable (dispatch ev st).

End Rectangle.

(* ================================================================= *)
(** * Share-state codec *)

(** The query of the address bar, as [URLSearchParams] presents it: the
    list of name-value pairs in order.  Serialising the parameters into the
    URL and parsing them back gives the same list. *)
Definition SearchParams : Type := list (string * string).

Module URLSearchParams.

Definition delete (key : string) (params : SearchParams) : SearchParams :=
  filter (fun kv => negb (String.eqb (fst kv) key)) params.

Fixpoint get (key : string) (params : SearchParams) : option string :=
  match params with
  | [] => None
  | (k, v) :: r => if String.eqb k key then Some v else get key r
  end.

(** [set] overwrites the first pair of that name and drops the others, or
    appends a pair. *)
Fixpoint set (key value : string) (params : SearchParams) : SearchParams :=
  match params with
  | [] => [(key, value)]
  | (k, v) :: r =>
      if String.eqb k key then (key, value) :: delete key r
      else (k, v) :: set key value r
  end.

End URLSearchParams.

(** [[...new Set(namesArray.map(name => name.toUpperCase()))].sort()] *)
Definition upperSorted (gridNames : list string) : list string :=
  Js.sort (Js.newSet (map Js.toUpperCase gridNames)).

(** [updateAddressBarWithSelection(gridNames)], on the query of the
    current URL; the result is the query of the URL written to the address
    bar.  This is the branch in which the current URL parses. *)
Definition updateAddressBarWithSelection (gridNames : list string)
  (params : SearchParams) : SearchParams :=
  let params := URLSearchParams.delete "grid" params in
  let params := URLSearchParams.delete "grids" params in
  match upperSorted gridNames with
  | [] => params
  | [single] => URLSearchParams.set "grid" single params
  | several => URLSearchParams.set "grids" (Js.join "," several) params
  end.

(** The pushes of one raw name: trimmed, dropped if empty, upper-cased. *)
Definition pushName (names : list string) (raw : string) : list string :=
  let trimmed := Js.trim raw in
  if (0 <? String.length trimmed)%nat
  then names ++ [Js.toUpperCase trimmed]
  else names.

Definition getGridParamsFromUrl (params : SearchParams)
  : option (list string) :=
  let gridsParam := URLSearchParams.get "grids" params in
  let gridParam := URLSearchParams.get "grid" params in
  let names := [] in
  let names :=
    match gridsParam with
    | Some s =>
        if Js.truthy s then fold_left pushName (Js.split Js.comma s) names
        else names
    | None => names
    end in
  let names :=
    match gridParam with
    | Some s => if Js.truthy s then pushName names s else names
    | None => names
    end in
  let uniqueNames := Js.newSet names in
  match uniqueNames with
  | [] => None
  | _ => Some uniqueNames
  end.

(** The pending selection as a list: [null] stands for no name. *)
Definition decodedNames (pending : option (list string)) : list string :=
  match pending with
  | Some names => names
  | None => []
  end.

(* ================================================================= *)
(** * CSV export *)

Section CsvExport.

(** [num.toFixed(6)], the decimal rendering of a number. *)
Variable toFixed6 : float -> string.

(** [formatCsvNumber(num)]; [None] is the empty string standing in for a
    missing coordinate, which is not a number. *)
Definition formatCsvNumber (num : option float) : string :=
  match num with
  | None => ""
  | Some n => if is_nan n then "" else toFixed6 n
  end.

(** The [replace] of [escapeCsvValue]: every double-quote character is
    written twice. *)
Fixpoint doubleQuotes (s : string) : string :=
  match s with
  | EmptyString => EmptyString
  | String c r =>
      if Ascii.eqb c Js.quote
      then String Js.quote (String Js.quote (doubleQuotes r))
      else String c (doubleQuotes r)
  end.

Definition escapeCsvValue (value : string) : string :=
  if Js.contains Js.quote value || Js.contains Js.comma value
     || Js.contains Js.newline value
  then String Js.quote (doubleQuotes value ++ String Js.quote EmptyString)
  else value.

(** The [Set] of property keys met over the entries. *)
Definition collectKeys (entries : list SelectionEntry) : list string :=
  fold_left
    (fun propertyKeys entry =>
       match properties (feature entry) with
       | Some props => fold_left Js.Set_add (map fst props) propertyKeys
       | None => propertyKeys
       end)
    entries [].

Definition orderedPropertyKeys (entries : list SelectionEntry)
  : list string :=
  Js.sort
    (filter (fun key => negb (String.eqb (Js.toLowerCase key) "name"))
       (collectKeys entries)).

Definition csvHeaders (entries : list SelectionEntry) : list string :=
  ["name"; "centroid_lat"; "centroid_lng"] ++ orderedPropertyKeys entries.

(** The first cell of a row: [entry.name || getGridName(entry.feature) || '']. *)
Definition rowName (entry : SelectionEntry) : string :=
  if Js.truthy (name entry) then name entry
  else if Js.truthy (getGridName (feature entry))
       then getGridName (feature entry)
       else "".

(** The cells [[...baseValues, ...propertyValues]] of one entry. *)
Definition csvRowValues (keys : list string) (entry : SelectionEntry)
  : Completion (list string) :=
  let centroidC :=
    match centroid entry with
    | Some c => Normal (Some c)
    | None => getPolygonCentroid (geometry (feature entry))
    end in
  match centroidC with
  | Throw e => Throw e
  | Normal c =>
      let baseValues :=
        [rowName entry;
         formatCsvNumber (option_map lat c);
         formatCsvNumber (option_map lng c)] in
      let propertyValues :=
        map (fun key =>
               match properties (feature entry) with
               | Some props =>
                   match getProperty key props with
                   | Some value => value
                   | None => ""
                   end
               | None => ""
               end) keys in
      Normal (baseValues ++ propertyValues)
  end.

(** [selectionEntries.map(...)], one array of cells per entry. *)
Fixpoint csvRowsValues (keys : list string) (entries : list SelectionEntry)
  : Completion (list (list string)) :=
  match entries with
  | [] => Normal []
  | entry :: rest =>
      match csvRowValues keys entry with
      | Throw e => Throw e
      | Normal row =>
          match csvRowsValues keys rest with
          | Throw e => Throw e
          | Normal rows => Normal (row :: rows)
          end
      end
  end.

Definition csvLine (cells : list string) : string :=
  Js.join "," (map escapeCsvValue cells).

(** What an export hands to the user: a feedback message, or a download
    of the given MIME type and content (the file name carries the time of
    day and is left out). *)
Inductive ExportResult : Type :=
| Feedback (message : string)
| Download (mimeType content : string).

Definition downloadSelectionAsCSV (st : AppState) : Completion ExportResult :=
  let selectionEntries := getSelectedEntries st in
  match selectionEntries with
  | [] => Normal (Feedback "Select grids to export first")
  | _ =>
      match csvRowsValues (orderedPropertyKeys selectionEntries)
              selectionEntries with
      | Throw e => Throw e
      | Normal rows =>
          Normal (Download "text/csv"
                    (Js.join (String Js.newline EmptyString)
                       (csvLine (csvHeaders selectionEntries)
                          :: map csvLine rows)))
      end
  end.

End CsvExport.

(* ================================================================= *)
(** * Vocabulary of the properties *)

(** The non-null features of a list, in order. *)
Definition presentFeatures (features : list (option Feature))
  : list Feature :=
  flat_map (fun o => match o with Some f => [f] | None => [] end) features.

(** The first feature of the list stored under the upper-cased name [k]. *)
Fixpoint firstWithUpper (k : string) (features : list (option Feature))
  : option Feature :=
  match features with
  | [] => None
  | None :: rest => firstWithUpper k rest
  | Some f :: rest =>
      if String.eqb (upperName f) k then Some f else firstWithUpper k rest
  end.

(** The last feature of the list stored under the upper-cased name [k]:
    one further down the list if there is any, else the head. *)
Fixpoint lastWithUpper (k : string) (features : list (option Feature))
  : option Feature :=
  match features with
  | [] => None
  | o :: rest =>
      match lastWithUpper k rest with
      | Some g => Some g
      | None =>
          match o with
          | Some f => if String.eqb (upperName f) k then Some f else None
          | None => None
          end
      end
  end.

(** The features kept by a first-occurrence-wins pass over the list when
    the names [seen] are already taken. *)
Fixpoint keepFirst (seen : list string) (features : list (option Feature))
  : list Feature :=
  match features with
  | [] => []
  | None :: rest => keepFirst seen rest
  | Some f :: rest =>
      if Js.mem (upperName f) seen then keepFirst seen rest
      else f :: keepFirst (seen ++ [upperName f]) rest
  end.

(** The centroid computation of the feature does not throw. *)
Definition centroidComputes (f : Feature) : bool :=
  isNormal (getPolygonCentroid (geometry f)).

(** The centroid cached for a feature whose computation does not throw. *)
Definition centroidOrNull (f : Feature) : option Centroid :=
  match getPolygonCentroid (geometry f) with
  | Normal c => c
  | Throw _ => None
  end.

(** The entry under which [updateSelection] and [processGridClick] store a
    feature. *)
Definition entryOf (f : Feature) : SelectionEntry :=
  {| feature := f; name := getGridName f; centroid := centroidOrNull f |}.

(** The staged addition of a click candidate. *)
Definition stagedOf (f : Feature) : StagedAdd :=
  {| stagedFeature := f; stagedName := getGridName f;
     stagedUpper := upperName f |}.

(** [l1] is [l2] with some elements left out, the others in order. *)
Inductive Subsequence {A : Type} : list A -> list A -> Prop :=
| subseq_nil : Subsequence [] []
| subseq_skip x l1 l2 : Subsequence l1 l2 -> Subsequence l1 (x :: l2)
| subseq_keep x l1 l2 : Subsequence l1 l2 -> Subsequence (x :: l1) (x :: l2).

(** A name the comma-separated query carries unharmed: not empty, with no
    white space at either end and no comma. *)
Definition codecSafe (s : string) : bool :=
  Js.truthy s && String.eqb (Js.trim s) s && negb (Js.contains Js.comma s).

(** A name that passes through the decoder's trimming and upper-casing
    unchanged. *)
Definition stableName (s : string) : Prop :=
  Js.truthy s = true /\ Js.trim s = s /\ Js.toUpperCase s = s.

(** Ascending order by code units. *)
Definition Ascending (xs : list string) : Prop :=
  StronglySorted (fun a b => String.leb a b = true) xs.

(** An entry whose row can be written: its centroid is cached, or
    computing it afresh does not throw. *)
Definition rowComputes (entry : SelectionEntry) : bool :=
  match centroid entry with
  | Some _ => true
  | None => centroidComputes (feature entry)
  end.

(** Every key of the store is its own upper-casing. *)
Definition keysUppercase (m : SelectionStore) : Prop :=
  Forall (fun k => Js.toUpperCase k = k) (JsMap.keys m).

(** The geometry is a polygon or multi-polygon whose first outer ring is
    present, not empty, and has no position with two numbers. *)
Definition outerRingOf (g : Geometry) : option Ring :=
  match g with
  | Polygon coordinates => nth_error coordinates 0
  | MultiPolygon (polygon :: _) => nth_error polygon 0
  | _ => None
  end.

Definition noUsablePairs (ring : Ring) : bool :=
  forallb (fun coord => (length coord <? 2)%nat) ring.

(** The outer-ring bounding box of the polygon, or of a polygon of the
    multi-polygon, intersects the box. *)
Definition featureBoxIntersects {LB : LeafletBounds} (f : Feature)
  (box : LatLngBounds) : bool :=
  match geometry f with
  | Some (Polygon coordinates) =>
      isPolygonIntersectingBounds (nth_error coordinates 0) box
  | Some (MultiPolygon coordinates) =>
      existsb (fun polygon =>
                 isPolygonIntersectingBounds (nth_error polygon 0) box)
        coordinates
  | _ => false
  end.

(* ================================================================= *)
(** * Sample data *)

(** The closed square ring with the given corners. *)
Definition squareRing (west south east north : float) : Ring :=
  [[west; south]; [east; south]; [east; north]; [west; north];
   [west; south]].

Definition tile (id : nat) (tileName : string) (g : Geometry) : Feature :=
  {| oid := id; properties := Some [("name", tileName)];
     geometry := Some g |}.

(** A tile across the antimeridian, between longitudes 179 and 181. *)
Definition straddlingTile : Feature :=
  tile 1 "01CCV" (Polygon [squareRing 179 (-1) 181 1]).

(** A viewport that crosses the antimeridian. *)
Definition antimeridianViewport : Box :=
  {| boxSouth := -10; boxWest := 170; boxNorth := 10; boxEast := -170 |}.

Definition tileA : Feature := tile 11 "31UDQ" (Polygon [squareRing 1 1 2 2]).
Definition tileB : Feature := tile 12 "31UEQ" (Polygon [squareRing 3 1 4 2]).
Definition tileC : Feature :=
  tile 13 "32TLS" (Polygon [squareRing 20 1 21 2]).

(** The state at the end of a drag started at [(0, 0)] over a loaded
    data set, with tile C already selected. *)
Definition draggingState : AppState :=
  {| selectedGridMap := [(upperName tileC, entryOf tileC)];
     suppressNextGridClick := false;
     rectangleSelectState :=
       {| active := true; startLatLng := Some (mkLatLng 0 0);
          lastLatLng := Some (mkLatLng 5 5); hasMoved := true |};
     polygonLayer := Some [tileA; tileB; tileC];
     gridData := Some [tileA; tileB; tileC] |}.

(** A polygon whose outer ring holds one position without numbers. *)
Definition degeneratePolygon : Geometry := Polygon [[[]]].

(* ================================================================= *)
(** * Grid display *)

Module CONFIG.

Definition minZoomForGrids : float := 3.
Definition maxGridsToRender : nat := 60 * 1000.

End CONFIG.

Definition withLayer (st : AppState) (layer : option (list Feature))
  : AppState :=
  {| selectedGridMap := selectedGridMap st;
     suppressNextGridClick := suppressNextGridClick st;
     rectangleSelectState := rectangleSelectState st;
     polygonLayer := layer;
     gridData := gridData st |}.

Definition withData (st : AppState) (data : option (list Feature))
  : AppState :=
  {| selectedGridMap := selectedGridMap st;
     suppressNextGridClick := suppressNextGridClick st;
     rectangleSelectState := rectangleSelectState st;
     polygonLayer := polygonLayer st;
     gridData := data |}.

(** [clearPolygonLayer]: the layer is emptied, taken off the map and
    dropped. *)
Definition clearPolygonLayer (st : AppState) : AppState :=
  withLayer st None.

(** [renderGridsAsPolygons(grids)]: the layer holds the given features,
    or is dropped when there is none. *)
Definition renderGridsAsPolygons (grids : list Feature) (st : AppState)
  : AppState :=
  match grids with
  | [] => clearPolygonLayer st
  | _ => withLayer st (Some grids)
  end.

Section Display.
Context {LB : LeafletBounds}.

(** [updateGridDisplay], given [map.getZoom()] and [map.getBounds()]. *)
Definition updateGridDisplay (zoom : float) (bounds : LatLngBounds)
  (st : AppState) : AppState :=
  if zoom <? CONFIG.minZoomForGrids then clearPolygonLayer st
  else
    match gridData st with
    | None => st
    | Some features =>
        let visibleGrids := getVisibleGrids features bounds in
        let visibleCount := length visibleGrids in
        let visibleGrids :=
          if (CONFIG.maxGridsToRender <? visibleCount)%nat
          then firstn CONFIG.maxGridsToRender visibleGrids
          else visibleGrids in
        renderGridsAsPolygons visibleGrids st
    end.

(** [onDocumentMouseUp]: [converted] is the position
    [map.mouseEventToLatLng(event)] gives, or [None] when it throws. *)
Definition onDocumentMouseUp (converted : option LatLng) (st : AppState)
  : AppState * Completion unit :=
  if negb (active (rectangleSelectState st)) then (st, Normal tt)
  else
    completeRectangleSelection
      (match converted with
       | Some ll => Some ll
       | None =>
           match lastLatLng (rectangleSelectState st) with
           | Some ll => Some ll
           | None => startLatLng (rectangleSelectState st)
           end
       end) st.

End Display.

(* ================================================================= *)
(** * Search index and restore of a shared selection *)

Module Search.

(** An entry of [searchIndex]. *)
Record Item : Type := mkItem {
  name : string;
  originalName : string;
  feature : Feature;
  centroid : option Centroid
}.

End Search.

(** The [map] of [buildSearchIndex]; a throwing centroid computation ends
    it. *)
Fixpoint searchItems (features : list Feature)
  : Completion (list Search.Item) :=
  match features with
  | [] => Normal []
  | f :: rest =>
      let name := getGridName f in
      match getPolygonCentroid (geometry f) with
      | Throw e => Throw e
      | Normal centroid =>
          match searchItems rest with
          | Throw e => Throw e
          | Normal items =>
              Normal ({| Search.name := Js.toUpperCase name;
                         Search.originalName := name;
                         Search.feature := f;
                         Search.centroid := centroid |} :: items)
          end
      end
  end.

(** [buildSearchIndex], on [gridData.features]: the new value of
    [searchIndex]. *)
Definition buildSearchIndex (features : list Feature)
  : Completion (list Search.Item) :=
  match searchItems features with
  | Throw e => Throw e
  | Normal items =>
      Normal (filter (fun item =>
                        match Search.centroid item with
                        | Some _ => true
                        | None => false
                        end) items)
  end.

(** [s.includes(query)] *)
Fixpoint includes (query s : string) : bool :=
  if String.prefix query s then true
  else match s with
       | EmptyString => false
       | String _ r => includes query r
       end.

Definition performSearch (query : string) (index : list Search.Item)
  : list Search.Item :=
  firstn 10 (filter (fun item => includes query (Search.name item)) index).

(** The [input] listener of the search box: [None] hides the results. *)
Definition onSearchInput (value : string) (index : list Search.Item)
  : option (list Search.Item) :=
  let query := Js.toUpperCase (Js.trim value) in
  if (String.length query =? 0)%nat then None
  else Some (performSearch query index).

(** [zoomToGrid(gridName)]: the centre handed to [map.setView], if any. *)
Definition zoomToGrid (gridName : string) (index : list Search.Item)
  : option LatLng :=
  match find (fun item => String.eqb (Search.originalName item) gridName)
          index with
  | None => None
  | Some searchItem =>
      match Search.centroid searchItem with
      | None => None
      | Some c => Some (mkLatLng (lat c) (lng c))
      end
  end.

(** The state of a page load: the engine's state, the names read from the
    URL and the search index. *)
Record Session : Type := mkSession {
  app : AppState;
  pendingGridSelection : option (list string);
  searchIndex : list Search.Item
}.

(** [pendingGridSelection.map(name => searchIndex.find(...)).filter(Boolean)] *)
Definition matchPending (pending : list string) (index : list Search.Item)
  : list Search.Item :=
  flat_map
    (fun name =>
       match find (fun item => String.eqb (Search.name item) name) index with
       | Some item => [item]
       | None => []
       end) pending.

(** [applyPendingGridSelection]: the new session and, if a selection was
    resolved, the features handed to the deferred [updateSelection]. *)
Definition applyPendingGridSelection (s : Session)
  : Session * option (list Feature) :=
  match pendingGridSelection s with
  | None => (s, None)
  | Some [] => (s, None)
  | Some pending =>
      match searchIndex s with
      | [] => (s, None)
      | index =>
          match matchPending pending index with
          | [] =>
              ({| app := app s; pendingGridSelection := None;
                  searchIndex := searchIndex s |}, None)
          | matches =>
              ({| app := app s; pendingGridSelection := None;
                  searchIndex := searchIndex s |},
               Some (map Search.feature matches))
          end
      end
  end.

(** The deferred callback of [applyPendingGridSelection], as far as the
    selection goes. *)
Definition pendingSelectionTimer (features : list Feature) (st : AppState)
  : AppState * Completion unit :=
  updateSelection (map Some features)
    {| replace := true; centerMap := false; flash := true;
       focusShareLink := false |} st.

Section PageLoad.
Context {LB : LeafletBounds}.

(** The [DOMContentLoaded] listener: the pending selection is read from
    the query of the URL. *)
Definition pageLoaded (params : SearchParams) : Session :=
  {| app := initialState;
     pendingGridSelection := getGridParamsFromUrl params;
     searchIndex := [] |}.

(** [loadGridData], once the data set [data.features] has arrived; an
    exception of [buildSearchIndex] is caught and reported. *)
Definition loadGridData (features : list Feature) (zoom : float)
  (bounds : LatLngBounds) (s : Session) : Session * option (list Feature) :=
  let app1 := updateGridDisplay zoom bounds (withData (app s) (Some features)) in
  match buildSearchIndex features with
  | Throw _ =>
      ({| app := app1; pendingGridSelection := pendingGridSelection s;
          searchIndex := searchIndex s |}, None)
  | Normal index =>
      applyPendingGridSelection
        {| app := app1; pendingGridSelection := pendingGridSelection s;
           searchIndex := index |}
  end.

(** A page load from the given URL query up to the deferred callback: the
    engine's state when all of it has run. *)
Definition restoreFromUrl (params : SearchParams) (features : list Feature)
  (zoom : float) (bounds : LatLngBounds) : AppState :=
  match loadGridData features zoom bounds (pageLoaded params) with
  | (s, Some resolved) => fst (pendingSelectionTimer resolved (app s))
  | (s, None) => app s
  end.

End PageLoad.

(* ================================================================= *)
(** * Vocabulary of further properties *)

(** What the engine guarantees of an entry stored under a key: the key is
    the upper-cased name of the feature, the entry holds the feature, its
    name and the centroid computed from it, and that computation did not
    throw. *)
Definition entryWellFormed (kv : string * SelectionEntry) : Prop :=
  centroidComputes (feature (snd kv)) = true
  /\ kv = (upperName (feature (snd kv)), entryOf (feature (snd kv))).

(** The name is that of an item of the search index. *)
Definition knownName (index : list Search.Item) (n : string) : bool :=
  existsb (fun item => String.eqb (Search.name item) n) index.

(** The search item made of a feature. *)
Definition itemOf (f : Feature) : Search.Item :=
  {| Search.name := upperName f;
     Search.originalName := getGridName f;
     Search.feature := f;
     Search.centroid := centroidOrNull f |}.

Definition hasCentroid (item : Search.Item) : bool :=
  match Search.centroid item with
  | Some _ => true
  | None => false
  end.

(** The string does not start with white space. *)
Definition startsClean (s : string) : bool :=
  match s with
  | EmptyString => true
  | String c _ => negb (Js.isWhiteSpace c)
  end.

(** The pair appended to the query for the given sorted names. *)
Definition selectionParameter (sorted : list string) : SearchParams :=
  match sorted with
  | [] => []
  | [single] => [("grid", single)]
  | several => [("grids", Js.join "," several)]
  end.

(** The rectangle state between gestures. *)
Definition idleRectangle : RectangleSelectState :=
  {| active := false; startLatLng := None; lastLatLng := None;
     hasMoved := false |}.


(* ================================================================= *)
(** * Vocabulary of the visibility statements *)

(** Every position of the ring holds a number as its longitude and as
    its latitude. *)
Definition numericRing (ring : Ring) : bool :=
  forallb (fun p => negb (is_nan (lngOf p)) && negb (is_nan (latOf p)))
    ring.

(** The ring has a vertex at or east of the longitude, at or west of it,
    at or north of the latitude, at or south of it. *)
Definition reachesEast (ring : Ring) (x : float) : bool :=
  existsb (fun p => (x <=? lngOf p)%float) ring.

Definition reachesWest (ring : Ring) (x : float) : bool :=
  existsb (fun p => (lngOf p <=? x)%float) ring.

Definition reachesNorth (ring : Ring) (y : float) : bool :=
  existsb (fun p => (y <=? latOf p)%float) ring.

Definition reachesSouth (ring : Ring) (y : float) : bool :=
  existsb (fun p => (latOf p <=? y)%float) ring.

(** The ring has vertices on both sides of longitude 180. *)
Definition straddles180 (ring : Ring) : bool :=
  reachesWest ring 180%float && reachesEast ring 180%float.

(** The bounding box of the ring's vertices meets the box, said through
    the vertices: the ring reaches each side of the box from within; a
    box whose west side lies east of its east side stands for the two
    ranges from [west] eastwards and from [east] westwards. *)
Definition ringMeetsBox {LB : LeafletBounds} (ring : Ring)
  (box : LatLngBounds) : bool :=
  reachesNorth ring (getSouth box) && reachesSouth ring (getNorth box)
  && ((reachesEast ring (getWest box) && reachesWest ring (getEast box))
      || (Num.gt (getWest box) (getEast box)
          && (reachesEast ring (getWest box)
              || reachesWest ring (getEast box)))).

(** The vertex lies in the box, a box with [west > east] being read as
    above. *)
Definition vertexInBox {LB : LeafletBounds} (p : Position)
  (box : LatLngBounds) : bool :=
  (getSouth box <=? latOf p)%float && (latOf p <=? getNorth box)%float
  && (if Num.gt (getWest box) (getEast box)
      then (getWest box <=? lngOf p)%float || (lngOf p <=? getEast box)%float
      else (getWest box <=? lngOf p)%float
           && (lngOf p <=? getEast box)%float).

(** The outer rings the visibility query looks at: the first ring of the
    polygon, or of each polygon of the multi-polygon. *)
Definition firstRing (polygon : list Ring) : list Ring :=
  match nth_error polygon 0 with
  | Some ring => [ring]
  | None => []
  end.

Definition outerRings (f : Feature) : list Ring :=
  match geometry f with
  | Some (Polygon coordinates) => firstRing coordinates
  | Some (MultiPolygon coordinates) => flat_map firstRing coordinates
  | _ => []
  end.
(* ================================================================= *)
(** * Facts about strings, sets and sorting *)

Local Close Scope float_scope.

Section JsFacts.
Import Js.

Lemma upperChar_not_lower c : isLowerAscii (upperChar c) = false.
Proof.
  unfold upperChar.
  destruct (isLowerAscii c) eqn:E; [| exact E].
  unfold isLowerAscii in *.
  apply andb_true_iff in E as [E1 E2].
  apply Nat.leb_le in E1, E2.
  rewrite nat_ascii_embedding by lia.
  apply andb_false_iff. left. apply Nat.leb_gt. lia.
Qed.

Lemma upperChar_idem c : upperChar (upperChar c) = upperChar c.
Proof.
  unfold upperChar at 1. now rewrite upperChar_not_lower.
Qed.

Lemma toUpperCase_idem s : toUpperCase (toUpperCase s) = toUpperCase s.
Proof.
  induction s as [| c r IH]; simpl; [reflexivity |].
  now rewrite upperChar_idem, IH.
Qed.

Lemma toUpperCase_truthy s : truthy (toUpperCase s) = truthy s.
Proof. now destruct s. Qed.

(** Upper-casing only moves letters: a character that is not a lower-case
    letter stays, and the image of a lower-case letter is an upper-case
    letter. *)
Lemma upperChar_cases c :
  upperChar c = c \/
  (isLowerAscii c = true /\ isUpperAscii (upperChar c) = true).
Proof.
  unfold upperChar. destruct (isLowerAscii c) eqn:E; [right | now left].
  split; [reflexivity |].
  unfold isLowerAscii in E. apply andb_true_iff in E as [E1 E2].
  apply Nat.leb_le in E1, E2.
  unfold isUpperAscii. rewrite nat_ascii_embedding by lia.
  apply andb_true_iff; split; apply Nat.leb_le; lia.
Qed.

Lemma isWhiteSpace_upperChar c : isWhiteSpace (upperChar c) = isWhiteSpace c.
Proof.
  destruct (upperChar_cases c) as [-> | [Hl Hu]]; [reflexivity |].
  unfold isWhiteSpace, isUpperAscii, isLowerAscii in *.
  apply andb_true_iff in Hl as [L1 L2], Hu as [U1 U2].
  apply Nat.leb_le in L1, L2, U1, U2.
  transitivity false; [| symmetry];
    (apply orb_false_iff; split;
     [apply andb_false_iff; right; apply Nat.leb_gt; lia
     | apply Nat.eqb_neq; lia]).
Qed.

Lemma eqb_comma_upperChar c :
  Ascii.eqb (upperChar c) comma = Ascii.eqb c comma.
Proof.
  destruct (upperChar_cases c) as [-> | [Hl Hu]]; [reflexivity |].
  unfold isUpperAscii, isLowerAscii in *.
  apply andb_true_iff in Hl as [L1 L2], Hu as [U1 U2].
  apply Nat.leb_le in L1, L2, U1, U2.
  transitivity false; [| symmetry]; apply Ascii.eqb_neq; intros E;
    [rewrite E in U1, U2 | rewrite E in L1, L2];
    unfold comma in *; rewrite nat_ascii_embedding in *; lia.
Qed.

Lemma contains_comma_toUpperCase s :
  contains comma (toUpperCase s) = contains comma s.
Proof.
  induction s as [| c r IH]; simpl; [reflexivity |].
  now rewrite eqb_comma_upperChar, IH.
Qed.

Lemma trimStart_toUpperCase s :
  trimStart (toUpperCase s) = toUpperCase (trimStart s).
Proof.
  induction s as [| c r IH]; simpl; [reflexivity |].
  rewrite isWhiteSpace_upperChar. now destruct (isWhiteSpace c).
Qed.

Lemma trimEnd_toUpperCase s :
  trimEnd (toUpperCase s) = toUpperCase (trimEnd s).
Proof.
  induction s as [| c r IH]; simpl; [reflexivity |].
  rewrite IH, isWhiteSpace_upperChar.
  destruct (trimEnd r); simpl; [now destruct (isWhiteSpace c) | reflexivity].
Qed.

Lemma trim_toUpperCase s : trim (toUpperCase s) = toUpperCase (trim s).
Proof.
  unfold trim. now rewrite trimStart_toUpperCase, trimEnd_toUpperCase.
Qed.

(* ----------------------------------------------------------------- *)
(** ** Sets *)

Lemma mem_In x xs : mem x xs = true <-> In x xs.
Proof.
  unfold mem. rewrite existsb_exists. split.
  - intros (y & Hy & E). apply String.eqb_eq in E. now subst.
  - intros H. exists x. split; [exact H | apply String.eqb_refl].
Qed.

Lemma mem_false x xs : mem x xs = false <-> ~ In x xs.
Proof.
  rewrite <- mem_In. destruct (mem x xs); split; congruence.
Qed.

Lemma Set_add_In s x y : In y (Set_add s x) <-> In y s \/ y = x.
Proof.
  unfold Set_add. destruct (mem x s) eqn:E.
  - apply mem_In in E. split; [now left | intros [H | ->]; assumption].
  - rewrite in_app_iff. simpl. intuition congruence.
Qed.

Lemma Set_add_NoDup s x : NoDup s -> NoDup (Set_add s x).
Proof.
  intros H. unfold Set_add. destruct (mem x s) eqn:E; [exact H |].
  apply mem_false in E.
  apply NoDup_app; [exact H | repeat constructor; simpl; tauto |].
  intros y Hy [<- | []]. exact (E Hy).
Qed.

Lemma fold_Set_add_In xs : forall s y,
  In y (fold_left Set_add xs s) <-> In y s \/ In y xs.
Proof.
  induction xs as [| x r IH]; intros s y; simpl; [tauto |].
  rewrite IH, Set_add_In. intuition congruence.
Qed.

Lemma fold_Set_add_NoDup xs : forall s,
  NoDup s -> NoDup (fold_left Set_add xs s).
Proof.
  induction xs as [| x r IH]; intros s H; simpl; [exact H |].
  apply IH, Set_add_NoDup, H.
Qed.

Lemma fold_Set_add_fresh xs : forall s,
  NoDup (s ++ xs) -> fold_left Set_add xs s = s ++ xs.
Proof.
  induction xs as [| x r IH]; intros s H; simpl.
  - now rewrite app_nil_r.
  - assert (E : mem x s = false).
    { apply mem_false. intros Hx. apply NoDup_remove_2 in H.
      apply H, in_or_app. now left. }
    unfold Set_add at 2. rewrite E.
    rewrite IH; rewrite <- app_assoc; simpl; [reflexivity | exact H].
Qed.

Lemma newSet_In xs y : In y (newSet xs) <-> In y xs.
Proof. unfold newSet. rewrite fold_Set_add_In. simpl. tauto. Qed.

Lemma newSet_NoDup xs : NoDup (newSet xs).
Proof. apply fold_Set_add_NoDup. constructor. Qed.

Lemma newSet_of_NoDup xs : NoDup xs -> newSet xs = xs.
Proof. intros H. unfold newSet. now rewrite fold_Set_add_fresh. Qed.

(* ----------------------------------------------------------------- *)
(** ** The default sort *)

Lemma ascii_compare_trans_lt a b c :
  Ascii.compare a b = Lt -> Ascii.compare b c = Lt -> Ascii.compare a c = Lt.
Proof.
  unfold Ascii.compare. rewrite !BinNat.N.compare_lt_iff.
  apply BinNat.N.lt_trans.
Qed.

Lemma string_leb_trans a : forall b c,
  String.leb a b = true -> String.leb b c = true -> String.leb a c = true.
Proof.
  unfold String.leb.
  induction a as [| x a IH]; intros [| y b] [| z c]; simpl; try congruence.
  destruct (Ascii.compare x y) eqn:Exy; try congruence.
  - apply Ascii.compare_eq_iff in Exy. subst y.
    destruct (Ascii.compare x z); try congruence. apply IH.
  - destruct (Ascii.compare y z) eqn:Eyz; try congruence.
    + apply Ascii.compare_eq_iff in Eyz. subst z. now rewrite Exy.
    + now rewrite (ascii_compare_trans_lt _ _ _ Exy Eyz).
Qed.

Lemma insertSorted_Permutation x xs : Permutation (insertSorted x xs) (x :: xs).
Proof.
  induction xs as [| y r IH]; simpl; [reflexivity |].
  destruct (String.leb x y); [reflexivity |].
  rewrite IH. apply perm_swap.
Qed.

Lemma sort_Permutation xs : Permutation (sort xs) xs.
Proof.
  induction xs as [| x r IH]; simpl; [constructor |].
  rewrite insertSorted_Permutation. now constructor.
Qed.

Lemma insertSorted_Ascending x xs :
  Ascending xs -> Ascending (insertSorted x xs).
Proof.
  unfold Ascending.
  induction xs as [| y r IH]; intros H; simpl.
  - repeat constructor.
  - apply StronglySorted_inv in H as [Hr Hy].
    destruct (String.leb x y) eqn:E.
    + constructor; [now constructor |].
      constructor; [exact E |].
      eapply Forall_impl; [| exact Hy].
      intros z Hz. eapply string_leb_trans; eassumption.
    + constructor; [now apply IH |].
      eapply Permutation_Forall; [symmetry; apply insertSorted_Permutation |].
      constructor; [| exact Hy].
      destruct (String.leb_total x y) as [H | H]; congruence.
Qed.

Lemma sort_Ascending xs : Ascending (sort xs).
Proof.
  induction xs as [| x r IH]; simpl.
  - constructor.
  - now apply insertSorted_Ascending.
Qed.

Lemma sort_In xs y : In y (sort xs) <-> In y xs.
Proof.
  split; apply Permutation_in;
    [apply sort_Permutation | symmetry; apply sort_Permutation].
Qed.

Lemma sort_NoDup xs : NoDup xs -> NoDup (sort xs).
Proof.
  apply Permutation_NoDup. symmetry. apply sort_Permutation.
Qed.

(** Two ascending lists with the same elements, each once, are equal. *)
Lemma Ascending_unique xs : forall ys,
  Ascending xs -> Ascending ys -> Permutation xs ys -> xs = ys.
Proof.
  unfold Ascending.
  induction xs as [| x xs IH]; intros ys Hx Hy P.
  - now apply Permutation_nil in P.
  - destruct ys as [| y ys].
    { symmetry in P. now apply Permutation_nil in P. }
    apply StronglySorted_inv in Hx as [Hxs Hx].
    apply StronglySorted_inv in Hy as [Hys Hy].
    rewrite Forall_forall in Hx, Hy.
    assert (E : x = y).
    { assert (I1 : In x (y :: ys))
        by (eapply Permutation_in; [exact P | now left]).
      assert (I2 : In y (x :: xs))
        by (eapply Permutation_in; [symmetry; exact P | now left]).
      destruct I1 as [-> | I1]; [reflexivity |].
      destruct I2 as [-> | I2]; [reflexivity |].
      apply String.leb_antisym; [now apply Hx | now apply Hy]. }
    subst y. f_equal.
    apply IH; try assumption.
    eapply Permutation_cons_inv. exact P.
Qed.

End JsFacts.

(* ================================================================= *)
(** * Share-state codec: encoding and decoding *)

Section Codec.
Import Js.

Lemma split_without_separator s :
  contains comma s = false -> split comma s = [s].
Proof.
  induction s as [| c r IH]; simpl; [reflexivity |].
  intros H. apply orb_false_iff in H as [Hc Hr].
  rewrite Hc, (IH Hr). reflexivity.
Qed.

Lemma split_at_separator s t :
  contains comma s = false ->
  split comma (s ++ "," ++ t)%string = s :: split comma t.
Proof.
  induction s as [| c r IH]; simpl; [reflexivity |].
  intros H. apply orb_false_iff in H as [Hc Hr].
  rewrite Hc. simpl in IH. rewrite (IH Hr). reflexivity.
Qed.

Lemma split_join x xs :
  Forall (fun s => contains comma s = false) (x :: xs) ->
  split comma (join "," (x :: xs)) = x :: xs.
Proof.
  revert x. induction xs as [| y r IH]; intros x H.
  - simpl. apply split_without_separator. now inversion H.
  - inversion H as [| ? ? Hx Hr]; subst.
    change (join "," (x :: y :: r)) with (x ++ "," ++ join "," (y :: r))%string.
    rewrite (split_at_separator _ _ Hx), (IH _ Hr). reflexivity.
Qed.

Lemma truthy_length s : truthy s = true -> (0 <? String.length s)%nat = true.
Proof. now destruct s. Qed.

Lemma truthy_append s t : truthy s = true -> truthy (s ++ t)%string = true.
Proof. now destruct s. Qed.

Lemma pushName_stable names s : stableName s -> pushName names s = names ++ [s].
Proof.
  intros (Ht & Htrim & Hup). unfold pushName.
  rewrite Htrim, (truthy_length _ Ht), Hup. reflexivity.
Qed.

Lemma fold_pushName_stable xs : forall names,
  Forall stableName xs -> fold_left pushName xs names = names ++ xs.
Proof.
  induction xs as [| x r IH]; intros names H; simpl.
  - now rewrite app_nil_r.
  - inversion H; subst.
    rewrite pushName_stable by assumption.
    rewrite IH by assumption. now rewrite <- app_assoc.
Qed.

Lemma codecSafe_toUpperCase s :
  codecSafe s = true ->
  stableName (toUpperCase s) /\ contains comma (toUpperCase s) = false.
Proof.
  unfold codecSafe, stableName. intros H.
  apply andb_true_iff in H as [H Hc].
  apply andb_true_iff in H as [Ht He].
  apply String.eqb_eq in He. apply negb_true_iff in Hc.
  rewrite toUpperCase_truthy, trim_toUpperCase, He, toUpperCase_idem,
    contains_comma_toUpperCase.
  auto.
Qed.

Lemma upperSorted_In names x :
  In x (upperSorted names) <-> In x (map toUpperCase names).
Proof.
  unfold upperSorted. now rewrite sort_In, newSet_In.
Qed.

Lemma upperSorted_NoDup names : NoDup (upperSorted names).
Proof. apply sort_NoDup, newSet_NoDup. Qed.

Lemma upperSorted_Ascending names : Ascending (upperSorted names).
Proof. apply sort_Ascending. Qed.

Lemma upperSorted_safe names :
  forallb codecSafe names = true ->
  Forall (fun s => stableName s /\ contains comma s = false)
    (upperSorted names).
Proof.
  intros H. rewrite forallb_forall in H.
  apply Forall_forall. intros x Hx.
  apply upperSorted_In, in_map_iff in Hx as (n & <- & Hn).
  apply codecSafe_toUpperCase, H, Hn.
Qed.

(** The address written does not depend on the order in which the names
    are handed over, so neither on how [localeCompare] orders them in
    [getSelectedNamesSorted]. *)
Lemma upperSorted_Permutation names names' :
  Permutation names names' -> upperSorted names = upperSorted names'.
Proof.
  intros P. apply Ascending_unique; try apply upperSorted_Ascending.
  apply NoDup_Permutation; try apply upperSorted_NoDup.
  intros x. rewrite !upperSorted_In.
  split; apply Permutation_in; [| symmetry]; now apply Permutation_map.
Qed.

Lemma get_delete_same key params :
  URLSearchParams.get key (URLSearchParams.delete key params) = None.
Proof.
  induction params as [| [k v] r IH]; simpl; [reflexivity |].
  destruct (String.eqb k key) eqn:E; simpl; [exact IH |].
  now rewrite E.
Qed.

Lemma get_delete_other key key' params :
  key <> key' ->
  URLSearchParams.get key (URLSearchParams.delete key' params)
  = URLSearchParams.get key params.
Proof.
  intros N. induction params as [| [k v] r IH]; simpl; [reflexivity |].
  destruct (String.eqb k key') eqn:E; simpl.
  - apply String.eqb_eq in E. subst k.
    destruct (String.eqb key' key) eqn:E'; [| exact IH].
    apply String.eqb_eq in E'. congruence.
  - now rewrite IH.
Qed.

Lemma get_set_same key value params :
  URLSearchParams.get key (URLSearchParams.set key value params) = Some value.
Proof.
  induction params as [| [k v] r IH]; simpl.
  - now rewrite String.eqb_refl.
  - destruct (String.eqb k key) eqn:E; simpl.
    + now rewrite String.eqb_refl.
    + now rewrite E.
Qed.

Lemma get_set_other key key' value params :
  key <> key' ->
  URLSearchParams.get key (URLSearchParams.set key' value params)
  = URLSearchParams.get key params.
Proof.
  intros N. induction params as [| [k v] r IH]; simpl.
  - destruct (String.eqb key' key) eqn:E; [| reflexivity].
    apply String.eqb_eq in E. congruence.
  - destruct (String.eqb k key') eqn:E; simpl.
    + apply String.eqb_eq in E. subst k.
      destruct (String.eqb key' key) eqn:E'.
      * apply String.eqb_eq in E'. congruence.
      * now apply get_delete_other.
    + now rewrite IH.
Qed.

(** The parameters written for zero, one and several names. *)
Lemma encoded_parameters names params :
  let written := updateAddressBarWithSelection names params in
  match upperSorted names with
  | [] =>
      URLSearchParams.get "grid" written = None
      /\ URLSearchParams.get "grids" written = None
  | [single] =>
      URLSearchParams.get "grid" written = Some single
      /\ URLSearchParams.get "grids" written = None
  | several =>
      URLSearchParams.get "grid" written = None
      /\ URLSearchParams.get "grids" written = Some (join "," several)
  end.
Proof.
  unfold updateAddressBarWithSelection.
  destruct (upperSorted names) as [| x [| y r]]; cbv zeta.
  - rewrite get_delete_same.
    rewrite get_delete_other, get_delete_same by discriminate. auto.
  - rewrite get_set_same, get_set_other, get_delete_same by discriminate.
    auto.
  - rewrite get_set_same, get_set_other, get_delete_other, get_delete_same
      by discriminate.
    auto.
Qed.

Lemma decode_encoded names params :
  forallb codecSafe names = true ->
  getGridParamsFromUrl (updateAddressBarWithSelection names params)
  = match upperSorted names with [] => None | l => Some l end.
Proof.
  intros Hsafe.
  pose proof (encoded_parameters names params) as Henc.
  pose proof (upperSorted_safe names Hsafe) as Hall.
  pose proof (upperSorted_NoDup names) as Hnd.
  cbv zeta in Henc. unfold getGridParamsFromUrl.
  destruct (upperSorted names) as [| x [| y r]] eqn:E;
    destruct Henc as [-> ->]; cbv zeta.
  - reflexivity.
  - inversion Hall as [| ? ? [Hx _] _]; subst.
    destruct Hx as (Ht & Htrim & Hup).
    rewrite Ht. rewrite pushName_stable by (repeat split; assumption).
    reflexivity.
  - assert (Hst : Forall stableName (x :: y :: r))
      by (eapply Forall_impl; [| exact Hall]; now intros ? []).
    assert (Hcm : Forall (fun s => contains comma s = false) (x :: y :: r))
      by (eapply Forall_impl; [| exact Hall]; now intros ? []).
    assert (Ht : truthy (join "," (x :: y :: r)) = true).
    { change (join "," (x :: y :: r)) with (x ++ "," ++ join "," (y :: r))%string.
      apply truthy_append. inversion Hst as [| ? ? [H _] _]. exact H. }
    rewrite Ht, split_join, fold_pushName_stable by assumption.
    rewrite app_nil_l, newSet_of_NoDup by assumption.
    reflexivity.
Qed.

End Codec.

(** C3 (as amended): the encoder removes [grid] and [grids] for zero
    names, sets [grid=<NAME>] for one and [grids=<NAME1>,<NAME2>,...] for
    several; and for every list of selected names that are not empty,
    carry no white space at either end and contain no comma, decoding the
    query written by the encoder gives back exactly the upper-cased,
    de-duplicated names in ascending order ([null] when there is none);
    that list is ascending, duplicate-free and has the upper-casings of the
    input names as its elements. *)
Theorem url_codec_round_trip (names : list string) (params : SearchParams) :
  forallb codecSafe names = true ->
  decodedNames
    (getGridParamsFromUrl (updateAddressBarWithSelection names params))
  = upperSorted names
  /\ match upperSorted names with
     | [] =>
         URLSearchParams.get "grid"
           (updateAddressBarWithSelection names params) = None
         /\ URLSearchParams.get "grids"
              (updateAddressBarWithSelection names params) = None
     | [single] =>
         URLSearchParams.get "grid"
           (updateAddressBarWithSelection names params) = Some single
         /\ URLSearchParams.get "grids"
              (updateAddressBarWithSelection names params) = None
     | several =>
         URLSearchParams.get "grid"
           (updateAddressBarWithSelection names params) = None
         /\ URLSearchParams.get "grids"
              (updateAddressBarWithSelection names params)
            = Some (Js.join "," several)
     end
  /\ Ascending (upperSorted names)
  /\ NoDup (upperSorted names)
  /\ (forall x, In x (upperSorted names) <-> In x (map Js.toUpperCase names)).
Proof.
  intros H. split; [| split; [| split; [| split]]].
  - rewrite decode_encoded by exact H.
    now destruct (upperSorted names).
  - exact (encoded_parameters names params).
  - apply upperSorted_Ascending.
  - apply upperSorted_NoDup.
  - apply upperSorted_In.
Qed.

Lemma url_codec_round_trip_witness :
  decodedNames
    (getGridParamsFromUrl
       (updateAddressBarWithSelection ["02abc"; "01ccv"; "01CCV"]
          [("zoom", "5"); ("grid", "99ZZZ")]))
  = ["01CCV"; "02ABC"].
Proof.
  exact (proj1 (url_codec_round_trip ["02abc"; "01ccv"; "01CCV"]
                  [("zoom", "5"); ("grid", "99ZZZ")] eq_refl)).
Defined.

(** C3 fails as stated: two selected names, one of them holding a comma,
    are written as [grids=A,B,C] and read back as three names. *)
Lemma url_codec_comma_counterexample :
  decodedNames
    (getGridParamsFromUrl (updateAddressBarWithSelection ["A,B"; "C"] []))
  = ["A"; "B"; "C"]
  /\ upperSorted ["A,B"; "C"] = ["A,B"; "C"]
  /\ decodedNames
       (getGridParamsFromUrl (updateAddressBarWithSelection ["A,B"; "C"] []))
     <> upperSorted ["A,B"; "C"].
Proof.
  split; [reflexivity | split; [reflexivity | discriminate]].
Qed.

(* ================================================================= *)
(** * Names and the selection map *)

Lemma propOr_truthy f key alt :
  Js.truthy alt = true -> Js.truthy (propOr f key alt) = true.
Proof.
  intros H. unfold propOr.
  destruct (properties f) as [props |]; [| exact H].
  destruct (getProperty key props) as [v |]; [| exact H].
  destruct (Js.truthy v) eqn:E; [exact E | exact H].
Qed.

(** The fallback ['Grid'] makes every name non-empty. *)
Lemma getGridName_truthy f : Js.truthy (getGridName f) = true.
Proof.
  unfold getGridName. repeat apply propOr_truthy. reflexivity.
Qed.

Lemma upperName_upper f : Js.toUpperCase (upperName f) = upperName f.
Proof. apply toUpperCase_idem. Qed.

Lemma centroidComputes_Normal f :
  centroidComputes f = true ->
  getPolygonCentroid (geometry f) = Normal (centroidOrNull f).
Proof.
  unfold centroidComputes, centroidOrNull.
  destruct (getPolygonCentroid (geometry f)); [reflexivity | discriminate].
Qed.

Section MapFacts.
Import JsMap.

Lemma has_In key m : has key m = true <-> In key (keys m).
Proof.
  unfold has, keys. rewrite existsb_exists, in_map_iff. split.
  - intros ([k v] & H & E). apply String.eqb_eq in E. now exists (k, v).
  - intros ([k v] & E & H). exists (k, v). simpl in *. subst.
    split; [exact H | apply String.eqb_refl].
Qed.

Lemma has_false key m : has key m = false <-> ~ In key (keys m).
Proof.
  rewrite <- has_In. destruct (has key m); split; congruence.
Qed.

Lemma has_mem key m : has key m = Js.mem key (keys m).
Proof.
  destruct (Js.mem key (keys m)) eqn:E.
  - apply has_In, mem_In, E.
  - apply has_false, mem_false, E.
Qed.

Lemma set_absent key value m :
  has key m = false -> set key value m = m ++ [(key, value)].
Proof.
  induction m as [| [k v] r IH]; simpl; [reflexivity |].
  destruct (String.eqb k key); simpl; [discriminate |].
  intros H. now rewrite IH.
Qed.

Lemma keys_set key value m : keys (set key value m) = Js.Set_add (keys m) key.
Proof.
  unfold Js.Set_add. rewrite <- has_mem.
  destruct (has key m) eqn:E.
  - induction m as [| [k v] r IH]; simpl in *; [discriminate |].
    destruct (String.eqb k key) eqn:Ek; simpl.
    + apply String.eqb_eq in Ek. now subst.
    + now rewrite IH.
  - rewrite set_absent by exact E. unfold keys. now rewrite map_app.
Qed.

Lemma get_set key value m k :
  get k (set key value m)
  = if String.eqb key k then Some value else get k m.
Proof.
  induction m as [| [k' v'] r IH]; simpl; [reflexivity |].
  destruct (String.eqb k' key) eqn:E; simpl.
  - apply String.eqb_eq in E. subst k'. now destruct (String.eqb key k).
  - rewrite IH. destruct (String.eqb k' k) eqn:E'; [| reflexivity].
    apply String.eqb_eq in E'. subst k'.
    now rewrite String.eqb_sym, E.
Qed.

Lemma keys_delete key m k :
  In k (keys (delete key m)) <-> In k (keys m) /\ k <> key.
Proof.
  unfold keys, delete. rewrite !in_map_iff. split.
  - intros ([k' v] & <- & H). apply filter_In in H as [H E].
    apply negb_true_iff, String.eqb_neq in E.
    split; [now exists (k', v) | exact E].
  - intros [([k' v] & <- & H) N]. exists (k', v). split; [reflexivity |].
    apply filter_In. split; [exact H |].
    now apply negb_true_iff, String.eqb_neq.
Qed.

Lemma In_set kv key value m :
  In kv (set key value m) -> kv = (key, value) \/ In kv m.
Proof.
  induction m as [| [k v] r IH]; simpl.
  - intros [<- | []]. now left.
  - destruct (String.eqb k key); simpl.
    + intros [<- | H]; auto.
    + intros [<- | H]; auto. destruct (IH H); auto.
Qed.

Lemma In_delete kv key m : In kv (delete key m) -> In kv m.
Proof. unfold delete. intros H. now apply filter_In in H. Qed.

End MapFacts.

(* ================================================================= *)
(** * De-duplication by name *)

Lemma dedupe_fold features : forall acc seen,
  fold_left dedupeStep features (acc, seen)
  = (acc ++ keepFirst seen features,
     seen ++ map upperName (keepFirst seen features)).
Proof.
  induction features as [| [f |] rest IH]; intros acc seen; simpl.
  - now rewrite !app_nil_r.
  - rewrite getGridName_truthy. simpl.
    fold (upperName f).
    destruct (Js.mem (upperName f) seen) eqn:E.
    + apply IH.
    + unfold Js.Set_add. rewrite E, IH. simpl.
      now rewrite <- !app_assoc.
  - apply IH.
Qed.

Lemma dedupeFeaturesByName_keepFirst features :
  dedupeFeaturesByName features = keepFirst [] features.
Proof.
  unfold dedupeFeaturesByName.
  destruct features as [| o rest]; [reflexivity |].
  now rewrite dedupe_fold.
Qed.

Lemma keepFirst_Subsequence features : forall seen,
  Subsequence (map Some (keepFirst seen features)) features.
Proof.
  induction features as [| [f |] rest IH]; intros seen; simpl.
  - constructor.
  - destruct (Js.mem (upperName f) seen); simpl.
    + apply subseq_skip, IH.
    + apply subseq_keep, IH.
  - apply subseq_skip, IH.
Qed.

Lemma keepFirst_In features : forall seen f,
  In f (keepFirst seen features) -> In (Some f) features.
Proof.
  induction features as [| [g |] rest IH]; intros seen f; simpl.
  - tauto.
  - destruct (Js.mem (upperName g) seen).
    + intros H. right. eapply IH, H.
    + intros [<- | H]; [now left | right; eapply IH, H].
  - intros H. right. eapply IH, H.
Qed.

Lemma keepFirst_unseen features : forall seen f,
  In f (keepFirst seen features) -> ~ In (upperName f) seen.
Proof.
  induction features as [| [g |] rest IH]; intros seen f; simpl.
  - tauto.
  - destruct (Js.mem (upperName g) seen) eqn:E.
    + apply IH.
    + intros [<- | H].
      * now apply mem_false.
      * intros Hs. apply (IH _ _ H). apply in_or_app. now left.
  - apply IH.
Qed.

Lemma keepFirst_NoDup features : forall seen,
  NoDup (map upperName (keepFirst seen features)).
Proof.
  induction features as [| [g |] rest IH]; intros seen; simpl.
  - constructor.
  - destruct (Js.mem (upperName g) seen); [apply IH |].
    simpl. constructor; [| apply IH].
    intros H. apply in_map_iff in H as (f & E & H).
    apply keepFirst_unseen in H. apply H.
    apply in_or_app. right. rewrite E. now left.
  - apply IH.
Qed.

Lemma keepFirst_first features : forall seen f,
  In f (keepFirst seen features) ->
  firstWithUpper (upperName f) features = Some f.
Proof.
  induction features as [| [g |] rest IH]; intros seen f; simpl.
  - tauto.
  - destruct (Js.mem (upperName g) seen) eqn:E.
    + intros H.
      destruct (String.eqb (upperName g) (upperName f)) eqn:Eg.
      * apply String.eqb_eq in Eg. apply mem_In in E.
        apply keepFirst_unseen in H. rewrite Eg in E. contradiction.
      * eapply IH, H.
    + intros [<- | H].
      * now rewrite String.eqb_refl.
      * destruct (String.eqb (upperName g) (upperName f)) eqn:Eg.
        -- apply String.eqb_eq in Eg. apply keepFirst_unseen in H.
           exfalso. apply H, in_or_app. right. rewrite Eg. now left.
        -- eapply IH, H.
  - apply IH.
Qed.

Lemma keepFirst_covers features : forall seen f,
  In (Some f) features ->
  In (upperName f) seen
  \/ exists g, In g (keepFirst seen features) /\ upperName g = upperName f.
Proof.
  induction features as [| [g |] rest IH]; intros seen f; simpl.
  - tauto.
  - intros [E | H].
    + injection E as ->.
      destruct (Js.mem (upperName f) seen) eqn:Em.
      * left. now apply mem_In.
      * right. exists f. split; [now left | reflexivity].
    + destruct (Js.mem (upperName g) seen) eqn:Em.
      * apply IH, H.
      * destruct (IH (seen ++ [upperName g]) f H) as [Hs | (h & Hh & Eh)].
        -- apply in_app_or in Hs as [Hs | [Hs | []]]; [now left |].
           right. exists g. split; [now left | exact Hs].
        -- right. exists h. split; [now right | exact Eh].
  - intros [E | H]; [discriminate | apply IH, H].
Qed.

(** C10: the result of [dedupeFeaturesByName] is the input with elements
    left out and the order kept; no two of its features share an
    upper-cased name; each of them is the first feature of the input with
    its upper-cased name; and every upper-cased name of the input is that
    of one of them. *)
Theorem dedupeFeaturesByName_first_occurrences
  (features : list (option Feature)) :
  Subsequence (map Some (dedupeFeaturesByName features)) features
  /\ NoDup (map upperName (dedupeFeaturesByName features))
  /\ (forall f, In f (dedupeFeaturesByName features) <->
                firstWithUpper (upperName f) features = Some f)
  /\ (forall f, In (Some f) features ->
        exists g, In g (dedupeFeaturesByName features)
                  /\ upperName g = upperName f).
Proof.
  rewrite dedupeFeaturesByName_keepFirst.
  split; [apply keepFirst_Subsequence |].
  split; [apply keepFirst_NoDup |].
  assert (Hcov : forall f, In (Some f) features ->
            exists g, In g (keepFirst [] features)
                      /\ upperName g = upperName f).
  { intros f H. destruct (keepFirst_covers features [] f H) as [[] | Hg].
    exact Hg. }
  split; [| exact Hcov].
  intros f. split; [apply keepFirst_first |].
  intros H.
  assert (Hin : In (Some f) features).
  { clear Hcov. induction features as [| [g |] rest IH]; simpl in *.
    - discriminate.
    - destruct (String.eqb (upperName g) (upperName f)).
      + left. exact H.
      + right. apply IH, H.
    - right. apply IH, H. }
  destruct (Hcov f Hin) as (g & Hg & Eg).
  apply keepFirst_first in Hg as Hfirst.
  rewrite Eg, H in Hfirst. injection Hfirst as ->. exact Hg.
Qed.

(* ================================================================= *)
(** * [updateSelection] *)

Section UpdateFacts.
Import JsMap.

(** In replace mode every feature is written, so a later feature of the
    same upper-cased name overwrites an earlier one in place. *)
Lemma addFeatures_replace features : forall m n,
  forallb centroidComputes (presentFeatures features) = true ->
  exists m' n',
    addFeatures true features m n = (m', Normal n')
    /\ keys m'
       = fold_left Js.Set_add (map upperName (presentFeatures features))
           (keys m)
    /\ forall k,
         get k m' = match lastWithUpper k features with
                    | Some f => Some (entryOf f)
                    | None => get k m
                    end.
Proof.
  induction features as [| [f |] rest IH]; intros m n Hc; simpl in *.
  - exists m, n. auto.
  - apply andb_true_iff in Hc as [Hf Hrest].
    rewrite getGridName_truthy, (centroidComputes_Normal f Hf). simpl.
    destruct (IH (set (Js.toUpperCase (getGridName f)) (entryOf f) m) (S n)
                Hrest) as (m' & n' & E & Hk & Hg).
    exists m', n'. split; [exact E |]. split.
    + rewrite Hk, keys_set. reflexivity.
    + intros k. rewrite Hg, get_set. fold (upperName f).
      destruct (lastWithUpper k rest); [reflexivity |].
      now destruct (String.eqb (upperName f) k).
  - destruct (IH m n Hc) as (m' & n' & E & Hk & Hg).
    exists m', n'. split; [exact E |]. split; [exact Hk |].
    intros k. rewrite Hg. destruct (lastWithUpper k rest); reflexivity.
Qed.

(** In add mode a name already selected is left alone: the store grows at
    its end by the names that are new. *)
Lemma addFeatures_add features : forall m n,
  forallb centroidComputes (presentFeatures features) = true ->
  exists extra n',
    addFeatures false features m n = (m ++ extra, Normal n')
    /\ (forall k, In k (keys extra) <->
                  ~ In k (keys m)
                  /\ In k (map upperName (presentFeatures features)))
    /\ Forall (fun kv => exists f, In (Some f) features
                                   /\ kv = (upperName f, entryOf f)) extra.
Proof.
  induction features as [| [f |] rest IH]; intros m n Hc; simpl in *.
  - exists [], n. rewrite app_nil_r. repeat split; simpl; tauto || auto.
  - apply andb_true_iff in Hc as [Hf Hrest].
    rewrite getGridName_truthy. simpl. fold (upperName f).
    destruct (has (upperName f) m) eqn:Eh.
    + destruct (IH m n Hrest) as (extra & n' & E & Hk & Hall).
      exists extra, n'. split; [exact E |]. split.
      * intros k. rewrite Hk. apply has_In in Eh.
        split; [tauto |]. intros [Hn [<- | H]]; [contradiction | tauto].
      * eapply Forall_impl; [| exact Hall].
        intros kv (g & Hg & ->). exists g. auto.
    + rewrite (centroidComputes_Normal f Hf).
      change {| feature := f; name := getGridName f;
                centroid := centroidOrNull f |} with (entryOf f).
      rewrite (set_absent _ _ _ Eh).
      destruct (IH (m ++ [(upperName f, entryOf f)]) (S n) Hrest)
        as (extra & n' & E & Hk & Hall).
      exists ((upperName f, entryOf f) :: extra), n'.
      split; [rewrite E, <- app_assoc; reflexivity |]. split.
      * intros k. simpl. rewrite Hk. unfold keys at 1. rewrite map_app.
        rewrite in_app_iff. simpl. fold (keys m).
        apply has_false in Eh.
        destruct (string_dec (upperName f) k) as [<- | N]; tauto.
      * constructor; [exists f; auto |].
        eapply Forall_impl; [| exact Hall].
        intros kv (g & Hg & ->). exists g. auto.
  - destruct (IH m n Hc) as (extra & n' & E & Hk & Hall).
    exists extra, n'. split; [exact E |]. split; [exact Hk |].
    eapply Forall_impl; [| exact Hall].
    intros kv (g & Hg & ->). exists g. auto.
Qed.

(** Features with pairwise different upper-cased names, none of them in
    the store, are appended one entry each, in order, whatever the mode. *)
Lemma addFeatures_fresh mode fs : forall m n,
  NoDup (map upperName fs) ->
  (forall f, In f fs -> ~ In (upperName f) (keys m)) ->
  forallb centroidComputes fs = true ->
  addFeatures mode (map Some fs) m n
  = (m ++ map (fun f => (upperName f, entryOf f)) fs,
     Normal (n + length fs)).
Proof.
  induction fs as [| f rest IH]; intros m n Hnd Hfresh Hc; simpl in *.
  - now rewrite app_nil_r, Nat.add_0_r.
  - apply andb_true_iff in Hc as [Hf Hrest].
    apply NoDup_cons_iff in Hnd as [Hnotin Hnd].
    rewrite getGridName_truthy. simpl. fold (upperName f).
    assert (Eh : has (upperName f) m = false)
      by (apply has_false, Hfresh; now left).
    rewrite Eh, andb_false_r, (centroidComputes_Normal f Hf).
    change {| feature := f; name := getGridName f;
              centroid := centroidOrNull f |} with (entryOf f).
    rewrite (set_absent _ _ _ Eh), IH; try assumption.
    + rewrite <- app_assoc. simpl. f_equal. f_equal. lia.
    + intros g Hg. unfold keys. rewrite map_app, in_app_iff. simpl.
      intros [H | [H | []]].
      * apply (Hfresh g); [now right | exact H].
      * apply Hnotin. rewrite H. now apply in_map.
Qed.

Lemma updateSelection_run features options st m1 n :
  features <> [] ->
  addFeatures (replace options) features
    (if replace options then clear else selectedGridMap st) 0
  = (m1, Normal n) ->
  updateSelection features options st = (withStore st m1, Normal tt).
Proof.
  intros Hne E. unfold updateSelection.
  destruct features; [congruence |]. now rewrite E.
Qed.

End UpdateFacts.

(** C1 (as amended): for every non-empty feature list whose centroid
    computations complete, [replaceAll] completes and leaves the store with
    exactly one entry per distinct upper-cased name occurring in the list,
    keyed in the order of first occurrence; the entry of a name holds the
    last feature of the list with that upper-cased name. *)
Theorem replaceAll_one_entry_per_name
  (features : list (option Feature)) (st : AppState) :
  features <> [] ->
  forallb centroidComputes (presentFeatures features) = true ->
  exists st',
    replaceAll features st = (st', Normal tt)
    /\ JsMap.keys (selectedGridMap st')
       = Js.newSet (map upperName (presentFeatures features))
    /\ NoDup (JsMap.keys (selectedGridMap st'))
    /\ (forall k, In k (JsMap.keys (selectedGridMap st')) <->
                  exists f, In (Some f) features /\ upperName f = k)
    /\ (forall k f, lastWithUpper k features = Some f ->
                    JsMap.get k (selectedGridMap st') = Some (entryOf f)).
Proof.
  intros Hne Hc.
  destruct (addFeatures_replace features JsMap.clear 0 Hc)
    as (m' & n' & E & Hk & Hg).
  exists (withStore st m').
  assert (Hrun : replaceAll features st = (withStore st m', Normal tt))
    by (eapply updateSelection_run; [exact Hne | exact E]).
  split; [exact Hrun |]. simpl.
  split; [exact Hk |].
  split; [rewrite Hk; apply newSet_NoDup |].
  split.
  - intros k. rewrite Hk, fold_Set_add_In, in_map_iff.
    unfold presentFeatures. split.
    + intros [[] | (f & <- & H)].
      apply in_flat_map in H as ([g |] & Hg' & Hin).
      * destruct Hin as [<- | []]. now exists g.
      * destruct Hin.
    + intros (f & H & <-). right. exists f. split; [reflexivity |].
      apply in_flat_map. exists (Some f). split; [exact H | now left].
  - intros k f H. now rewrite Hg, H.
Qed.

Lemma replaceAll_one_entry_per_name_witness :
  exists st',
    replaceAll
      [Some (mkFeature 1 (Some [("name", "01ccv")]) None);
       Some (mkFeature 2 (Some [("name", "01CCV")]) None)] initialState
    = (st', Normal tt)
    /\ JsMap.keys (selectedGridMap st')
       = Js.newSet
           (map upperName
              (presentFeatures
                 [Some (mkFeature 1 (Some [("name", "01ccv")]) None);
                  Some (mkFeature 2 (Some [("name", "01CCV")]) None)]))
    /\ NoDup (JsMap.keys (selectedGridMap st'))
    /\ (forall k, In k (JsMap.keys (selectedGridMap st')) <->
                  exists f,
                    In (Some f)
                      [Some (mkFeature 1 (Some [("name", "01ccv")]) None);
                       Some (mkFeature 2 (Some [("name", "01CCV")]) None)]
                    /\ upperName f = k)
    /\ (forall k f,
          lastWithUpper k
            [Some (mkFeature 1 (Some [("name", "01ccv")]) None);
             Some (mkFeature 2 (Some [("name", "01CCV")]) None)] = Some f ->
          JsMap.get k (selectedGridMap st') = Some (entryOf f)).
Proof.
  apply replaceAll_one_entry_per_name; [discriminate | reflexivity].
Defined.

(** C1 fails as stated: of two features named [01ccv] and [01CCV], in
    that order, the single entry left by [replaceAll] holds the second,
    not the first; and [replaceAll] of the empty list leaves a selected
    name in the store. *)
Lemma replaceAll_first_wins_counterexample :
  let first := mkFeature 1 (Some [("name", "01ccv")]) None in
  let second := mkFeature 2 (Some [("name", "01CCV")]) None in
  let st' := fst (replaceAll [Some first; Some second] initialState) in
  firstWithUpper "01CCV" [Some first; Some second] = Some first
  /\ map feature (getSelectedEntries st') = [second]
  /\ first <> second
  /\ JsMap.keys (selectedGridMap (fst (replaceAll [] st'))) = ["01CCV"].
Proof.
  split; [reflexivity |]. split; [reflexivity |].
  split; [discriminate | reflexivity].
Qed.

(** An empty list is not a replacement by nothing: the store is left as
    it is. *)
Lemma replaceAll_empty_list st : replaceAll [] st = (st, Normal tt).
Proof. reflexivity. Qed.

(* ================================================================= *)
(** * CSV export *)

Section CsvFacts.
Variable toFixed6 : float -> string.

Lemma csvRowsValues_rows keys entries :
  forallb rowComputes entries = true ->
  exists rows,
    csvRowsValues toFixed6 keys entries = Normal rows
    /\ length rows = length entries
    /\ map (hd "") rows = map rowName entries.
Proof.
  induction entries as [| e rest IH]; simpl; intros H.
  - exists []. auto.
  - apply andb_true_iff in H as [He Hrest].
    destruct (IH Hrest) as (rows & E & Hl & Hn).
    unfold csvRowValues. unfold rowComputes, centroidComputes in He.
    destruct (centroid e) as [c |].
    + rewrite E. eexists. split; [reflexivity |]. simpl.
      now rewrite Hl, Hn.
    + destruct (getPolygonCentroid (geometry (feature e))) as [c |];
        [| discriminate].
      rewrite E. eexists. split; [reflexivity |]. simpl.
      now rewrite Hl, Hn.
Qed.

End CsvFacts.

(** C2 (as amended): for every non-empty selection whose rows can be
    computed, the CSV export is a download holding the header line and
    exactly one data row per selected entry, and the rows follow the
    insertion order of the store: the first cell of the i-th row is the
    name of the i-th entry. *)
Theorem csv_rows_in_insertion_order (toFixed6 : float -> string)
  (st : AppState) :
  getSelectedEntries st <> [] ->
  forallb rowComputes (getSelectedEntries st) = true ->
  exists rows,
    downloadSelectionAsCSV toFixed6 st
    = Normal (Download "text/csv"
                (Js.join (String Js.newline EmptyString)
                   (csvLine (csvHeaders (getSelectedEntries st))
                      :: map csvLine rows)))
    /\ length rows = JsMap.size (selectedGridMap st)
    /\ map (hd "") rows = map rowName (getSelectedEntries st).
Proof.
  intros Hne Hc.
  destruct (csvRowsValues_rows toFixed6
              (orderedPropertyKeys (getSelectedEntries st))
              (getSelectedEntries st) Hc) as (rows & E & Hl & Hn).
  exists rows. split; [| split; [| exact Hn]].
  - unfold downloadSelectionAsCSV.
    destruct (getSelectedEntries st) eqn:Es; [congruence |].
    now rewrite E.
  - rewrite Hl. unfold getSelectedEntries, JsMap.values, JsMap.size.
    apply length_map.
Qed.

Lemma csv_rows_in_insertion_order_witness :
  exists rows,
    downloadSelectionAsCSV (fun _ => "0.000000")
      (fst (replaceAll
              [Some (mkFeature 1 (Some [("name", "02B")]) None);
               Some (mkFeature 2 (Some [("name", "01A")]) None)]
              initialState))
    = Normal (Download "text/csv"
                (Js.join (String Js.newline EmptyString)
                   (csvLine
                      (csvHeaders
                         (getSelectedEntries
                            (fst (replaceAll
                                    [Some (mkFeature 1
                                             (Some [("name", "02B")]) None);
                                     Some (mkFeature 2
                                             (Some [("name", "01A")]) None)]
                                    initialState))))
                      :: map csvLine rows)))
    /\ length rows = 2
    /\ map (hd "") rows = ["02B"; "01A"].
Proof.
  apply (csv_rows_in_insertion_order (fun _ => "0.000000")
           (fst (replaceAll
                   [Some (mkFeature 1 (Some [("name", "02B")]) None);
                    Some (mkFeature 2 (Some [("name", "01A")]) None)]
                   initialState)));
    [discriminate | reflexivity].
Defined.

(** C2 fails as stated: with [02B] selected before [01A], the data rows
    come out as [02B], [01A], while the order used for the share URL is
    [01A], [02B]. *)
Lemma csv_rows_sorted_counterexample :
  let st := fst (replaceAll
                   [Some (mkFeature 1 (Some [("name", "02B")]) None);
                    Some (mkFeature 2 (Some [("name", "01A")]) None)]
                   initialState) in
  downloadSelectionAsCSV (fun _ => "0.000000") st
  = Normal (Download "text/csv"
              (Js.join (String Js.newline EmptyString)
                 ["name,centroid_lat,centroid_lng"; "02B,,"; "01A,,"]))
  /\ upperSorted (map name (getSelectedEntries st)) = ["01A"; "02B"]
  /\ map rowName (getSelectedEntries st)
     <> upperSorted (map name (getSelectedEntries st)).
Proof.
  split; [reflexivity | split; [reflexivity | discriminate]].
Qed.

(* ================================================================= *)
(** * Click toggle *)

Section ToggleFacts.
Import JsMap.

Lemma stage_fold m candidates : forall namesToRemove featuresToAdd,
  fold_left (stageStep m) candidates (namesToRemove, featuresToAdd)
  = (namesToRemove
       ++ map upperName (filter (fun f => has (upperName f) m) candidates),
     featuresToAdd
       ++ map stagedOf
            (filter (fun f => negb (has (upperName f) m)) candidates)).
Proof.
  induction candidates as [| f rest IH]; intros R A; simpl.
  - now rewrite !app_nil_r.
  - rewrite getGridName_truthy. simpl. fold (upperName f).
    destruct (has (upperName f) m); simpl; rewrite IH, <- app_assoc;
      reflexivity.
Qed.

Lemma removeStep_keys m upper k :
  In k (keys (removeStep m upper)) <-> In k (keys m) /\ k <> upper.
Proof.
  unfold removeStep. destruct (has upper m) eqn:E.
  - apply keys_delete.
  - apply has_false in E. split; [| tauto].
    intros H. split; [exact H | congruence].
Qed.

Lemma remove_fold_keys namesToRemove : forall m k,
  In k (keys (fold_left removeStep namesToRemove m))
  <-> In k (keys m) /\ ~ In k namesToRemove.
Proof.
  induction namesToRemove as [| u rest IH]; intros m k; simpl.
  - tauto.
  - rewrite IH, removeStep_keys. intuition congruence.
Qed.

Lemma addStaged_keys featuresToAdd : forall m,
  forallb (fun e => centroidComputes (stagedFeature e)) featuresToAdd = true ->
  exists m',
    addStaged featuresToAdd m = (m', Normal tt)
    /\ forall k, In k (keys m') <->
                 In k (keys m) \/ In k (map stagedUpper featuresToAdd).
Proof.
  induction featuresToAdd as [| e rest IH]; intros m Hc; simpl in *.
  - exists m. split; [reflexivity | tauto].
  - apply andb_true_iff in Hc as [He Hrest].
    destruct (has (stagedUpper e) m) eqn:Eh.
    + destruct (IH m Hrest) as (m' & E & Hk).
      exists m'. split; [exact E |].
      intros k. rewrite Hk. apply has_In in Eh.
      split; [tauto |]. intros [H | [<- | H]]; tauto.
    + rewrite (centroidComputes_Normal _ He).
      destruct (IH (set (stagedUpper e)
                      {| feature := stagedFeature e; name := stagedName e;
                         centroid := centroidOrNull (stagedFeature e) |} m)
                  Hrest) as (m' & E & Hk).
      exists m'. split; [exact E |].
      intros k. rewrite Hk, keys_set, Set_add_In. intuition congruence.
Qed.

Lemma withStore_same st : withStore st (selectedGridMap st) = st.
Proof. now destruct st. Qed.

(** One click flips the membership of the names of its candidates and of
    no other name. *)
Lemma processGridClick_flips f latlng st :
  suppressNextGridClick st = false ->
  forallb centroidComputes
    (dedupeFeaturesByName (map Some (clickCandidates f latlng st))) = true ->
  exists m',
    processGridClick (Some f) latlng st = (withStore st m', Normal tt)
    /\ forall k,
         In k (keys m') <->
         (In k (keys (selectedGridMap st)) /\
          ~ In k (map upperName
                    (dedupeFeaturesByName
                       (map Some (clickCandidates f latlng st)))))
         \/ (~ In k (keys (selectedGridMap st)) /\
             In k (map upperName
                     (dedupeFeaturesByName
                        (map Some (clickCandidates f latlng st))))).
Proof.
  intros Hs Hc. unfold processGridClick. rewrite Hs.
  remember (dedupeFeaturesByName (map Some (clickCandidates f latlng st)))
    as U eqn:EU.
  set (m := selectedGridMap st).
  destruct U as [| u0 U'].
  { exists m. split; [now rewrite withStore_same | simpl; tauto]. }
  rewrite (stage_fold m (u0 :: U') [] []). rewrite !app_nil_l.
  set (R := map upperName (filter (fun f0 => has (upperName f0) m) (u0 :: U'))).
  set (A := map stagedOf
              (filter (fun f0 => negb (has (upperName f0) m)) (u0 :: U'))).
  assert (HR : forall k, In k R <->
                         In k (map upperName (u0 :: U')) /\ In k (keys m)).
  { intros k. unfold R. rewrite !in_map_iff. split.
    - intros (g & <- & H). apply filter_In in H as [H E].
      apply has_In in E. split; [now exists g | exact E].
    - intros [(g & <- & H) Hk]. exists g. split; [reflexivity |].
      apply filter_In. split; [exact H | now apply has_In]. }
  assert (HA : forall k, In k (map stagedUpper A) <->
                         In k (map upperName (u0 :: U')) /\ ~ In k (keys m)).
  { intros k. unfold A. rewrite map_map. simpl stagedUpper.
    rewrite !in_map_iff. split.
    - intros (g & <- & H). apply filter_In in H as [H E].
      apply negb_true_iff, has_false in E. split; [now exists g | exact E].
    - intros [(g & <- & H) Hk]. exists g. split; [reflexivity |].
      apply filter_In. split; [exact H |].
      now apply negb_true_iff, has_false. }
  assert (HcA : forallb (fun e => centroidComputes (stagedFeature e)) A = true).
  { unfold A. rewrite forallb_forall in *. intros e He.
    apply in_map_iff in He as (g & <- & Hg). simpl.
    apply filter_In in Hg as [Hg _]. now apply Hc. }
  destruct (addStaged_keys A (fold_left removeStep R m) HcA)
    as (m2 & E2 & Hk2).
  assert (Hflip : forall k,
            In k (keys m2) <->
            (In k (keys m) /\ ~ In k (map upperName (u0 :: U')))
            \/ (~ In k (keys m) /\ In k (map upperName (u0 :: U')))).
  { intros k. rewrite Hk2, remove_fold_keys, HR, HA. tauto. }
  destruct R as [| r0 R'] eqn:ER; destruct A as [| a0 A'] eqn:EA.
  - exists m. split; [now rewrite withStore_same |].
    intros k. rewrite <- Hflip.
    simpl in E2. injection E2 as <-. reflexivity.
  - exists m2. rewrite E2. split; [reflexivity | exact Hflip].
  - exists m2. rewrite E2. split; [reflexivity | exact Hflip].
  - exists m2. rewrite E2. split; [reflexivity | exact Hflip].
Qed.

(** A feature under the pointer has a centroid that can be computed: a
    multi-polygon without polygons holds no point. *)
Lemma feature_under_pointer_computes latlng f :
  isLatLngInFeature latlng f = true -> centroidComputes f = true.
Proof.
  unfold isLatLngInFeature, centroidComputes.
  destruct (geometry f) as [[cs | [| p ps] | t] |]; simpl;
    try discriminate; reflexivity.
Qed.

Lemma clickCandidates_compute f latlng st :
  centroidComputes f = true ->
  forallb centroidComputes
    (dedupeFeaturesByName (map Some (clickCandidates f latlng st))) = true.
Proof.
  intros Hf. apply forallb_forall. intros c Hc.
  rewrite dedupeFeaturesByName_keepFirst in Hc.
  apply keepFirst_In, in_map_iff in Hc as (c' & E & Hc).
  injection E as ->.
  assert (Hcand : forall d,
            In d (match latlng with
                  | Some ll =>
                      findGridCandidatesAtLatLng (Some ll) (polygonLayer st)
                  | None => []
                  end) ->
            centroidComputes d = true).
  { intros d Hd. destruct latlng as [ll |]; [| destruct Hd].
    unfold findGridCandidatesAtLatLng in Hd.
    destruct (polygonLayer st) as [layers |]; [| destruct Hd].
    apply filter_In in Hd as [_ Hd].
    destruct (geometry d) eqn:Eg; [| discriminate].
    now apply (feature_under_pointer_computes ll). }
  unfold clickCandidates in Hc.
  destruct (existsb _ _) in Hc; [now apply Hcand |].
  destruct Hc as [<- | Hc]; [exact Hf | now apply Hcand].
Qed.

(** The clicked feature is among the candidates when object identity
    tells the rendered features apart, and then its name is one of the
    names the click flips. *)
Lemma clicked_name_is_flipped f latlng st :
  (forall layers c, polygonLayer st = Some layers -> In c layers ->
                    oid c = oid f -> c = f) ->
  In (upperName f)
    (map upperName
       (dedupeFeaturesByName (map Some (clickCandidates f latlng st)))).
Proof.
  intros Hid.
  assert (Hin : In f (clickCandidates f latlng st)).
  { unfold clickCandidates.
    set (candidates := match latlng with
                       | Some ll =>
                           findGridCandidatesAtLatLng (Some ll)
                             (polygonLayer st)
                       | None => []
                       end).
    destruct (existsb (fun c => (oid c =? oid f)%nat) candidates) eqn:E;
      [| now left].
    apply existsb_exists in E as (c & Hc & Eo).
    apply Nat.eqb_eq in Eo.
    assert (Hl : exists layers, polygonLayer st = Some layers /\ In c layers).
    { unfold candidates, findGridCandidatesAtLatLng in Hc.
      destruct latlng as [ll |]; [| destruct Hc].
      destruct (polygonLayer st) as [layers |]; [| destruct Hc].
      apply filter_In in Hc as [Hc _]. now exists layers. }
    destruct Hl as (layers & El & Hcl).
    now rewrite <- (Hid layers c El Hcl Eo). }
  rewrite dedupeFeaturesByName_keepFirst.
  destruct (keepFirst_covers (map Some (clickCandidates f latlng st)) [] f)
    as [[] | (g & Hg & Eg)].
  - now apply in_map.
  - rewrite <- Eg. now apply in_map.
Qed.

End ToggleFacts.

(** C5: a click that is not suppressed, on a rendered feature whose
    object identity tells it apart from the other rendered features,
    toggles the name of that feature: an absent name is added, a present
    name is removed.  The names of the other features under the pointer
    are toggled with it and no other name changes.  The click completes,
    the same click once more completes too, and it leaves the store with
    the key set it had before the first click. *)
Theorem toggle_twice_restores_key_set
  (f : Feature) (latlng : option LatLng) (st : AppState) :
  suppressNextGridClick st = false ->
  centroidComputes f = true ->
  (forall layers c, polygonLayer st = Some layers -> In c layers ->
                    oid c = oid f -> c = f) ->
  exists st1 st2,
    processGridClick (Some f) latlng st = (st1, Normal tt)
    /\ processGridClick (Some f) latlng st1 = (st2, Normal tt)
    /\ (In (upperName f) (JsMap.keys (selectedGridMap st1)) <->
        ~ In (upperName f) (JsMap.keys (selectedGridMap st)))
    /\ (forall k,
          In k (map upperName
                  (dedupeFeaturesByName
                     (map Some (clickCandidates f latlng st)))) ->
          (In k (JsMap.keys (selectedGridMap st1)) <->
           ~ In k (JsMap.keys (selectedGridMap st))))
    /\ (forall k,
          ~ In k (map upperName
                    (dedupeFeaturesByName
                       (map Some (clickCandidates f latlng st)))) ->
          (In k (JsMap.keys (selectedGridMap st1)) <->
           In k (JsMap.keys (selectedGridMap st))))
    /\ (forall k,
          In k (JsMap.keys (selectedGridMap st2)) <->
          In k (JsMap.keys (selectedGridMap st))).
Proof.
  intros Hs Hf Hid.
  pose proof (clickCandidates_compute f latlng st Hf) as Hc.
  pose proof (clicked_name_is_flipped f latlng st Hid) as Hclicked.
  destruct (processGridClick_flips f latlng st Hs Hc) as (m1 & E1 & H1).
  assert (Hs1 : suppressNextGridClick (withStore st m1) = false) by exact Hs.
  assert (Hc1 : forallb centroidComputes
                  (dedupeFeaturesByName
                     (map Some (clickCandidates f latlng (withStore st m1))))
                = true) by exact Hc.
  destruct (processGridClick_flips f latlng (withStore st m1) Hs1 Hc1)
    as (m2 & E2 & H2).
  change (clickCandidates f latlng (withStore st m1))
    with (clickCandidates f latlng st) in H2.
  exists (withStore st m1), (withStore (withStore st m1) m2).
  split; [exact E1 |]. split; [exact E2 |]. simpl.
  split; [| split; [| split]].
  - rewrite H1. tauto.
  - intros k Hk. rewrite H1. tauto.
  - intros k Hk. rewrite H1. tauto.
  - intros k. rewrite H2. simpl. rewrite H1.
    destruct (in_dec string_dec k
                (map upperName
                   (dedupeFeaturesByName
                      (map Some (clickCandidates f latlng st)))));
      destruct (in_dec string_dec k (JsMap.keys (selectedGridMap st)));
      tauto.
Qed.

Lemma toggle_twice_restores_key_set_witness :
  exists st1 st2,
    processGridClick (Some tileA) (Some (mkLatLng 1.5 1.5)) draggingState
    = (st1, Normal tt)
    /\ processGridClick (Some tileA) (Some (mkLatLng 1.5 1.5)) st1
       = (st2, Normal tt)
    /\ (In (upperName tileA) (JsMap.keys (selectedGridMap st1)) <->
        ~ In (upperName tileA) (JsMap.keys (selectedGridMap draggingState)))
    /\ (forall k,
          In k (map upperName
                  (dedupeFeaturesByName
                     (map Some
                        (clickCandidates tileA (Some (mkLatLng 1.5 1.5))
                           draggingState)))) ->
          (In k (JsMap.keys (selectedGridMap st1)) <->
           ~ In k (JsMap.keys (selectedGridMap draggingState))))
    /\ (forall k,
          ~ In k (map upperName
                    (dedupeFeaturesByName
                       (map Some
                          (clickCandidates tileA (Some (mkLatLng 1.5 1.5))
                             draggingState)))) ->
          (In k (JsMap.keys (selectedGridMap st1)) <->
           In k (JsMap.keys (selectedGridMap draggingState))))
    /\ (forall k,
          In k (JsMap.keys (selectedGridMap st2)) <->
          In k (JsMap.keys (selectedGridMap draggingState))).
Proof.
  apply toggle_twice_restores_key_set; [reflexivity | reflexivity |].
  intros layers c E Hin Ho. injection E as <-.
  destruct Hin as [<- | [<- | [<- | []]]];
    [reflexivity | discriminate Ho | discriminate Ho].
Defined.
(* ================================================================= *)
(** * Invariants of the selection store *)

Section StoreInvariant.
Import JsMap.

(** A property of map entries that holds of every entry the engine
    writes. *)
Variable P : string * SelectionEntry -> Prop.
Hypothesis P_written :
  forall f, centroidComputes f = true -> P (upperName f, entryOf f).

Lemma Forall_set key value m : P (key, value) -> Forall P m -> Forall P (set key value m).
Proof.
  intros Hkv Hm. apply Forall_forall. intros kv H.
  apply In_set in H as [-> | H]; [exact Hkv |].
  rewrite Forall_forall in Hm. now apply Hm.
Qed.

Lemma Forall_delete key m : Forall P m -> Forall P (delete key m).
Proof.
  intros Hm. apply Forall_forall. intros kv H. apply In_delete in H.
  rewrite Forall_forall in Hm. now apply Hm.
Qed.

Lemma P_entry f c :
  getPolygonCentroid (geometry f) = Normal c ->
  P (Js.toUpperCase (getGridName f),
     {| feature := f; name := getGridName f; centroid := c |}).
Proof.
  intros E.
  assert (Hc : centroidComputes f = true)
    by (unfold centroidComputes; now rewrite E).
  pose proof (P_written f Hc) as H.
  unfold entryOf, centroidOrNull in H. now rewrite E in H.
Qed.

Lemma addFeatures_preserves mode features : forall m n,
  Forall P m -> Forall P (fst (addFeatures mode features m n)).
Proof.
  induction features as [| [f |] rest IH]; intros m n Hm; simpl.
  - exact Hm.
  - destruct (negb (Js.truthy (getGridName f))); [now apply IH |].
    destruct (negb mode && has (Js.toUpperCase (getGridName f)) m);
      [now apply IH |].
    destruct (getPolygonCentroid (geometry f)) as [c | e] eqn:E;
      [| exact Hm].
    apply IH, Forall_set; [now apply P_entry | exact Hm].
  - now apply IH.
Qed.

Lemma updateSelection_preserves features options st :
  Forall P (selectedGridMap st) ->
  Forall P (selectedGridMap (fst (updateSelection features options st))).
Proof.
  intros Hm. unfold updateSelection.
  destruct features as [| o rest]; [exact Hm |].
  set (m0 := if replace options then clear else selectedGridMap st).
  assert (H0 : Forall P m0) by (unfold m0; destruct (replace options);
                                [constructor | exact Hm]).
  pose proof (addFeatures_preserves (replace options) (o :: rest) m0 0 H0)
    as H.
  destruct (addFeatures (replace options) (o :: rest) m0 0) as [m1 [n | e]];
    exact H.
Qed.

Lemma remove_fold_preserves namesToRemove : forall m,
  Forall P m -> Forall P (fold_left removeStep namesToRemove m).
Proof.
  induction namesToRemove as [| u rest IH]; intros m Hm; simpl;
    [exact Hm |].
  apply IH. unfold removeStep.
  destruct (has u m); [now apply Forall_delete | exact Hm].
Qed.

Lemma addStaged_preserves candidates : forall m,
  Forall P m -> Forall P (fst (addStaged (map stagedOf candidates) m)).
Proof.
  induction candidates as [| f rest IH]; intros m Hm; simpl;
    [exact Hm |].
  destruct (has (upperName f) m); [now apply IH |].
  destruct (getPolygonCentroid (geometry f)) as [c | e] eqn:E;
    [| exact Hm].
  apply IH, Forall_set; [now apply P_entry | exact Hm].
Qed.

Lemma processGridClick_preserves feature latlng st :
  Forall P (selectedGridMap st) ->
  Forall P (selectedGridMap (fst (processGridClick feature latlng st))).
Proof.
  intros Hm. unfold processGridClick.
  destruct feature as [f |]; [| exact Hm].
  destruct (suppressNextGridClick st); [exact Hm |].
  destruct (dedupeFeaturesByName (map Some (clickCandidates f latlng st)))
    as [| u0 U']; [exact Hm |].
  rewrite (stage_fold (selectedGridMap st) (u0 :: U') [] []).
  rewrite !app_nil_l.
  set (R := map upperName _). set (A := filter _ (u0 :: U')).
  pose proof (addStaged_preserves A _
                (remove_fold_preserves R _ Hm)) as H.
  destruct (addStaged (map stagedOf A)
              (fold_left removeStep R (selectedGridMap st))) as [m2 r].
  destruct R; destruct (map stagedOf A); try exact H. exact Hm.
Qed.

Context {LB : LeafletBounds}.

Lemma completeRectangleSelection_preserves finalLatLng st :
  Forall P (selectedGridMap st) ->
  Forall P (selectedGridMap (fst (completeRectangleSelection finalLatLng st))).
Proof.
  intros Hm. unfold completeRectangleSelection.
  set (st0 := if hasMoved (rectangleSelectState st)
              then scheduleSuppressNextGridClick (resetRectangleSelection st)
              else resetRectangleSelection st).
  assert (H0 : Forall P (selectedGridMap st0))
    by (unfold st0; destruct (hasMoved (rectangleSelectState st)); exact Hm).
  destruct (hasMoved (rectangleSelectState st)); [| exact H0].
  destruct (startLatLng (rectangleSelectState st)); [| exact H0].
  destruct finalLatLng; [| exact H0].
  destruct (findFeaturesInBounds _ _) as [[| g sel] | e]; try exact H0.
  destruct (negb _ && _); [exact H0 |].
  now apply updateSelection_preserves.
Qed.

Lemma dispatch_preserves ev st :
  Forall P (selectedGridMap st) ->
  Forall P (selectedGridMap (dispatch ev st)).
Proof.
  intros Hm. destruct ev; simpl; try exact Hm.
  - now apply processGridClick_preserves.
  - now apply updateSelection_preserves.
  - unfold removeGridFromSelection.
    destruct (negb (Js.truthy gridName)); [exact Hm |].
    destruct (negb (has _ _)); [exact Hm |].
    now apply Forall_delete.
  - unfold clearSelection.
    destruct (size (selectedGridMap st) =? 0)%nat; [exact Hm | constructor].
  - unfold onRectangleMouseDown.
    destruct (negb shiftKey); [exact Hm |].
    destruct (gridData st); exact Hm.
  - unfold onRectangleMouseMove.
    destruct (negb (active (rectangleSelectState st))); exact Hm.
  - unfold onRectangleMouseLeave.
    destruct (negb (active (rectangleSelectState st))); exact Hm.
  - unfold onRectangleMouseUp.
    destruct (negb (active (rectangleSelectState st))); [exact Hm |].
    now apply completeRectangleSelection_preserves.
Qed.

Lemma Reachable_invariant st : Reachable st -> Forall P (selectedGridMap st).
Proof.
  induction 1 as [| ev st _ IH].
  - constructor.
  - now apply dispatch_preserves.
Qed.

End StoreInvariant.

(** C9: the empty store has only upper-case keys, every event handler
    (click toggle, [updateSelection] in either mode, removal by name,
    clearing, rectangle commit), completed or thrown out of, keeps the
    keys upper-case, and so every state reached from the initial one has
    a store whose keys all equal their own upper-casing. *)
Theorem store_keys_stay_uppercase {LB : LeafletBounds} :
  keysUppercase (selectedGridMap initialState)
  /\ (forall ev st,
        keysUppercase (selectedGridMap st) ->
        keysUppercase (selectedGridMap (dispatch ev st)))
  /\ (forall st, Reachable st -> keysUppercase (selectedGridMap st)).
Proof.
  set (P := fun kv : string * SelectionEntry =>
              Js.toUpperCase (fst kv) = fst kv).
  assert (HP : forall f, centroidComputes f = true ->
                         P (upperName f, entryOf f))
    by (intros f _; apply upperName_upper).
  assert (Hkeys : forall m, keysUppercase m <-> Forall P m).
  { intros m. unfold keysUppercase, JsMap.keys. now rewrite Forall_map. }
  split; [constructor |]. split.
  - intros ev st H. apply Hkeys, (dispatch_preserves P HP), Hkeys, H.
  - intros st H. apply Hkeys, (Reachable_invariant P HP), H.
Qed.

(** Every entry of a reachable store is keyed by the upper-casing of its
    name and caches the centroid of its feature, whose computation did
    not throw. *)
Lemma Reachable_entries_cached {LB : LeafletBounds} st :
  Reachable st ->
  Forall (fun kv => centroidComputes (feature (snd kv)) = true
                    /\ kv = (upperName (feature (snd kv)),
                             entryOf (feature (snd kv))))
    (selectedGridMap st).
Proof.
  apply Reachable_invariant. intros f H. simpl. auto.
Qed.

(** The rows of a reachable selection can always be written, and their
    first cell is the name stored in the entry. *)
Lemma Reachable_rows_compute {LB : LeafletBounds} st :
  Reachable st ->
  forallb rowComputes (getSelectedEntries st) = true
  /\ map rowName (getSelectedEntries st) = map name (getSelectedEntries st).
Proof.
  intros H. apply Reachable_entries_cached in H.
  unfold getSelectedEntries, JsMap.values.
  induction H as [| [k e] m [Hc He] _ IH]; simpl; [auto |].
  destruct IH as [IH1 IH2]. simpl in *.
  injection He as _ He. split.
  - rewrite IH1, andb_true_r. unfold rowComputes.
    destruct (centroid e); [reflexivity | exact Hc].
  - rewrite IH2. f_equal. unfold rowName.
    rewrite He. simpl. now rewrite getGridName_truthy.
Qed.

(* ================================================================= *)
(** * Rectangle selection *)

Section RectangleFacts.
Context {LB : LeafletBounds}.
Import JsMap.

Lemma presentFeatures_map_Some fs : presentFeatures (map Some fs) = fs.
Proof.
  induction fs as [| f rest IH]; simpl; [reflexivity | now rewrite IH].
Qed.

(** A feature reported as intersecting has a centroid that can be
    computed: a multi-polygon without polygons makes the test throw. *)
Lemma intersecting_feature_computes f bounds :
  doesFeatureIntersectBounds f bounds = Normal true ->
  centroidComputes f = true.
Proof.
  unfold doesFeatureIntersectBounds, centroidComputes.
  destruct (geometry f) as [g |]; [| discriminate].
  destruct (outerRingIntersects g bounds) eqn:E.
  - intros _. destruct g as [cs | [| p ps] | t]; simpl in *;
      try reflexivity; discriminate.
  - destruct (getPolygonCentroid (Some g)) as [[c |] | e];
      [reflexivity | discriminate | discriminate].
Qed.

Lemma collectMatches_compute features bounds : forall acc matches,
  collectMatches features bounds acc = Normal matches ->
  forallb centroidComputes acc = true ->
  forallb centroidComputes matches = true.
Proof.
  induction features as [| f rest IH]; intros acc matches; simpl.
  - intros E. now injection E as <-.
  - destruct (geometry f) eqn:Eg; [| apply IH].
    destruct (doesFeatureIntersectBounds f bounds) as [[|] | e] eqn:Ed;
      [| apply IH | discriminate].
    intros E Hacc. apply (IH _ _ E).
    rewrite forallb_app, Hacc. simpl.
    now rewrite (intersecting_feature_computes f bounds Ed).
Qed.

(** What a successful search hands over: features with pairwise different
    upper-cased names whose centroids can be computed. *)
Lemma findFeaturesInBounds_matched data bounds matched :
  findFeaturesInBounds data bounds = Normal matched ->
  NoDup (map upperName matched)
  /\ forallb centroidComputes matched = true.
Proof.
  unfold findFeaturesInBounds.
  destruct data as [features |], bounds as [b |];
    try (intros E; injection E as <-; split; [constructor | reflexivity]).
  destruct (collectMatches features b []) as [matches | e] eqn:Ec;
    [| discriminate].
  intros E. injection E as <-.
  rewrite dedupeFeaturesByName_keepFirst.
  split; [apply keepFirst_NoDup |].
  apply collectMatches_compute in Ec; [| reflexivity].
  rewrite forallb_forall in *. intros f Hf.
  apply keepFirst_In, in_map_iff in Hf as (g & Eg & Hg).
  injection Eg as ->. now apply Ec.
Qed.

Lemma countNew_step m fs : forall count,
  fold_left
    (fun count f =>
       let name := getGridName f in
       if negb (Js.truthy name) then count
       else
         let upper := Js.toUpperCase name in
         count + (if false || negb (has upper m) then 1 else 0))
    fs count = 0 ->
  count = 0 /\ forall f, In f fs -> has (upperName f) m = true.
Proof.
  induction fs as [| f rest IH]; intros count; simpl.
  - intros ->. split; [reflexivity | tauto].
  - rewrite getGridName_truthy. simpl. fold (upperName f).
    intros H. apply IH in H as [H Hrest].
    destruct (has (upperName f) m) eqn:E; simpl in H.
    + split; [lia |]. intros g [<- | Hg]; [exact E | now apply Hrest].
    + lia.
Qed.

Lemma countNew_zero m fs :
  countNew false m fs = 0 ->
  forall f, In f fs -> In (upperName f) (keys m).
Proof.
  intros H f Hf. apply has_In.
  exact (proj2 (countNew_step m fs 0 H) f Hf).
Qed.

End RectangleFacts.

(** C4: a rectangle drag that has moved and matches a non-empty feature
    set completes; on an empty store the resulting selection is exactly
    the matched features, one entry each, in order; in every case the
    old store is kept as it is and only grows at its end, so no selected
    name is removed, and the resulting key set is the old one united with
    the matched names. *)
Theorem rectangle_drag_replaces_or_adds {LB : LeafletBounds}
  (startLL finalLL : LatLng) (st : AppState) (matched : list Feature) :
  hasMoved (rectangleSelectState st) = true ->
  startLatLng (rectangleSelectState st) = Some startLL ->
  findFeaturesInBounds (gridData st) (Some (latLngBounds startLL finalLL))
  = Normal matched ->
  matched <> [] ->
  exists st',
    completeRectangleSelection (Some finalLL) st = (st', Normal tt)
    /\ (selectedGridMap st = [] ->
        selectedGridMap st' = map (fun f => (upperName f, entryOf f)) matched)
    /\ (exists extra, selectedGridMap st' = selectedGridMap st ++ extra)
    /\ (forall k,
          In k (JsMap.keys (selectedGridMap st')) <->
          In k (JsMap.keys (selectedGridMap st))
          \/ In k (map upperName matched)).
Proof.
  intros Hmoved Hstart Hfind Hne.
  destruct (findFeaturesInBounds_matched _ _ _ Hfind) as [Hnd Hc].
  unfold completeRectangleSelection. rewrite Hmoved, Hstart.
  set (st0 := scheduleSuppressNextGridClick (resetRectangleSelection st)).
  change (gridData st0) with (gridData st). rewrite Hfind.
  change (selectedGridMap st0) with (selectedGridMap st).
  assert (Hsome : map Some matched <> [])
    by (destruct matched; [congruence | discriminate]).
  destruct (selectedGridMap st) as [| kv m] eqn:Em.
  - (* nothing selected: the drag replaces *)
    simpl JsMap.size. simpl Nat.eqb. simpl negb. simpl andb.
    assert (Hfresh : forall f, In f matched ->
                               ~ In (upperName f) (JsMap.keys JsMap.clear))
      by (intros f _ []).
    pose proof (addFeatures_fresh true matched JsMap.clear 0 Hnd Hfresh Hc)
      as E.
    destruct matched as [| f0 rest]; [congruence |].
    rewrite (updateSelection_run (map Some (f0 :: rest))
               {| replace := true; centerMap := false; flash := true;
                  focusShareLink := false |} st0 _ _ Hsome E).
    eexists. split; [reflexivity |]. simpl selectedGridMap.
    split; [reflexivity |]. split; [eexists; reflexivity |].
    intros k. unfold JsMap.keys. simpl map at 1 3. rewrite map_map.
    simpl. tauto.
  - (* something selected: the drag adds *)
    change (JsMap.size (kv :: m) =? 0)%nat with false.
    simpl negb. rewrite andb_true_l.
    destruct (countNew false (kv :: m) matched =? 0)%nat eqn:Ecount.
    + apply Nat.eqb_eq in Ecount.
      destruct matched as [| f0 rest]; [congruence |].
      exists st0. split; [reflexivity |].
      change (selectedGridMap st0) with (selectedGridMap st). rewrite Em.
      split; [discriminate |]. split; [exists []; now rewrite app_nil_r |].
      intros k. split; [tauto |].
      intros [H | H]; [exact H |].
      apply in_map_iff in H as (f & <- & Hf).
      now apply (countNew_zero _ _ Ecount).
    + assert (Hc' : forallb centroidComputes
                      (presentFeatures (map Some matched)) = true)
        by now rewrite presentFeatures_map_Some.
      destruct (addFeatures_add (map Some matched) (kv :: m) 0 Hc')
        as (extra & n' & E & Hk & _).
      assert (Erun : updateSelection (map Some matched)
                       {| replace := false; centerMap := false;
                          flash := true; focusShareLink := false |} st0
                     = (withStore st0 ((kv :: m) ++ extra), Normal tt)).
      { eapply updateSelection_run; [exact Hsome |].
        simpl replace. cbv iota.
        change (selectedGridMap st0) with (selectedGridMap st).
        rewrite Em. exact E. }
      assert (Hkeys : forall k,
                In k (JsMap.keys ((kv :: m) ++ extra)) <->
                In k (JsMap.keys (kv :: m)) \/ In k (map upperName matched)).
      { intros k. unfold JsMap.keys at 1. rewrite map_app, in_app_iff.
        fold (JsMap.keys (kv :: m)). fold (JsMap.keys extra).
        rewrite Hk, presentFeatures_map_Some.
        destruct (in_dec string_dec k (JsMap.keys (kv :: m))); tauto. }
      destruct matched as [| f0 rest]; [congruence |].
      rewrite Erun.
      exists (withStore st0 ((kv :: m) ++ extra)).
      split; [reflexivity |].
      split; [discriminate |]. split; [now exists extra | exact Hkeys].
Qed.

(* ================================================================= *)
(** * World wrap and visibility *)

(* ================================================================= *)
(** * Order of the binary64 numbers *)

Section FloatOrder.

Ltac sf_cases :=
  repeat match goal with
         | |- context [Z.compare ?a ?b] =>
             let H := fresh in destruct (Z.compare_spec a b) as [H | H | H]
         | |- context [Pos.compare ?a ?b] =>
             let H := fresh in destruct (Pos.compare_spec a b) as [H | H | H]
         end.

Lemma SFleb_trans x y z :
  SFleb x y = true -> SFleb y z = true -> SFleb x z = true.
Proof.
  unfold SFleb, SFcompare.
  change (Pos.compare_cont Eq) with Pos.compare.
  destruct x as [sx | sx | | sx mx ex], y as [sy | sy | | sy my ey],
    z as [sz | sz | | sz mz ez];
    try destruct sx; try destruct sy; try destruct sz;
    try reflexivity; try discriminate;
    sf_cases; subst; simpl; try reflexivity; try discriminate; try lia.
Qed.

Lemma SFltb_SFleb x y : SFltb x y = true -> SFleb x y = true.
Proof. unfold SFltb, SFleb. now destruct (SFcompare x y) as [[| |] |]. Qed.

Lemma SFleb_total x y :
  SFeqb x x = true -> SFeqb y y = true -> SFltb x y = false ->
  SFleb y x = true.
Proof.
  unfold SFeqb, SFltb, SFleb, SFcompare.
  change (Pos.compare_cont Eq) with Pos.compare.
  destruct x as [sx | sx | | sx mx ex], y as [sy | sy | | sy my ey];
    try destruct sx; try destruct sy;
    try reflexivity; try discriminate;
    sf_cases; subst; simpl; try reflexivity; try discriminate; try lia.
Qed.

Lemma SFleb_numeric x y :
  SFleb x y = true -> SFeqb x x = true /\ SFeqb y y = true.
Proof.
  unfold SFeqb, SFleb, SFcompare.
  change (Pos.compare_cont Eq) with Pos.compare.
  destruct x as [sx | sx | | sx mx ex], y as [sy | sy | | sy my ey];
    try destruct sx; try destruct sy;
    try discriminate; rewrite ?Z.compare_refl, ?Pos.compare_refl;
    simpl; intros; split; reflexivity.
Qed.

Lemma SFltb_SFleb_false x y : SFltb x y = true -> SFleb y x = false.
Proof.
  unfold SFltb, SFleb, SFcompare.
  change (Pos.compare_cont Eq) with Pos.compare.
  destruct x as [sx | sx | | sx mx ex], y as [sy | sy | | sy my ey];
    try destruct sx; try destruct sy;
    try reflexivity; try discriminate;
    sf_cases; subst; simpl; try reflexivity; try discriminate; try lia.
Qed.

(** [is_nan] read on the specification side. *)
Lemma is_nan_spec x :
  is_nan x = false <-> SFeqb (Prim2SF x) (Prim2SF x) = true.
Proof.
  unfold is_nan. rewrite FloatAxioms.eqb_spec.
  destruct (SFeqb _ _); simpl; split; congruence.
Qed.

Lemma leb_trans x y z :
  (x <=? y)%float = true -> (y <=? z)%float = true ->
  (x <=? z)%float = true.
Proof. rewrite !FloatAxioms.leb_spec. apply SFleb_trans. Qed.

Lemma ltb_leb x y : (x <? y)%float = true -> (x <=? y)%float = true.
Proof.
  rewrite FloatAxioms.ltb_spec, FloatAxioms.leb_spec. apply SFltb_SFleb.
Qed.

Lemma ltb_leb_false x y :
  (x <? y)%float = true -> (y <=? x)%float = false.
Proof.
  rewrite FloatAxioms.ltb_spec, FloatAxioms.leb_spec.
  apply SFltb_SFleb_false.
Qed.

Lemma leb_total x y :
  is_nan x = false -> is_nan y = false -> (x <? y)%float = false ->
  (y <=? x)%float = true.
Proof.
  rewrite !is_nan_spec, FloatAxioms.ltb_spec, FloatAxioms.leb_spec.
  apply SFleb_total.
Qed.

(** A comparison that holds has two numbers as operands. *)
Lemma leb_numeric x y :
  (x <=? y)%float = true -> is_nan x = false /\ is_nan y = false.
Proof.
  rewrite !is_nan_spec, FloatAxioms.leb_spec. apply SFleb_numeric.
Qed.

Lemma neg_infinity_leb x :
  is_nan x = false -> (neg_infinity <=? x)%float = true.
Proof.
  rewrite is_nan_spec, FloatAxioms.leb_spec. intros H.
  change (Prim2SF neg_infinity) with (S754_infinity true).
  destruct (Prim2SF x) as [s | s | | s m e]; try destruct s;
    try discriminate; reflexivity.
Qed.

Lemma leb_infinity x :
  is_nan x = false -> (x <=? infinity)%float = true.
Proof.
  rewrite is_nan_spec, FloatAxioms.leb_spec. intros H.
  change (Prim2SF infinity) with (S754_infinity false).
  destruct (Prim2SF x) as [s | s | | s m e]; try destruct s;
    try discriminate; reflexivity.
Qed.

(** Comparing with the larger of two numbers, and with the smaller. *)
Lemma leb_of_equal w a b :
  (a <=? b)%float = true -> (b <=? a)%float = true ->
  (w <=? a)%float = (w <=? b)%float.
Proof.
  intros Hab Hba.
  destruct (w <=? a)%float eqn:Ea, (w <=? b)%float eqn:Eb;
    try reflexivity.
  - now rewrite (leb_trans _ _ _ Ea Hab) in Eb.
  - now rewrite (leb_trans _ _ _ Eb Hba) in Ea.
Qed.

Lemma geb_of_equal w a b :
  (a <=? b)%float = true -> (b <=? a)%float = true ->
  (a <=? w)%float = (b <=? w)%float.
Proof.
  intros Hab Hba.
  destruct (a <=? w)%float eqn:Ea, (b <=? w)%float eqn:Eb;
    try reflexivity.
  - now rewrite (leb_trans _ _ _ Hba Ea) in Eb.
  - now rewrite (leb_trans _ _ _ Hab Eb) in Ea.
Qed.

Lemma leb_Math_max w a b :
  is_nan a = false -> is_nan b = false ->
  (w <=? Num.Math_max a b)%float = (w <=? a)%float || (w <=? b)%float.
Proof.
  intros Ha Hb. unfold Num.Math_max. rewrite Ha, Hb. simpl.
  assert (Hup : forall lo hi, (lo <=? hi)%float = true ->
                  (w <=? hi)%float
                  = (w <=? lo)%float || (w <=? hi)%float).
  { intros lo hi H. destruct (w <=? lo)%float eqn:E; [| reflexivity].
    simpl. exact (leb_trans _ _ _ E H). }
  destruct (a <? b)%float eqn:E1.
  { apply Hup. now apply ltb_leb. }
  destruct (b <? a)%float eqn:E2.
  { rewrite orb_comm. apply Hup. now apply ltb_leb. }
  pose proof (leb_total a b Ha Hb E1) as Hba.
  pose proof (leb_total b a Hb Ha E2) as Hab.
  rewrite (leb_of_equal w a b Hab Hba), orb_diag.
  destruct (classify a); try reflexivity.
  apply (leb_of_equal w a b Hab Hba).
Qed.

Lemma Math_min_leb w a b :
  is_nan a = false -> is_nan b = false ->
  (Num.Math_min a b <=? w)%float = (a <=? w)%float || (b <=? w)%float.
Proof.
  intros Ha Hb. unfold Num.Math_min. rewrite Ha, Hb. simpl.
  assert (Hdown : forall lo hi, (lo <=? hi)%float = true ->
                    (lo <=? w)%float
                    = (lo <=? w)%float || (hi <=? w)%float).
  { intros lo hi H. destruct (lo <=? w)%float eqn:E; [reflexivity |].
    simpl. destruct (hi <=? w)%float eqn:E'; [| reflexivity].
    now rewrite (leb_trans _ _ _ H E') in E. }
  destruct (a <? b)%float eqn:E1.
  { apply Hdown. now apply ltb_leb. }
  destruct (b <? a)%float eqn:E2.
  { rewrite orb_comm. apply Hdown. now apply ltb_leb. }
  pose proof (leb_total a b Ha Hb E1) as Hba.
  pose proof (leb_total b a Hb Ha E2) as Hab.
  rewrite (geb_of_equal w a b Hab Hba), orb_diag.
  destruct (classify a); try reflexivity.
  apply (geb_of_equal w a b Hab Hba).
Qed.

(** [Math.max] and [Math.min] give a number exactly on two numbers. *)
Lemma is_nan_Math_max a b :
  is_nan (Num.Math_max a b) = is_nan a || is_nan b.
Proof.
  unfold Num.Math_max.
  destruct (is_nan a) eqn:Ha, (is_nan b) eqn:Hb; try reflexivity.
  simpl. destruct (a <? b)%float; [exact Hb |].
  destruct (b <? a)%float; [exact Ha |].
  destruct (classify a); assumption.
Qed.

Lemma is_nan_Math_min a b :
  is_nan (Num.Math_min a b) = is_nan a || is_nan b.
Proof.
  unfold Num.Math_min.
  destruct (is_nan a) eqn:Ha, (is_nan b) eqn:Hb; try reflexivity.
  simpl. destruct (a <? b)%float; [exact Ha |].
  destruct (b <? a)%float; [exact Hb |].
  destruct (classify a); assumption.
Qed.

End FloatOrder.

Section VisibilityFacts.
Context {LB : LeafletBounds}.

Lemma visible_fold g boxes : forall isVisible,
  fold_left (visibleStep g) boxes isVisible
  = isVisible || existsb (visibleStep g false) boxes.
Proof.
  induction boxes as [| box rest IH]; intros isVisible; simpl.
  - now rewrite orb_false_r.
  - rewrite IH. destruct isVisible; simpl; [reflexivity |].
    unfold visibleStep at 1. reflexivity.
Qed.

Lemma isFeatureVisible_spec boxes f :
  isFeatureVisible boxes f = true <->
  exists box, In box boxes /\ featureBoxIntersects f box = true.
Proof.
  unfold isFeatureVisible, featureBoxIntersects.
  destruct (geometry f) as [g |].
  - rewrite visible_fold. simpl. rewrite existsb_exists.
    split; intros (box & Hin & H); exists box; (split; [exact Hin |]);
      destruct g; simpl in *; exact H.
  - split; [discriminate |]. now intros (box & _ & H).
Qed.

Lemma getVisibleGrids_spec features bounds f :
  In f (getVisibleGrids features bounds) <->
  In f features
  /\ exists box, In box (getWrappedBounds bounds)
                 /\ featureBoxIntersects f box = true.
Proof.
  unfold getVisibleGrids. now rewrite filter_In, isFeatureVisible_spec.
Qed.

(** A visible feature, hence every rendered and clickable one, has a
    centroid that can be computed. *)
Lemma visible_feature_computes features bounds f :
  In f (getVisibleGrids features bounds) -> centroidComputes f = true.
Proof.
  intros H. apply getVisibleGrids_spec in H as [_ (box & _ & H)].
  unfold featureBoxIntersects in H. unfold centroidComputes.
  destruct (geometry f) as [[cs | [| p ps] | t] |]; simpl in *;
    try discriminate; reflexivity.
Qed.

Lemma getWrappedBounds_crossing bounds :
  Num.gt (getWest bounds) (getEast bounds) = true ->
  getWrappedBounds bounds
  = [bounds;
     latLngBounds (mkLatLng (getSouth bounds) (getWest bounds))
                  (mkLatLng (getNorth bounds) 180%float);
     latLngBounds (mkLatLng (getSouth bounds) (-180)%float)
                  (mkLatLng (getNorth bounds) (getEast bounds));
     latLngBounds
       (mkLatLng (getSouth bounds) (getWest bounds + -360)%float)
       (mkLatLng (getNorth bounds) (getEast bounds + -360)%float);
     latLngBounds
       (mkLatLng (getSouth bounds) (getWest bounds + 360)%float)
       (mkLatLng (getNorth bounds) (getEast bounds + 360)%float)].
Proof.
  intros H. unfold getWrappedBounds. rewrite H. reflexivity.
Qed.

(** Without a crossing only the two world copies are added. *)
Lemma getWrappedBounds_plain bounds :
  Num.gt (getWest bounds) (getEast bounds) = false ->
  getWrappedBounds bounds
  = [bounds;
     latLngBounds
       (mkLatLng (getSouth bounds) (getWest bounds + -360)%float)
       (mkLatLng (getNorth bounds) (getEast bounds + -360)%float);
     latLngBounds
       (mkLatLng (getSouth bounds) (getWest bounds + 360)%float)
       (mkLatLng (getNorth bounds) (getEast bounds + 360)%float)].
Proof.
  intros H. unfold getWrappedBounds. rewrite H. reflexivity.
Qed.

End VisibilityFacts.


(* ================================================================= *)
(** * The bounding box of a ring *)

Section ExtentFacts.

Lemma ringExtent_fold ring : forall e,
  fold_left extendExtent ring e
  = {| minLat := fold_left Num.Math_min (map latOf ring) (minLat e);
       maxLat := fold_left Num.Math_max (map latOf ring) (maxLat e);
       minLng := fold_left Num.Math_min (map lngOf ring) (minLng e);
       maxLng := fold_left Num.Math_max (map lngOf ring) (maxLng e) |}.
Proof.
  induction ring as [| p rest IH]; intros e; simpl.
  - now destruct e.
  - now rewrite IH.
Qed.

Lemma leb_fold_max w xs : forall acc,
  is_nan acc = false ->
  forallb (fun x => negb (is_nan x)) xs = true ->
  (w <=? fold_left Num.Math_max xs acc)%float
  = (w <=? acc)%float || existsb (fun x => (w <=? x)%float) xs.
Proof.
  induction xs as [| x rest IH]; intros acc Ha Hxs; simpl in *.
  - now rewrite orb_false_r.
  - apply andb_true_iff in Hxs as [Hx Hrest].
    apply negb_true_iff in Hx.
    rewrite IH, leb_Math_max, orb_assoc; auto.
    now rewrite is_nan_Math_max, Ha, Hx.
Qed.

Lemma fold_min_leb w xs : forall acc,
  is_nan acc = false ->
  forallb (fun x => negb (is_nan x)) xs = true ->
  (fold_left Num.Math_min xs acc <=? w)%float
  = (acc <=? w)%float || existsb (fun x => (x <=? w)%float) xs.
Proof.
  induction xs as [| x rest IH]; intros acc Ha Hxs; simpl in *.
  - now rewrite orb_false_r.
  - apply andb_true_iff in Hxs as [Hx Hrest].
    apply negb_true_iff in Hx.
    rewrite IH, Math_min_leb, orb_assoc; auto.
    now rewrite is_nan_Math_min, Ha, Hx.
Qed.

(** Starting from minus infinity, the maximum of a non-empty list of
    numbers is at or above a bound exactly when an element is. *)
Lemma leb_max_of_numbers w x xs :
  forallb (fun x => negb (is_nan x)) (x :: xs) = true ->
  (w <=? fold_left Num.Math_max (x :: xs) neg_infinity)%float
  = existsb (fun x => (w <=? x)%float) (x :: xs).
Proof.
  intros H. rewrite leb_fold_max; [| reflexivity | exact H].
  destruct (w <=? neg_infinity)%float eqn:E; [| reflexivity].
  simpl in *. apply andb_true_iff in H as [Hx _].
  apply negb_true_iff in Hx.
  now rewrite (leb_trans _ _ _ E (neg_infinity_leb x Hx)).
Qed.

Lemma min_of_numbers_leb w x xs :
  forallb (fun x => negb (is_nan x)) (x :: xs) = true ->
  (fold_left Num.Math_min (x :: xs) infinity <=? w)%float
  = existsb (fun x => (x <=? w)%float) (x :: xs).
Proof.
  intros H. rewrite fold_min_leb; [| reflexivity | exact H].
  destruct (infinity <=? w)%float eqn:E; [| reflexivity].
  simpl in *. apply andb_true_iff in H as [Hx _].
  apply negb_true_iff in Hx.
  now rewrite (leb_trans _ _ _ (leb_infinity x Hx) E).
Qed.

(** One element that is not a number makes the maximum and the minimum
    [NaN]. *)
Lemma is_nan_fold_max xs : forall acc,
  is_nan (fold_left Num.Math_max xs acc) = is_nan acc || existsb is_nan xs.
Proof.
  induction xs as [| x rest IH]; intros acc; simpl.
  - now rewrite orb_false_r.
  - now rewrite IH, is_nan_Math_max, orb_assoc.
Qed.

Lemma is_nan_fold_min xs : forall acc,
  is_nan (fold_left Num.Math_min xs acc) = is_nan acc || existsb is_nan xs.
Proof.
  induction xs as [| x rest IH]; intros acc; simpl.
  - now rewrite orb_false_r.
  - now rewrite IH, is_nan_Math_min, orb_assoc.
Qed.

Lemma numericRing_lng ring :
  numericRing ring = true ->
  forallb (fun x => negb (is_nan x)) (map lngOf ring) = true.
Proof.
  unfold numericRing. rewrite !forallb_forall. intros H x Hx.
  apply in_map_iff in Hx as (p & <- & Hp).
  now destruct (proj1 (andb_true_iff _ _) (H p Hp)).
Qed.

Lemma numericRing_lat ring :
  numericRing ring = true ->
  forallb (fun x => negb (is_nan x)) (map latOf ring) = true.
Proof.
  unfold numericRing. rewrite !forallb_forall. intros H x Hx.
  apply in_map_iff in Hx as (p & <- & Hp).
  now destruct (proj1 (andb_true_iff _ _) (H p Hp)).
Qed.

Lemma existsb_map {A B} (g : A -> B) (h : B -> bool) l :
  existsb h (map g l) = existsb (fun a => h (g a)) l.
Proof. induction l as [| a l IH]; simpl; [| rewrite IH]; reflexivity. Qed.

End ExtentFacts.

Section IntersectionFacts.
Context {LB : LeafletBounds}.

(** On a ring of numbers the bounding-box test of the source says that
    the ring reaches each side of the box. *)
Lemma isPolygonIntersectingBounds_numeric ring box :
  numericRing ring = true ->
  isPolygonIntersectingBounds (Some ring) box = ringMeetsBox ring box.
Proof.
  intros Hn. destruct ring as [| p rest]; [reflexivity |].
  unfold isPolygonIntersectingBounds, ringMeetsBox, ringExtent, Num.ge,
    reachesEast, reachesWest, reachesNorth, reachesSouth.
  rewrite ringExtent_fold.
  cbv beta iota delta [minLat maxLat minLng maxLng].
  pose proof (numericRing_lng _ Hn) as Hlng.
  pose proof (numericRing_lat _ Hn) as Hlat.
  change (map lngOf (p :: rest)) with (lngOf p :: map lngOf rest) in *.
  change (map latOf (p :: rest)) with (latOf p :: map latOf rest) in *.
  rewrite !(leb_max_of_numbers _ _ _ Hlng), !(min_of_numbers_leb _ _ _ Hlng),
    !(leb_max_of_numbers _ _ _ Hlat), !(min_of_numbers_leb _ _ _ Hlat).
  change (lngOf p :: map lngOf rest) with (map lngOf (p :: rest)).
  change (latOf p :: map latOf rest) with (map latOf (p :: rest)).
  rewrite !existsb_map. apply andb_comm.
Qed.

(** A ring with a coordinate that is not a number meets no box. *)
Lemma isPolygonIntersectingBounds_nan ring box :
  existsb (fun p => is_nan (lngOf p) || is_nan (latOf p)) ring = true ->
  isPolygonIntersectingBounds (Some ring) box = false.
Proof.
  intros Hn. destruct ring as [| p rest]; [reflexivity |].
  unfold isPolygonIntersectingBounds, ringExtent, Num.ge.
  rewrite ringExtent_fold.
  cbv beta iota delta [minLat maxLat minLng maxLng].
  assert (Hcase : existsb is_nan (map lngOf (p :: rest)) = true
                  \/ existsb is_nan (map latOf (p :: rest)) = true).
  { rewrite !existsb_map. apply existsb_exists in Hn as (q & Hq & E).
    apply orb_true_iff in E as [E | E]; [left | right];
      apply existsb_exists; now exists q. }
  assert (Hleb : forall x y, is_nan y = true -> (x <=? y)%float = false).
  { intros x y Hy. destruct (x <=? y)%float eqn:E; [| reflexivity].
    apply leb_numeric in E as [_ E]. congruence. }
  assert (Hgeb : forall x y, is_nan y = true -> (y <=? x)%float = false).
  { intros x y Hy. destruct (y <=? x)%float eqn:E; [| reflexivity].
    apply leb_numeric in E as [E _]. congruence. }
  destruct Hcase as [H | H].
  - rewrite (Hleb (getWest box)), (Hgeb (getEast box)).
    + simpl. rewrite ?andb_false_r. reflexivity.
    + now rewrite is_nan_fold_min, H, orb_true_r.
    + now rewrite is_nan_fold_max, H, orb_true_r.
  - rewrite (Hleb (getSouth box)).
    + simpl. rewrite ?andb_false_r. reflexivity.
    + now rewrite is_nan_fold_max, H, orb_true_r.
Qed.

Lemma firstRing_spec polygon ring :
  In ring (firstRing polygon) <-> nth_error polygon 0 = Some ring.
Proof.
  unfold firstRing. destruct (nth_error polygon 0) as [r |]; simpl.
  - split; [intros [-> | []]; reflexivity | intros [= ->]; now left].
  - split; [intros [] | discriminate].
Qed.

(** The box test of a feature is the box test of one of its outer rings. *)
Lemma featureBoxIntersects_rings f box :
  featureBoxIntersects f box = true <->
  exists ring, In ring (outerRings f)
               /\ isPolygonIntersectingBounds (Some ring) box = true.
Proof.
  unfold featureBoxIntersects, outerRings.
  destruct (geometry f) as [[cs | ps | t] |].
  - split.
    + intros H. destruct (nth_error cs 0) as [r |] eqn:E; [| discriminate].
      exists r. split; [| exact H]. apply firstRing_spec. exact E.
    + intros (r & Hr & H). apply firstRing_spec in Hr. now rewrite Hr.
  - rewrite existsb_exists. split.
    + intros (poly & Hp & H).
      destruct (nth_error poly 0) as [r |] eqn:E; [| discriminate].
      exists r. split; [| exact H]. apply in_flat_map. exists poly.
      split; [exact Hp |]. apply firstRing_spec. exact E.
    + intros (r & Hr & H). apply in_flat_map in Hr as (poly & Hp & Hr).
      exists poly. split; [exact Hp |]. apply firstRing_spec in Hr.
      now rewrite Hr.
  - split; [discriminate | now intros (r & [] & _)].
  - split; [discriminate | now intros (r & [] & _)].
Qed.

(** The visible features are the features with an outer ring of numbers
    that meets a box of the list, when all outer rings hold numbers. *)
Lemma getVisibleGrids_rings features bounds f :
  forallb numericRing (outerRings f) = true ->
  In f (getVisibleGrids features bounds) <->
  In f features
  /\ exists ring box,
       In ring (outerRings f) /\ In box (getWrappedBounds bounds)
       /\ ringMeetsBox ring box = true.
Proof.
  intros Hn. rewrite getVisibleGrids_spec.
  split; intros [Hf H]; (split; [exact Hf |]).
  - destruct H as (box & Hbox & H).
    apply featureBoxIntersects_rings in H as (ring & Hr & H).
    exists ring, box. repeat split; try assumption.
    rewrite <- isPolygonIntersectingBounds_numeric; [exact H |].
    exact (proj1 (forallb_forall _ _) Hn ring Hr).
  - destruct H as (ring & box & Hr & Hbox & H).
    exists box. split; [exact Hbox |].
    apply featureBoxIntersects_rings. exists ring. split; [exact Hr |].
    rewrite isPolygonIntersectingBounds_numeric; [exact H |].
    exact (proj1 (forallb_forall _ _) Hn ring Hr).
Qed.

(** One outer ring of numbers that meets a box of the list is enough. *)
Lemma ring_meeting_box_is_visible features bounds f ring box :
  In f features -> In ring (outerRings f) -> numericRing ring = true ->
  In box (getWrappedBounds bounds) -> ringMeetsBox ring box = true ->
  In f (getVisibleGrids features bounds).
Proof.
  intros Hf Hr Hn Hbox H. apply getVisibleGrids_spec.
  split; [exact Hf |]. exists box. split; [exact Hbox |].
  apply featureBoxIntersects_rings. exists ring. split; [exact Hr |].
  now rewrite isPolygonIntersectingBounds_numeric.
Qed.

Lemma viewport_in_wrapped bounds : In bounds (getWrappedBounds bounds).
Proof.
  destruct (Num.gt (getWest bounds) (getEast bounds)) eqn:E.
  - rewrite (getWrappedBounds_crossing _ E). now left.
  - rewrite (getWrappedBounds_plain _ E). now left.
Qed.

End IntersectionFacts.

(** C6: for a viewport with [west > east] the wrapped-bounds list is the
    viewport, the split boxes [[south,west]-[north,180]] and
    [[south,-180]-[north,east]], and the copies shifted by -360 and +360
    degrees.  A feature of the data set whose outer rings hold numbers
    is reported visible exactly when the bounding box of the vertices of
    one of its outer rings meets a box of that list.  In particular,
    when the west side of the viewport is not beyond longitude 180, a
    feature with an outer ring that straddles longitude 180 and reaches
    into the latitudes of the viewport is reported visible. *)
Theorem antimeridian_viewport_wraps {LB : LeafletBounds}
  (bounds : LatLngBounds) (features : list Feature) :
  Num.gt (getWest bounds) (getEast bounds) = true ->
  getWrappedBounds bounds
  = [bounds;
     latLngBounds (mkLatLng (getSouth bounds) (getWest bounds))
                  (mkLatLng (getNorth bounds) 180%float);
     latLngBounds (mkLatLng (getSouth bounds) (-180)%float)
                  (mkLatLng (getNorth bounds) (getEast bounds));
     latLngBounds
       (mkLatLng (getSouth bounds) (getWest bounds + -360)%float)
       (mkLatLng (getNorth bounds) (getEast bounds + -360)%float);
     latLngBounds
       (mkLatLng (getSouth bounds) (getWest bounds + 360)%float)
       (mkLatLng (getNorth bounds) (getEast bounds + 360)%float)]
  /\ (forall f,
        forallb numericRing (outerRings f) = true ->
        (In f (getVisibleGrids features bounds) <->
         In f features
         /\ exists ring box,
              In ring (outerRings f)
              /\ In box (getWrappedBounds bounds)
              /\ ringMeetsBox ring box = true))
  /\ (forall f ring,
        In f features -> In ring (outerRings f) ->
        numericRing ring = true ->
        straddles180 ring = true ->
        (getWest bounds <=? 180)%float = true ->
        reachesNorth ring (getSouth bounds) = true ->
        reachesSouth ring (getNorth bounds) = true ->
        In f (getVisibleGrids features bounds)).
Proof.
  intros H. split; [now apply getWrappedBounds_crossing |]. split.
  - intros f Hn. now apply getVisibleGrids_rings.
  - intros f ring Hf Hr Hn Hs Hw HN HS.
    apply (ring_meeting_box_is_visible features bounds f ring bounds);
      try assumption; [apply viewport_in_wrapped |].
    unfold ringMeetsBox. rewrite HN, HS, H. simpl.
    assert (He : reachesEast ring (getWest bounds) = true).
    { apply andb_true_iff in Hs as [_ Hs]. unfold reachesEast in *.
      apply existsb_exists in Hs as (p & Hp & E).
      apply existsb_exists. exists p. split; [exact Hp |].
      exact (leb_trans _ _ _ Hw E). }
    rewrite He. simpl. apply orb_true_r.
Qed.

Lemma antimeridian_viewport_wraps_witness :
  getWrappedBounds antimeridianViewport
  = [mkBox (-10) 170 10 (-170);
     mkBox (-10) 170 10 180;
     mkBox (-10) (-180) 10 (-170);
     mkBox (-10) (-530) 10 (-190);
     mkBox (-10) 190 10 530]
  /\ In straddlingTile
       (getVisibleGrids [tileA; straddlingTile] antimeridianViewport)
  /\ ~ In tileA
        (getVisibleGrids [tileA; straddlingTile] antimeridianViewport).
Proof.
  pose proof (antimeridian_viewport_wraps (LB := CornerBox)
                antimeridianViewport [tileA; straddlingTile] eq_refl)
    as (Hlist & Hmeets & Hvisible).
  split; [exact Hlist |]. split.
  - apply (Hvisible straddlingTile (squareRing 179 (-1) 181 1));
      try reflexivity.
    + right; left; reflexivity.
    + left; reflexivity.
  - intros Hin.
    apply (proj1 (Hmeets tileA eq_refl)) in Hin
      as [_ (ring & box & Hring & Hbox & Hm)].
    destruct Hring as [<- | []].
    rewrite Hlist in Hbox.
    destruct Hbox as [<- | [<- | [<- | [<- | [<- | []]]]]];
      discriminate Hm.
Defined.

(* ================================================================= *)
(** * Point in polygon *)

Lemma outsideHoles_spec point holes :
  outsideHoles point holes = true <->
  forall hole, In hole holes -> isPointInLinearRing point hole = false.
Proof.
  induction holes as [| h rest IH]; simpl.
  - split; [intros _ hole [] | reflexivity].
  - destruct (isPointInLinearRing point h) eqn:E.
    + split; [discriminate |]. intros H.
      specialize (H h (or_introl eq_refl)). congruence.
    + rewrite IH. split.
      * intros H hole [<- | Hin]; [exact E | now apply H].
      * intros H hole Hin. apply H. now right.
Qed.

(** C7: the point-in-polygon test answers [true] only if the point is
    inside ring 0 and inside none of the later rings, and it answers
    [false] whenever the point is inside a later ring, be it inside the
    outer ring or not. *)
Theorem point_in_polygon_respects_holes (point : Position)
  (polygon : list Ring) :
  (isPointInPolygon point polygon = true ->
   exists outerRing holes,
     polygon = outerRing :: holes
     /\ isPointInLinearRing point outerRing = true
     /\ forall hole, In hole holes ->
                     isPointInLinearRing point hole = false)
  /\ (forall outerRing holes hole,
        polygon = outerRing :: holes ->
        In hole holes ->
        isPointInLinearRing point hole = true ->
        isPointInPolygon point polygon = false).
Proof.
  split.
  - destruct polygon as [| outerRing holes]; simpl; [discriminate |].
    destruct (isPointInLinearRing point outerRing) eqn:E; simpl;
      [| discriminate].
    intros H. exists outerRing, holes.
    split; [reflexivity |]. split; [exact E |].
    now apply outsideHoles_spec.
  - intros outerRing holes hole -> Hin Hhole. simpl.
    destruct (isPointInLinearRing point outerRing); simpl; [| reflexivity].
    destruct (outsideHoles point holes) eqn:E; [| reflexivity].
    rewrite outsideHoles_spec in E. rewrite (E hole Hin) in Hhole.
    discriminate.
Qed.

(* ================================================================= *)
(** * Centroid *)

Lemma filter_no_usable_pairs ring :
  noUsablePairs ring = true ->
  filter (fun coord => (2 <=? length coord)%nat) ring = [].
Proof.
  induction ring as [| coord rest IH]; [reflexivity |].
  intros H. apply andb_true_iff in H as [Hc Hrest].
  apply Nat.ltb_lt in Hc.
  change (filter (fun c => (2 <=? length c)%nat) (coord :: rest))
    with (if (2 <=? length coord)%nat
          then coord :: filter (fun c => (2 <=? length c)%nat) rest
          else filter (fun c => (2 <=? length c)%nat) rest).
  destruct (2 <=? length coord)%nat eqn:E.
  - apply Nat.leb_le in E. lia.
  - now apply IH.
Qed.

(** What holds of the claim: no geometry, another geometry type, and an
    absent or empty outer ring give [null]. *)
Lemma getPolygonCentroid_null_cases :
  getPolygonCentroid None = Normal None
  /\ (forall t, getPolygonCentroid (Some (OtherGeometry t)) = Normal None)
  /\ getPolygonCentroid (Some (Polygon [])) = Normal None
  /\ (forall holes,
        getPolygonCentroid (Some (Polygon ([] :: holes))) = Normal None)
  /\ (forall rest,
        getPolygonCentroid (Some (MultiPolygon ([] :: rest))) = Normal None)
  /\ (forall holes rest,
        getPolygonCentroid (Some (MultiPolygon (([] :: holes) :: rest)))
        = Normal None).
Proof. repeat split. Qed.

(** A multi-polygon without polygons makes the computation throw. *)
Lemma getPolygonCentroid_empty_multipolygon :
  isNormal (getPolygonCentroid (Some (MultiPolygon []))) = false.
Proof. reflexivity. Qed.

(** C8 fails on the code: when the outer ring is not empty but none of its
    positions has two numbers, the sums are divided by a count of zero and
    the result is a centroid object whose [lat] and [lng] are [NaN], not
    [null]. *)
Theorem getPolygonCentroid_unusable_ring (g : Geometry) (ring : Ring) :
  outerRingOf g = Some ring ->
  ring <> [] ->
  noUsablePairs ring = true ->
  exists c,
    getPolygonCentroid (Some g) = Normal (Some c)
    /\ is_nan (lat c) = true
    /\ is_nan (lng c) = true.
Proof.
  intros Hring Hne Hnone.
  assert (Havg : centroidOfCoords (Some ring)
                 = Some {| lat := (0 / 0)%float; lng := (0 / 0)%float |}).
  { destruct ring as [| coord rest]; [congruence |].
    unfold centroidOfCoords, ringAverage.
    now rewrite (filter_no_usable_pairs _ Hnone). }
  exists {| lat := (0 / 0)%float; lng := (0 / 0)%float |}.
  split; [| split; reflexivity].
  destruct g as [cs | [| polygon rest] | t];
    unfold outerRingOf in Hring; unfold getPolygonCentroid;
    try discriminate; now rewrite Hring, Havg.
Qed.

Lemma getPolygonCentroid_unusable_ring_witness :
  exists c,
    getPolygonCentroid (Some degeneratePolygon) = Normal (Some c)
    /\ is_nan (lat c) = true
    /\ is_nan (lng c) = true.
Proof.
  apply (getPolygonCentroid_unusable_ring degeneratePolygon [[]]);
    [reflexivity | discriminate | reflexivity].
Defined.

(* ================================================================= *)
(** * Worked examples *)

Section Examples.
Local Open Scope float_scope.

(** Of the sample tiles only the one across the antimeridian is visible
    in the antimeridian viewport. *)
Example only_the_straddling_tile_is_visible :
  getVisibleGrids [tileA; tileB; straddlingTile; tileC] antimeridianViewport
  = [straddlingTile].
Proof. reflexivity. Qed.

(** Corners given north-east first build the same box. *)
Example corners_in_any_order :
  latLngBounds (mkLatLng 10 180) (mkLatLng (-10) 170)
  = latLngBounds (mkLatLng (-10) 170) (mkLatLng 10 180).
Proof. reflexivity. Qed.

(** A viewport reported with ordered sides, from 170 to 190 degrees,
    shows the straddling tile as well, and through its copy shifted by
    -360 degrees a tile stored with negative longitudes. *)
Example ordered_viewport_past_180 :
  getVisibleGrids
    [tileA; straddlingTile;
     tile 3 "01CDH" (Polygon [squareRing (-179) (-1) (-178) 1])]
    (mkBox (-10) 170 10 190)
  = [straddlingTile;
     tile 3 "01CDH" (Polygon [squareRing (-179) (-1) (-178) 1])].
Proof. reflexivity. Qed.

(** A tile stored with longitudes 179 and -179 is visible as well. *)
Example split_tile_is_visible :
  getVisibleGrids
    [tile 2 "60CWS" (Polygon [[[179; -1]; [-179; -1]; [-179; 1]; [179; 1];
                               [179; -1]]])]
    antimeridianViewport
  <> [].
Proof. discriminate. Qed.

(** A point in the square, in its hole, and outside of it. *)
Example point_in_square_with_hole :
  let polygon := [squareRing 0 0 4 4; squareRing 1 1 2 2] in
  isPointInPolygon [3; 3] polygon = true
  /\ isPointInPolygon [1.5; 1.5] polygon = false
  /\ isPointInLinearRing [1.5; 1.5] (squareRing 0 0 4 4) = true
  /\ isPointInPolygon [5; 3] polygon = false.
Proof. repeat split. Qed.

(** The vertex average of a closed square counts the repeated corner
    twice. *)
Example centroid_of_square :
  getPolygonCentroid (Some (Polygon [squareRing 0 0 5 5]))
  = Normal (Some {| lat := 2; lng := 2 |}).
Proof. reflexivity. Qed.

(** Dragging over tiles A and B with nothing selected selects A and B;
    dragging over them with C selected gives C, A and B. *)
Example drag_on_empty_selection :
  JsMap.keys
    (selectedGridMap
       (fst (completeRectangleSelection (Some (mkLatLng 10 10))
               (withStore draggingState JsMap.clear))))
  = ["31UDQ"; "31UEQ"].
Proof. reflexivity. Qed.

Example drag_on_existing_selection :
  JsMap.keys
    (selectedGridMap
       (fst (completeRectangleSelection (Some (mkLatLng 10 10))
               draggingState)))
  = ["32TLS"; "31UDQ"; "31UEQ"].
Proof. reflexivity. Qed.

(** A click on tile A adds its name and the same click again removes
    it; a click on the selected tile C removes its name. *)
Example click_adds_then_removes :
  let once :=
    fst (processGridClick (Some tileA) (Some (mkLatLng 1.5 1.5))
           draggingState) in
  JsMap.keys (selectedGridMap once) = ["32TLS"; "31UDQ"]
  /\ JsMap.keys
       (selectedGridMap
          (fst (processGridClick (Some tileA) (Some (mkLatLng 1.5 1.5))
                  once)))
     = ["32TLS"]
  /\ JsMap.keys
       (selectedGridMap
          (fst (processGridClick (Some tileC) (Some (mkLatLng 1.5 20.5))
                  draggingState)))
     = [].
Proof. repeat split. Qed.

End Examples.

Lemma rectangle_drag_replaces_or_adds_witness :
  exists st',
    completeRectangleSelection (Some (mkLatLng 10 10)) draggingState
    = (st', Normal tt)
    /\ (selectedGridMap draggingState = [] ->
        selectedGridMap st'
        = map (fun f => (upperName f, entryOf f)) [tileA; tileB])
    /\ (exists extra,
          selectedGridMap st' = selectedGridMap draggingState ++ extra)
    /\ (forall k,
          In k (JsMap.keys (selectedGridMap st')) <->
          In k (JsMap.keys (selectedGridMap draggingState))
          \/ In k (map upperName [tileA; tileB])).
Proof.
  apply (rectangle_drag_replaces_or_adds (LB := CornerBox)
           (mkLatLng 0 0) (mkLatLng 10 10) draggingState [tileA; tileB]);
    [reflexivity | reflexivity | reflexivity | discriminate].
Defined.

(* ================================================================= *)
(** * Further invariants of the selection store *)

Section StoreClosure.
Import JsMap.

(** A property of stores kept by clearing, by deleting a key and by
    writing the entry of a feature whose centroid can be computed. *)
Variable I : SelectionStore -> Prop.
Hypothesis I_clear : I clear.
Hypothesis I_delete : forall key m, I m -> I (delete key m).
Hypothesis I_set :
  forall f m, centroidComputes f = true -> I m ->
              I (set (upperName f) (entryOf f) m).

Lemma I_entry f c m :
  getPolygonCentroid (geometry f) = Normal c -> I m ->
  I (set (Js.toUpperCase (getGridName f))
       {| feature := f; name := getGridName f; centroid := c |} m).
Proof.
  intros E Hm.
  assert (Hc : centroidComputes f = true)
    by (unfold centroidComputes; now rewrite E).
  pose proof (I_set f m Hc Hm) as H.
  unfold entryOf, centroidOrNull in H. now rewrite E in H.
Qed.

Lemma addFeatures_keeps mode features : forall m n,
  I m -> I (fst (addFeatures mode features m n)).
Proof.
  induction features as [| [f |] rest IH]; intros m n Hm; simpl.
  - exact Hm.
  - destruct (negb (Js.truthy (getGridName f))); [now apply IH |].
    destruct (negb mode && has (Js.toUpperCase (getGridName f)) m);
      [now apply IH |].
    destruct (getPolygonCentroid (geometry f)) as [c | e] eqn:E;
      [| exact Hm].
    apply IH, I_entry; assumption.
  - now apply IH.
Qed.

Lemma updateSelection_keeps features options st :
  I (selectedGridMap st) ->
  I (selectedGridMap (fst (updateSelection features options st))).
Proof.
  intros Hm. unfold updateSelection.
  destruct features as [| o rest]; [exact Hm |].
  set (m0 := if replace options then clear else selectedGridMap st).
  assert (H0 : I m0)
    by (unfold m0; destruct (replace options); [exact I_clear | exact Hm]).
  pose proof (addFeatures_keeps (replace options) (o :: rest) m0 0 H0) as H.
  destruct (addFeatures (replace options) (o :: rest) m0 0) as [m1 [n | e]];
    exact H.
Qed.

Lemma remove_fold_keeps namesToRemove : forall m,
  I m -> I (fold_left removeStep namesToRemove m).
Proof.
  induction namesToRemove as [| u rest IH]; intros m Hm; simpl;
    [exact Hm |].
  apply IH. unfold removeStep.
  destruct (has u m); [now apply I_delete | exact Hm].
Qed.

Lemma addStaged_keeps candidates : forall m,
  I m -> I (fst (addStaged (map stagedOf candidates) m)).
Proof.
  induction candidates as [| f rest IH]; intros m Hm; simpl;
    [exact Hm |].
  destruct (has (upperName f) m); [now apply IH |].
  destruct (getPolygonCentroid (geometry f)) as [c | e] eqn:E;
    [| exact Hm].
  apply IH, I_entry; assumption.
Qed.

Lemma processGridClick_keeps feature latlng st :
  I (selectedGridMap st) ->
  I (selectedGridMap (fst (processGridClick feature latlng st))).
Proof.
  intros Hm. unfold processGridClick.
  destruct feature as [f |]; [| exact Hm].
  destruct (suppressNextGridClick st); [exact Hm |].
  destruct (dedupeFeaturesByName (map Some (clickCandidates f latlng st)))
    as [| u0 U']; [exact Hm |].
  rewrite (stage_fold (selectedGridMap st) (u0 :: U') [] []).
  rewrite !app_nil_l.
  set (R := map upperName _). set (A := filter _ (u0 :: U')).
  pose proof (addStaged_keeps A _ (remove_fold_keeps R _ Hm)) as H.
  destruct (addStaged (map stagedOf A)
              (fold_left removeStep R (selectedGridMap st))) as [m2 r].
  destruct R; destruct (map stagedOf A); try exact H. exact Hm.
Qed.

Context {LB : LeafletBounds}.

Lemma completeRectangleSelection_keeps finalLatLng st :
  I (selectedGridMap st) ->
  I (selectedGridMap (fst (completeRectangleSelection finalLatLng st))).
Proof.
  intros Hm. unfold completeRectangleSelection.
  set (st0 := if hasMoved (rectangleSelectState st)
              then scheduleSuppressNextGridClick (resetRectangleSelection st)
              else resetRectangleSelection st).
  assert (H0 : I (selectedGridMap st0))
    by (unfold st0; destruct (hasMoved (rectangleSelectState st)); exact Hm).
  destruct (hasMoved (rectangleSelectState st)); [| exact H0].
  destruct (startLatLng (rectangleSelectState st)); [| exact H0].
  destruct finalLatLng; [| exact H0].
  destruct (findFeaturesInBounds _ _) as [[| g sel] | e]; try exact H0.
  destruct (negb _ && _); [exact H0 |].
  now apply updateSelection_keeps.
Qed.

Lemma dispatch_keeps ev st :
  I (selectedGridMap st) -> I (selectedGridMap (dispatch ev st)).
Proof.
  intros Hm. destruct ev; simpl; try exact Hm.
  - now apply processGridClick_keeps.
  - now apply updateSelection_keeps.
  - unfold removeGridFromSelection.
    destruct (negb (Js.truthy gridName)); [exact Hm |].
    destruct (negb (has _ _)); [exact Hm |].
    now apply I_delete.
  - unfold clearSelection.
    destruct (size (selectedGridMap st) =? 0)%nat; [exact Hm | exact I_clear].
  - unfold onRectangleMouseDown.
    destruct (negb shiftKey); [exact Hm |].
    destruct (gridData st); exact Hm.
  - unfold onRectangleMouseMove.
    destruct (negb (active (rectangleSelectState st))); exact Hm.
  - unfold onRectangleMouseLeave.
    destruct (negb (active (rectangleSelectState st))); exact Hm.
  - unfold onRectangleMouseUp.
    destruct (negb (active (rectangleSelectState st))); [exact Hm |].
    now apply completeRectangleSelection_keeps.
Qed.

Lemma Reachable_keeps st : Reachable st -> I (selectedGridMap st).
Proof.
  induction 1 as [| ev st _ IH].
  - exact I_clear.
  - now apply dispatch_keeps.
Qed.

End StoreClosure.

Lemma keys_filter_NoDup (p : string * SelectionEntry -> bool) m :
  NoDup (JsMap.keys m) -> NoDup (JsMap.keys (filter p m)).
Proof.
  unfold JsMap.keys. induction m as [| kv r IH]; simpl; intros H.
  - constructor.
  - apply NoDup_cons_iff in H as [Hn Hr].
    destruct (p kv); simpl; [| now apply IH].
    constructor; [| now apply IH].
    intros Hin. apply Hn. apply in_map_iff in Hin as (kv' & E & Hin).
    apply filter_In in Hin as [Hin _]. rewrite <- E. now apply in_map.
Qed.

Lemma Reachable_keys_NoDup {LB : LeafletBounds} st :
  Reachable st -> NoDup (JsMap.keys (selectedGridMap st)).
Proof.
  apply (Reachable_keeps (fun m => NoDup (JsMap.keys m))).
  - constructor.
  - intros key m H. now apply keys_filter_NoDup.
  - intros f m _ H. rewrite keys_set. now apply Set_add_NoDup.
Qed.

Lemma wellFormed_keys m :
  Forall entryWellFormed m ->
  JsMap.keys m = map Js.toUpperCase (map name (JsMap.values m)).
Proof.
  unfold JsMap.keys, JsMap.values.
  induction 1 as [| [k e] r [_ E] _ IH]; simpl; [reflexivity |].
  rewrite IH. f_equal. simpl in E. injection E as -> ->. reflexivity.
Qed.

(** X1: in every state reached from the initial one, the keys of the
    store are pairwise different, and every entry is stored under the
    upper-cased name of its feature and holds that feature, its grid name
    and the centroid [getPolygonCentroid] gives for it, which is thus
    computed once, when the feature is selected, without an exception. *)
Theorem reachable_store_well_formed {LB : LeafletBounds} (st : AppState) :
  Reachable st ->
  NoDup (JsMap.keys (selectedGridMap st))
  /\ forall k e,
       In (k, e) (selectedGridMap st) ->
       k = Js.toUpperCase (name e)
       /\ name e = getGridName (feature e)
       /\ getPolygonCentroid (geometry (feature e)) = Normal (centroid e)
       /\ JsMap.get k (selectedGridMap st) = Some e.
Proof.
  intros HR.
  pose proof (Reachable_keys_NoDup st HR) as Hnd.
  pose proof (Reachable_entries_cached st HR) as Hwf.
  split; [exact Hnd |].
  intros k e Hin.
  rewrite Forall_forall in Hwf.
  destruct (Hwf (k, e) Hin) as [Hc E]. simpl in Hc, E.
  injection E as Ek Ee.
  assert (Hname : name e = getGridName (feature e)) by now rewrite Ee.
  split; [now rewrite Ek, Hname |]. split; [exact Hname |]. split.
  - rewrite (centroidComputes_Normal _ Hc). f_equal. now rewrite Ee at 2.
  - clear Hwf Ek Ee Hname Hc.
    induction (selectedGridMap st) as [| [k' e'] r IH]; [destruct Hin |].
    simpl. apply NoDup_cons_iff in Hnd as [Hn Hr].
    destruct Hin as [E | Hin].
    + injection E as -> ->. now rewrite String.eqb_refl.
    + destruct (String.eqb k' k) eqn:Ek; [| now apply IH].
      apply String.eqb_eq in Ek. subst k'. exfalso. apply Hn.
      apply in_map_iff. exists (k, e). split; [reflexivity | exact Hin].
Qed.

Lemma reachable_store_well_formed_witness :
  NoDup (JsMap.keys
           (selectedGridMap
              (dispatch (LB := CornerBox)
                 (UpdateSelection [Some tileB; Some tileA] defaultOptions)
                 initialState)))
  /\ forall k e,
       In (k, e)
         (selectedGridMap
            (dispatch (LB := CornerBox)
               (UpdateSelection [Some tileB; Some tileA] defaultOptions)
               initialState)) ->
       k = Js.toUpperCase (name e)
       /\ name e = getGridName (feature e)
       /\ getPolygonCentroid (geometry (feature e)) = Normal (centroid e)
       /\ JsMap.get k
            (selectedGridMap
               (dispatch (LB := CornerBox)
                  (UpdateSelection [Some tileB; Some tileA] defaultOptions)
                  initialState)) = Some e.
Proof.
  apply reachable_store_well_formed. apply reach_step, reach_init.
Defined.

(** The names handed to the encoder by a reachable state, in whatever
    order, upper-case and sort to the keys of the store. *)
Lemma reachable_upperSorted {LB : LeafletBounds} st names :
  Reachable st ->
  Permutation names (map name (getSelectedEntries st)) ->
  upperSorted names = Js.sort (JsMap.keys (selectedGridMap st)).
Proof.
  intros HR P.
  rewrite (upperSorted_Permutation _ _ P). unfold upperSorted.
  unfold getSelectedEntries.
  rewrite <- (wellFormed_keys _ (Reachable_entries_cached st HR)).
  now rewrite newSet_of_NoDup by now apply Reachable_keys_NoDup.
Qed.

(** X2: whatever the order in which the names of a reachable selection
    are handed to the encoder, if they carry no comma and no white space
    at their ends, then the query written to the address bar decodes to
    exactly the keys of the store, in ascending order. *)
Theorem share_link_decodes_to_selection {LB : LeafletBounds}
  (st : AppState) (names : list string) (params : SearchParams) :
  Reachable st ->
  Permutation names (map name (getSelectedEntries st)) ->
  forallb codecSafe names = true ->
  decodedNames
    (getGridParamsFromUrl (updateAddressBarWithSelection names params))
  = Js.sort (JsMap.keys (selectedGridMap st)).
Proof.
  intros HR P Hsafe.
  rewrite decode_encoded by exact Hsafe.
  rewrite (reachable_upperSorted st names HR P).
  now destruct (Js.sort (JsMap.keys (selectedGridMap st))).
Qed.

Lemma share_link_decodes_to_selection_witness :
  decodedNames
    (getGridParamsFromUrl
       (updateAddressBarWithSelection ["31UEQ"; "31UDQ"] [("zoom", "7")]))
  = Js.sort
      (JsMap.keys
         (selectedGridMap
            (dispatch (LB := CornerBox)
               (UpdateSelection [Some tileB; Some tileA] defaultOptions)
               initialState))).
Proof.
  apply (share_link_decodes_to_selection (LB := CornerBox)
           (dispatch (UpdateSelection [Some tileB; Some tileA] defaultOptions)
              initialState)
           ["31UEQ"; "31UDQ"] [("zoom", "7")]).
  - apply reach_step, reach_init.
  - apply Permutation_refl.
  - reflexivity.
Defined.

(* ================================================================= *)
(** * Search index *)

Lemma searchItems_Normal features items :
  searchItems features = Normal items ->
  items = map itemOf features /\ forallb centroidComputes features = true.
Proof.
  revert items. induction features as [| f rest IH]; intros items; simpl.
  - intros E. injection E as <-. auto.
  - unfold centroidComputes at 1.
    destruct (getPolygonCentroid (geometry f)) as [c | e] eqn:Ec;
      [| discriminate].
    destruct (searchItems rest) as [items' | e]; [| discriminate].
    intros E. injection E as <-.
    destruct (IH items' eq_refl) as [-> Hc]. split; [| exact Hc].
    simpl. f_equal. unfold itemOf, centroidOrNull. now rewrite Ec.
Qed.

Lemma searchItems_computes features :
  forallb centroidComputes features = true ->
  searchItems features = Normal (map itemOf features).
Proof.
  induction features as [| f rest IH]; simpl; [reflexivity |].
  intros H. apply andb_true_iff in H as [Hf Hrest].
  rewrite (centroidComputes_Normal f Hf), (IH Hrest). reflexivity.
Qed.

Lemma searchItems_throws features :
  forallb centroidComputes features = false ->
  isNormal (searchItems features) = false.
Proof.
  induction features as [| f rest IH]; simpl; [discriminate |].
  unfold centroidComputes at 1.
  destruct (getPolygonCentroid (geometry f)) as [c | e]; [| reflexivity].
  simpl. intros H.
  destruct (searchItems rest); [| reflexivity].
  now specialize (IH H).
Qed.

Lemma buildSearchIndex_Normal features index :
  buildSearchIndex features = Normal index ->
  index = filter hasCentroid (map itemOf features)
  /\ forallb centroidComputes features = true.
Proof.
  unfold buildSearchIndex.
  destruct (searchItems features) as [items | e] eqn:E; [| discriminate].
  intros H. injection H as <-.
  destruct (searchItems_Normal _ _ E) as [-> Hc]. auto.
Qed.

Lemma index_item features index item :
  buildSearchIndex features = Normal index ->
  In item index ->
  item = itemOf (Search.feature item)
  /\ In (Search.feature item) features
  /\ centroidComputes (Search.feature item) = true
  /\ hasCentroid item = true.
Proof.
  intros Hb Hin.
  destruct (buildSearchIndex_Normal _ _ Hb) as [-> Hc].
  apply filter_In in Hin as [Hin Hh].
  apply in_map_iff in Hin as (f & <- & Hf).
  rewrite forallb_forall in Hc. simpl. auto.
Qed.

Lemma find_knownName index n :
  knownName index n = true ->
  exists item,
    find (fun item => String.eqb (Search.name item) n) index = Some item
    /\ In item index /\ Search.name item = n.
Proof.
  unfold knownName. induction index as [| i rest IH]; simpl;
    [discriminate |].
  destruct (String.eqb (Search.name i) n) eqn:E.
  - intros _. exists i. apply String.eqb_eq in E. auto.
  - simpl. intros H. destruct (IH H) as (item & Hf & Hin & Hn).
    exists item. auto.
Qed.

Lemma find_unknownName index n :
  knownName index n = false ->
  find (fun item => String.eqb (Search.name item) n) index = None.
Proof.
  unfold knownName. induction index as [| i rest IH]; simpl;
    [reflexivity |].
  destruct (String.eqb (Search.name i) n); [discriminate | exact IH].
Qed.

Lemma matchPending_items pending index :
  Forall (fun item => In item index) (matchPending pending index).
Proof.
  unfold matchPending. apply Forall_forall. intros item H.
  apply in_flat_map in H as (n & _ & H).
  destruct (find _ index) as [i |] eqn:E; [| destruct H].
  destruct H as [<- | []]. now apply find_some in E.
Qed.

Lemma matchPending_names pending index :
  map Search.name (matchPending pending index)
  = filter (knownName index) pending.
Proof.
  induction pending as [| n rest IH]; simpl; [reflexivity |].
  destruct (knownName index n) eqn:E.
  - destruct (find_knownName _ _ E) as (item & -> & _ & Hn).
    simpl. now rewrite IH, Hn.
  - now rewrite (find_unknownName _ _ E).
Qed.

(** X3: one feature whose centroid computation throws makes the whole
    index build throw; the exception is caught by [loadGridData], which
    then leaves the search index and the pending selection as they were
    and schedules no restore. *)
Theorem search_index_needs_every_centroid {LB : LeafletBounds}
  (features : list Feature) (zoom : float) (bounds : LatLngBounds)
  (s : Session) :
  isNormal (buildSearchIndex features) = forallb centroidComputes features
  /\ (forallb centroidComputes features = false ->
      exists app1,
        loadGridData features zoom bounds s
        = ({| app := app1;
              pendingGridSelection := pendingGridSelection s;
              searchIndex := searchIndex s |}, None)
        /\ selectedGridMap app1 = selectedGridMap (app s)).
Proof.
  assert (Hn : isNormal (buildSearchIndex features)
               = forallb centroidComputes features).
  { unfold buildSearchIndex.
    destruct (forallb centroidComputes features) eqn:E.
    - now rewrite (searchItems_computes _ E).
    - pose proof (searchItems_throws _ E) as H.
      now destruct (searchItems features). }
  split; [exact Hn |].
  intros E. rewrite E in Hn. unfold loadGridData.
  destruct (buildSearchIndex features) as [index | e]; [discriminate |].
  eexists. split; [reflexivity |].
  unfold updateGridDisplay. simpl gridData.
  destruct (zoom <? CONFIG.minZoomForGrids)%float; [reflexivity |].
  unfold renderGridsAsPolygons.
  match goal with
  | |- context [match ?l with [] => _ | _ :: _ => _ end] => destruct l
  end; reflexivity.
Qed.

(** X4: every item of the index comes from a feature of the data set,
    in data-set order, is named by the upper-cased grid name of its
    feature and carries the non-null centroid computed from it; a
    data-set feature with a non-null centroid is found under its
    upper-cased name; and [zoomToGrid] on the original name of an item
    always finds a centre. *)
Theorem search_index_entries (features : list Feature)
  (index : list Search.Item) :
  buildSearchIndex features = Normal index ->
  Subsequence (map Search.feature index) features
  /\ (forall item,
        In item index ->
        Search.name item = Js.toUpperCase (getGridName (Search.feature item))
        /\ Search.originalName item = getGridName (Search.feature item)
        /\ In (Search.feature item) features
        /\ (exists c,
              Search.centroid item = Some c
              /\ getPolygonCentroid (geometry (Search.feature item))
                 = Normal (Some c))
        /\ zoomToGrid (Search.originalName item) index <> None)
  /\ (forall f,
        In f features -> centroidOrNull f <> None ->
        knownName index (upperName f) = true).
Proof.
  intros Hb.
  destruct (buildSearchIndex_Normal _ _ Hb) as [Hidx Hc].
  split; [| split].
  - rewrite Hidx. clear. induction features as [| f rest IH]; simpl.
    + constructor.
    + destruct (hasCentroid (itemOf f)); simpl.
      * now apply subseq_keep.
      * now apply subseq_skip.
  - intros item Hin.
    destruct (index_item _ _ _ Hb Hin) as (Ei & Hf & Hcf & Hh).
    split; [now rewrite Ei |]. split; [now rewrite Ei |].
    split; [exact Hf |]. split.
    + unfold hasCentroid in Hh.
      destruct (Search.centroid item) as [c |] eqn:Ec; [| discriminate].
      exists c. split; [reflexivity |].
      rewrite (centroidComputes_Normal _ Hcf). f_equal.
      rewrite Ei in Ec. exact Ec.
    + unfold zoomToGrid.
      destruct (find (fun i => String.eqb (Search.originalName i)
                                 (Search.originalName item)) index)
        as [found |] eqn:Ef.
      * apply find_some in Ef as [Hfound _].
        destruct (index_item _ _ _ Hb Hfound) as (_ & _ & _ & Hh').
        unfold hasCentroid in Hh'.
        destruct (Search.centroid found); [discriminate | discriminate].
      * exfalso. eapply find_none in Ef; [| exact Hin].
        now rewrite String.eqb_refl in Ef.
  - intros f Hf Hn. unfold knownName. apply existsb_exists.
    exists (itemOf f). split; [| apply String.eqb_refl].
    rewrite Hidx. apply filter_In. split; [now apply in_map |].
    unfold hasCentroid. simpl. now destruct (centroidOrNull f).
Qed.

Lemma search_index_entries_witness :
  Subsequence
    (map Search.feature (map itemOf [tileA; tileB; tileC]))
    [tileA; tileB; tileC]
  /\ (forall item,
        In item (map itemOf [tileA; tileB; tileC]) ->
        Search.name item = Js.toUpperCase (getGridName (Search.feature item))
        /\ Search.originalName item = getGridName (Search.feature item)
        /\ In (Search.feature item) [tileA; tileB; tileC]
        /\ (exists c,
              Search.centroid item = Some c
              /\ getPolygonCentroid (geometry (Search.feature item))
                 = Normal (Some c))
        /\ zoomToGrid (Search.originalName item)
             (map itemOf [tileA; tileB; tileC]) <> None)
  /\ (forall f,
        In f [tileA; tileB; tileC] -> centroidOrNull f <> None ->
        knownName (map itemOf [tileA; tileB; tileC]) (upperName f) = true).
Proof.
  apply (search_index_entries [tileA; tileB; tileC]). reflexivity.
Defined.

(* ================================================================= *)
(** * Restore of a shared selection *)

Lemma In_get_NoDup k e m :
  NoDup (JsMap.keys m) -> In (k, e) m -> JsMap.get k m = Some e.
Proof.
  induction m as [| [k' e'] r IH]; intros Hnd Hin; [destruct Hin |].
  simpl. apply NoDup_cons_iff in Hnd as [Hn Hr].
  destruct Hin as [E | Hin].
  - injection E as -> ->. now rewrite String.eqb_refl.
  - destruct (String.eqb k' k) eqn:Ek; [| now apply IH].
    apply String.eqb_eq in Ek. subst k'. exfalso. apply Hn.
    apply in_map_iff. exists (k, e). split; [reflexivity | exact Hin].
Qed.

Lemma lastWithUpper_In k features f :
  lastWithUpper k features = Some f ->
  In (Some f) features /\ upperName f = k.
Proof.
  induction features as [| o rest IH]; simpl; [discriminate |].
  destruct (lastWithUpper k rest) as [g |].
  - intros E. destruct (IH E). auto.
  - destruct o as [h |]; [| discriminate].
    destruct (String.eqb (upperName h) k) eqn:Ek; [| discriminate].
    intros E. injection E as ->. apply String.eqb_eq in Ek. auto.
Qed.

(** What the resolution of a pending selection against an index built
    from the data set comes to. *)
Lemma applyPending_resolved features index pending app0 :
  buildSearchIndex features = Normal index ->
  filter (knownName index) pending <> [] ->
  exists resolved m',
    applyPendingGridSelection
      {| app := app0; pendingGridSelection := Some pending;
         searchIndex := index |}
    = ({| app := app0; pendingGridSelection := None;
          searchIndex := index |}, Some resolved)
    /\ map upperName resolved = filter (knownName index) pending
    /\ (forall f, In f resolved -> In f features)
    /\ (forall st,
          pendingSelectionTimer resolved st = (withStore st m', Normal tt))
    /\ JsMap.keys m' = Js.newSet (filter (knownName index) pending)
    /\ (forall k e, In (k, e) m' ->
                    exists f, In f resolved /\ e = entryOf f
                              /\ centroid e <> None).
Proof.
  intros Hb Hne.
  pose proof (matchPending_names pending index) as Hnames.
  pose proof (matchPending_items pending index) as Hitems.
  rewrite Forall_forall in Hitems.
  set (matches := matchPending pending index) in *.
  set (resolved := map Search.feature matches).
  assert (Hup : map upperName resolved = filter (knownName index) pending).
  { rewrite <- Hnames. unfold resolved. rewrite map_map.
    apply map_ext_in. intros item Hin.
    destruct (index_item _ _ _ Hb (Hitems item Hin)) as (Ei & _).
    now rewrite Ei. }
  assert (Hfeat : forall f, In f resolved ->
                            In f features /\ centroidComputes f = true
                            /\ centroidOrNull f <> None).
  { intros f Hf. apply in_map_iff in Hf as (item & <- & Hin).
    destruct (index_item _ _ _ Hb (Hitems item Hin)) as (Ei & H1 & H2 & H3).
    split; [exact H1 |]. split; [exact H2 |].
    unfold hasCentroid in H3. rewrite Ei in H3. simpl in H3.
    now destruct (centroidOrNull (Search.feature item)). }
  assert (Hc : forallb centroidComputes
                 (presentFeatures (map Some resolved)) = true).
  { rewrite presentFeatures_map_Some. apply forallb_forall.
    intros f Hf. now apply Hfeat. }
  destruct (addFeatures_replace (map Some resolved) JsMap.clear 0 Hc)
    as (m' & n' & E & Hk & Hg).
  rewrite presentFeatures_map_Some, Hup in Hk.
  assert (Hres : resolved <> []).
  { intros Er. rewrite Er in Hup. simpl in Hup. now rewrite <- Hup in Hne. }
  exists resolved, m'.
  split; [| split; [exact Hup | split; [| split; [| split; [exact Hk |]]]]].
  - unfold applyPendingGridSelection. simpl.
    destruct pending as [| p0 prest]; [now elim Hne |].
    destruct index as [| i0 irest].
    { exfalso. apply Hne. clear. induction (p0 :: prest); auto. }
    fold matches. unfold resolved in Hres.
    destruct matches as [| m0 mrest]; [now elim Hres |]. reflexivity.
  - intros f Hf. now apply Hfeat.
  - intros st. unfold pendingSelectionTimer.
    eapply updateSelection_run; [| exact E].
    destruct resolved; [congruence | discriminate].
  - intros k e Hin.
    assert (Hnd : NoDup (JsMap.keys m'))
      by (rewrite Hk; apply newSet_NoDup).
    pose proof (In_get_NoDup _ _ _ Hnd Hin) as Hget.
    rewrite Hg in Hget.
    destruct (lastWithUpper k (map Some resolved)) as [f |] eqn:El;
      [| discriminate].
    injection Hget as <-.
    apply lastWithUpper_In in El as [Hf _].
    apply in_map_iff in Hf as (f' & Ef & Hf). injection Ef as ->.
    exists f. split; [exact Hf |]. split; [reflexivity |].
    simpl. now apply Hfeat.
Qed.

(** X5: when the index is ready and none of the pending names is found
    in it, [applyPendingGridSelection] discards the pending selection,
    schedules no selection change and leaves the engine's state alone. *)
Theorem pending_selection_unresolved (app0 : AppState)
  (pending : list string) (index : list Search.Item) :
  pending <> [] ->
  index <> [] ->
  forallb (fun n => negb (knownName index n)) pending = true ->
  applyPendingGridSelection
    {| app := app0; pendingGridSelection := Some pending;
       searchIndex := index |}
  = ({| app := app0; pendingGridSelection := None; searchIndex := index |},
     None).
Proof.
  intros Hp Hi Hunknown.
  assert (Hm : matchPending pending index = []).
  { pose proof (matchPending_names pending index) as H.
    assert (Hf : filter (knownName index) pending = []).
    { clear H Hp. induction pending as [| n rest IH]; [reflexivity |].
      simpl in *. apply andb_true_iff in Hunknown as [Hn Hrest].
      apply negb_true_iff in Hn. rewrite Hn. now apply IH. }
    rewrite Hf in H. now destruct (matchPending pending index). }
  unfold applyPendingGridSelection. simpl.
  destruct pending as [| p0 prest]; [congruence |].
  destruct index as [| i0 irest]; [congruence |].
  now rewrite Hm.
Qed.

Lemma pending_selection_unresolved_witness :
  applyPendingGridSelection
    {| app := draggingState; pendingGridSelection := Some ["99ZZZ"];
       searchIndex := map itemOf [tileA; tileB; tileC] |}
  = ({| app := draggingState; pendingGridSelection := None;
        searchIndex := map itemOf [tileA; tileB; tileC] |}, None).
Proof.
  apply pending_selection_unresolved;
    [discriminate | discriminate | reflexivity].
Defined.

(** X6: when at least one pending name is found in the index built from
    the data set, [applyPendingGridSelection] clears the pending
    selection and schedules the features found, one per found name in
    the order of the pending names, the unknown names being dropped; the
    deferred [updateSelection] then completes and replaces the selection
    by exactly those names, each entry holding a data-set feature with a
    non-null centroid. *)
Theorem pending_selection_resolved (features : list Feature)
  (index : list Search.Item) (pending : list string) (app0 : AppState) :
  buildSearchIndex features = Normal index ->
  filter (knownName index) pending <> [] ->
  exists resolved st',
    applyPendingGridSelection
      {| app := app0; pendingGridSelection := Some pending;
         searchIndex := index |}
    = ({| app := app0; pendingGridSelection := None;
          searchIndex := index |}, Some resolved)
    /\ map upperName resolved = filter (knownName index) pending
    /\ pendingSelectionTimer resolved app0 = (st', Normal tt)
    /\ JsMap.keys (selectedGridMap st')
       = Js.newSet (filter (knownName index) pending)
    /\ (forall k e,
          In (k, e) (selectedGridMap st') ->
          In (feature e) features /\ centroid e <> None
          /\ e = entryOf (feature e)).
Proof.
  intros Hb Hne.
  destruct (applyPending_resolved features index pending app0 Hb Hne)
    as (resolved & m' & E & Hup & Hfeat & Hrun & Hk & Hent).
  exists resolved, (withStore app0 m').
  split; [exact E |]. split; [exact Hup |]. split; [apply Hrun |].
  split; [exact Hk |].
  intros k e Hin. simpl in Hin.
  destruct (Hent k e Hin) as (f & Hf & -> & Hc).
  split; [now apply Hfeat |]. split; [exact Hc | reflexivity].
Qed.

Lemma pending_selection_resolved_witness :
  exists resolved st',
    applyPendingGridSelection
      {| app := initialState;
         pendingGridSelection := Some ["31UEQ"; "99ZZZ"; "31UDQ"];
         searchIndex := map itemOf [tileA; tileB; tileC] |}
    = ({| app := initialState; pendingGridSelection := None;
          searchIndex := map itemOf [tileA; tileB; tileC] |},
       Some resolved)
    /\ map upperName resolved
       = filter (knownName (map itemOf [tileA; tileB; tileC]))
           ["31UEQ"; "99ZZZ"; "31UDQ"]
    /\ pendingSelectionTimer resolved initialState = (st', Normal tt)
    /\ JsMap.keys (selectedGridMap st')
       = Js.newSet
           (filter (knownName (map itemOf [tileA; tileB; tileC]))
              ["31UEQ"; "99ZZZ"; "31UDQ"])
    /\ (forall k e,
          In (k, e) (selectedGridMap st') ->
          In (feature e) [tileA; tileB; tileC] /\ centroid e <> None
          /\ e = entryOf (feature e)).
Proof.
  apply (pending_selection_resolved [tileA; tileB; tileC]);
    [reflexivity | discriminate].
Defined.

(** X7: a share link made from a reachable, non-empty selection whose
    names are safe for the codec and all found in the index of the data
    set restores, on a fresh page load run up to the deferred callback,
    a selection whose keys are exactly the keys of the shared one, in
    ascending order. *)
Theorem shared_link_restores_selection {LB : LeafletBounds}
  (st0 : AppState) (names : list string) (params : SearchParams)
  (features : list Feature) (index : list Search.Item)
  (zoom : float) (bounds : LatLngBounds) :
  Reachable st0 ->
  selectedGridMap st0 <> [] ->
  Permutation names (map name (getSelectedEntries st0)) ->
  forallb codecSafe names = true ->
  buildSearchIndex features = Normal index ->
  forallb (knownName index) (JsMap.keys (selectedGridMap st0)) = true ->
  JsMap.keys
    (selectedGridMap
       (restoreFromUrl (updateAddressBarWithSelection names params)
          features zoom bounds))
  = Js.sort (JsMap.keys (selectedGridMap st0)).
Proof.
  intros HR Hne P Hsafe Hb Hknown.
  set (sorted := Js.sort (JsMap.keys (selectedGridMap st0))).
  assert (Hperm : Permutation sorted (JsMap.keys (selectedGridMap st0)))
    by apply sort_Permutation.
  assert (Hsne : sorted <> []).
  { intros E. rewrite E in Hperm. apply Permutation_nil in Hperm.
    destruct (selectedGridMap st0); [congruence | discriminate]. }
  assert (Hpending :
            getGridParamsFromUrl (updateAddressBarWithSelection names params)
            = Some sorted).
  { rewrite decode_encoded by exact Hsafe.
    rewrite (reachable_upperSorted st0 names HR P). fold sorted.
    now destruct sorted. }
  assert (Hall : filter (knownName index) sorted = sorted).
  { apply forallb_filter_id. apply forallb_forall. intros k Hk.
    rewrite forallb_forall in Hknown. apply Hknown.
    eapply Permutation_in; [exact Hperm | exact Hk]. }
  assert (Hfne : filter (knownName index) sorted <> [])
    by now rewrite Hall.
  unfold restoreFromUrl, loadGridData, pageLoaded.
  cbv beta iota zeta. simpl pendingGridSelection. simpl app.
  rewrite Hb, Hpending.
  set (app1 := updateGridDisplay zoom bounds
                 (withData initialState (Some features))).
  destruct (applyPending_resolved features index sorted app1 Hb Hfne)
    as (resolved & m' & E & _ & _ & Hrun & Hk & _).
  rewrite E. cbv beta iota. simpl app. rewrite Hrun. simpl.
  rewrite Hk, Hall. apply newSet_of_NoDup.
  eapply Permutation_NoDup; [symmetry; exact Hperm |].
  now apply Reachable_keys_NoDup.
Qed.

Lemma shared_link_restores_selection_witness :
  JsMap.keys
    (selectedGridMap
       (restoreFromUrl (LB := CornerBox)
          (updateAddressBarWithSelection ["31UEQ"; "31UDQ"] [("zoom", "7")])
          [tileA; tileB; tileC] 5 antimeridianViewport))
  = Js.sort
      (JsMap.keys
         (selectedGridMap
            (dispatch (LB := CornerBox)
               (UpdateSelection [Some tileB; Some tileA] defaultOptions)
               initialState))).
Proof.
  apply (shared_link_restores_selection (LB := CornerBox)
           (dispatch (UpdateSelection [Some tileB; Some tileA] defaultOptions)
              initialState)
           ["31UEQ"; "31UDQ"] [("zoom", "7")] [tileA; tileB; tileC]
           (map itemOf [tileA; tileB; tileC]) 5 antimeridianViewport).
  - apply reach_step, reach_init.
  - discriminate.
  - apply Permutation_refl.
  - reflexivity.
  - reflexivity.
  - reflexivity.
Defined.

(* ================================================================= *)
(** * Grid display *)

Section DisplayFacts.
Context {LB : LeafletBounds}.

Lemma firstn_prefix {A : Type} n (l : list A) :
  exists rest, l = firstn n l ++ rest.
Proof. exists (skipn n l). symmetry. apply firstn_skipn. Qed.

End DisplayFacts.

(** X9: whenever the display update leaves a grid layer for a loaded data
    set, the layer is not empty, holds at most 60000 features, is a
    prefix of the visible features (so in data-set order), and each of
    its features belongs to the data set, has a geometry and a centroid
    that can be computed; the selection is not touched. *)
Theorem rendered_grids_are_capped {LB : LeafletBounds} (zoom : float)
  (bounds : LatLngBounds) (st : AppState) (features layer : list Feature) :
  gridData st = Some features ->
  polygonLayer (updateGridDisplay zoom bounds st) = Some layer ->
  layer <> []
  /\ length layer <= CONFIG.maxGridsToRender
  /\ (exists rest, getVisibleGrids features bounds = layer ++ rest)
  /\ (forall f, In f layer ->
                In f features /\ geometry f <> None
                /\ centroidComputes f = true)
  /\ selectedGridMap (updateGridDisplay zoom bounds st) = selectedGridMap st.
Proof.
  intros Hd Hl. unfold updateGridDisplay in *. rewrite Hd in *.
  destruct (zoom <? CONFIG.minZoomForGrids)%float; [discriminate |].
  set (visible := getVisibleGrids features bounds) in *.
  set (shown := if (CONFIG.maxGridsToRender <? length visible)%nat
                then firstn CONFIG.maxGridsToRender visible
                else visible) in *.
  assert (Hpre : exists rest, visible = shown ++ rest).
  { unfold shown. destruct (CONFIG.maxGridsToRender <? length visible)%nat.
    - apply firstn_prefix.
    - exists []. now rewrite app_nil_r. }
  assert (Hlen : length shown <= CONFIG.maxGridsToRender).
  { unfold shown.
    destruct (CONFIG.maxGridsToRender <? length visible)%nat eqn:E.
    - rewrite length_firstn. apply Nat.le_min_l.
    - now apply Nat.ltb_ge in E. }
  unfold renderGridsAsPolygons in *.
  destruct shown as [| f0 rest0] eqn:Es; [discriminate |].
  simpl in Hl. injection Hl as <-.
  split; [discriminate |]. split; [exact Hlen |]. split; [exact Hpre |].
  split; [| reflexivity].
  intros f Hf. destruct Hpre as (rest & Hv).
  assert (Hvis : In f visible) by (rewrite Hv; apply in_or_app; now left).
  pose proof (visible_feature_computes _ _ _ Hvis) as Hc.
  unfold visible in Hvis. apply getVisibleGrids_spec in Hvis as [Hin Hbox].
  split; [exact Hin |]. split; [| exact Hc].
  destruct Hbox as (box & _ & Hb). unfold featureBoxIntersects in Hb.
  destruct (geometry f); [discriminate | discriminate].
Qed.

Lemma rendered_grids_are_capped_witness :
  [tileA; tileB] <> []
  /\ length [tileA; tileB] <= CONFIG.maxGridsToRender
  /\ (exists rest,
        getVisibleGrids [tileA; tileB; tileC] (mkBox 0 0 10 10)
        = [tileA; tileB] ++ rest)
  /\ (forall f, In f [tileA; tileB] ->
                In f [tileA; tileB; tileC] /\ geometry f <> None
                /\ centroidComputes f = true)
  /\ selectedGridMap
       (updateGridDisplay (LB := CornerBox) 5 (mkBox 0 0 10 10) draggingState)
     = selectedGridMap draggingState.
Proof.
  apply (rendered_grids_are_capped (LB := CornerBox) 5 (mkBox 0 0 10 10)
           draggingState [tileA; tileB; tileC] [tileA; tileB]);
    reflexivity.
Defined.

Lemma numericRing_false ring :
  numericRing ring = false ->
  existsb (fun p => is_nan (lngOf p) || is_nan (latOf p)) ring = true.
Proof.
  unfold numericRing. induction ring as [| p rest IH]; simpl;
    [discriminate |].
  destruct (is_nan (lngOf p)); [reflexivity |].
  destruct (is_nan (latOf p)); [reflexivity |]. exact IH.
Qed.

(** X10: whether or not the viewport crosses the antimeridian, a feature
    of the data set with an outer ring of numbers one vertex of which
    lies in the viewport is reported visible; and a feature all of whose
    outer rings hold a coordinate that is not a number is never
    reported, whatever the viewport. *)
Theorem viewport_itself_is_always_tested {LB : LeafletBounds}
  (bounds : LatLngBounds) (features : list Feature) (f : Feature) :
  In f features ->
  (forall ring p,
     In ring (outerRings f) -> numericRing ring = true ->
     In p ring -> vertexInBox p bounds = true ->
     In f (getVisibleGrids features bounds))
  /\ (forallb (fun ring => negb (numericRing ring)) (outerRings f) = true ->
      ~ In f (getVisibleGrids features bounds)).
Proof.
  intros Hf. split.
  - intros ring p Hr Hn Hp Hin.
    apply (ring_meeting_box_is_visible features bounds f ring bounds);
      try assumption; [apply viewport_in_wrapped |].
    unfold vertexInBox in Hin.
    apply andb_true_iff in Hin as [Hlat Hlng].
    apply andb_true_iff in Hlat as [HS HN].
    assert (Hex : forall test : Position -> bool,
              test p = true -> existsb test ring = true).
    { intros test H. apply existsb_exists. now exists p. }
    unfold ringMeetsBox, reachesNorth, reachesSouth, reachesEast,
      reachesWest.
    rewrite (Hex _ HS), (Hex _ HN). simpl.
    destruct (Num.gt (getWest bounds) (getEast bounds)).
    + apply orb_true_iff in Hlng as [H | H]; rewrite (Hex _ H); simpl;
        rewrite ?orb_true_r; reflexivity.
    + apply andb_true_iff in Hlng as [HW HE].
      now rewrite (Hex _ HW), (Hex _ HE).
  - intros Hnan Hvis.
    apply getVisibleGrids_spec in Hvis as [_ (box & _ & Hbox)].
    apply (proj1 (featureBoxIntersects_rings _ _)) in Hbox
      as (ring & Hr & Hbox).
    pose proof (proj1 (forallb_forall _ _) Hnan ring Hr) as Hn.
    apply negb_true_iff, numericRing_false in Hn.
    exact (eq_true_false_abs _ Hbox
             (isPolygonIntersectingBounds_nan ring box Hn)).
Qed.

(* ================================================================= *)
(** * Rings *)

Lemma ringLoop_toggle point rest : forall ringJ inside,
  ringLoop point rest ringJ inside
  = xorb inside (ringLoop point rest ringJ false).
Proof.
  induction rest as [| ringI rest' IH]; intros ringJ inside; simpl.
  - now rewrite xorb_false_r.
  - destruct (edgeCrosses point ringI ringJ), inside; simpl;
      rewrite ?(IH ringI true);
      destruct (ringLoop point rest' ringI false); reflexivity.
Qed.

Lemma last_default_irrelevant {A : Type} (x : A) l d d' :
  last (x :: l) d = last (x :: l) d'.
Proof.
  revert x. induction l as [| y l IH]; intros x; [reflexivity |].
  change (last (x :: y :: l) d) with (last (y :: l) d).
  change (last (x :: y :: l) d') with (last (y :: l) d').
  apply IH.
Qed.

Lemma ringLoop_app point l1 : forall l2 ringJ inside,
  ringLoop point (l1 ++ l2) ringJ inside
  = ringLoop point l2 (last l1 ringJ) (ringLoop point l1 ringJ inside).
Proof.
  induction l1 as [| x l1' IH]; intros l2 ringJ inside.
  - reflexivity.
  - change ((x :: l1') ++ l2) with (x :: (l1' ++ l2)).
    simpl ringLoop. rewrite IH. f_equal.
    destruct l1' as [| y l1'']; [reflexivity |].
    change (last (x :: y :: l1'') ringJ) with (last (y :: l1'') ringJ).
    apply last_default_irrelevant.
Qed.

Lemma edgeCrosses_same point vertex : edgeCrosses point vertex vertex = false.
Proof.
  unfold edgeCrosses. now rewrite Bool.eqb_reflx.
Qed.

(** X11: the ray-casting test treats an open ring and the same ring
    closed by a repetition of its first vertex alike: whether a point is
    inside does not change when the first vertex is appended. *)
Theorem ring_closure_is_immaterial (point first : Position) (rest : Ring) :
  isPointInLinearRing point ((first :: rest) ++ [first])
  = isPointInLinearRing point (first :: rest).
Proof.
  assert (Hclosed : isPointInLinearRing point ((first :: rest) ++ [first])
                    = ringLoop point ((first :: rest) ++ [first])
                        (last ((first :: rest) ++ [first]) first) false)
    by reflexivity.
  assert (Hopen : isPointInLinearRing point (first :: rest)
                  = ringLoop point (first :: rest)
                      (last (first :: rest) first) false)
    by reflexivity.
  rewrite Hclosed, Hopen, last_last, ringLoop_app.
  (* the closing edge is the opening edge of the open ring *)
  set (wrap := last (first :: rest) first).
  change (ringLoop point [first] wrap
            (ringLoop point (first :: rest) first false))
    with (if edgeCrosses point first wrap
          then negb (ringLoop point (first :: rest) first false)
          else ringLoop point (first :: rest) first false).
  change (ringLoop point (first :: rest) first false)
    with (ringLoop point rest first
            (if edgeCrosses point first first then negb false else false)).
  change (ringLoop point (first :: rest) wrap false)
    with (ringLoop point rest first
            (if edgeCrosses point first wrap then negb false else false)).
  rewrite edgeCrosses_same.
  rewrite (ringLoop_toggle point rest first
             (if edgeCrosses point first wrap then negb false else false)).
  destruct (edgeCrosses point first wrap),
    (ringLoop point rest first false); reflexivity.
Qed.

(* ================================================================= *)
(** * Adding to and removing from the selection *)

Section AddFacts.
Import JsMap.

Lemma has_get key m :
  has key m = match get key m with Some _ => true | None => false end.
Proof.
  unfold has. induction m as [| [k v] r IH]; simpl; [reflexivity |].
  destruct (String.eqb k key); [reflexivity | exact IH].
Qed.

Lemma addFeatures_add_get features : forall m n,
  forallb centroidComputes (presentFeatures features) = true ->
  exists m' n',
    addFeatures false features m n = (m', Normal n')
    /\ forall k,
         get k m' = match get k m with
                    | Some e => Some e
                    | None => option_map entryOf (firstWithUpper k features)
                    end.
Proof.
  induction features as [| [f |] rest IH]; intros m n Hc; simpl in *.
  - exists m, n. split; [reflexivity |]. intros k. now destruct (get k m).
  - apply andb_true_iff in Hc as [Hf Hrest].
    rewrite getGridName_truthy. simpl. fold (upperName f).
    destruct (has (upperName f) m) eqn:Eh.
    + destruct (IH m n Hrest) as (m' & n' & E & Hg).
      exists m', n'. split; [exact E |].
      intros k. rewrite Hg.
      destruct (get k m) eqn:Ek; [reflexivity |].
      destruct (String.eqb (upperName f) k) eqn:Eu; [| reflexivity].
      apply String.eqb_eq in Eu. subst k.
      rewrite has_get, Ek in Eh. discriminate.
    + rewrite (centroidComputes_Normal f Hf).
      change {| feature := f; name := getGridName f;
                centroid := centroidOrNull f |} with (entryOf f).
      destruct (IH (set (upperName f) (entryOf f) m) (S n) Hrest)
        as (m' & n' & E & Hg).
      exists m', n'. split; [exact E |].
      intros k. rewrite Hg, get_set.
      destruct (String.eqb (upperName f) k) eqn:Eu.
      * apply String.eqb_eq in Eu. subst k.
        rewrite has_get in Eh. now destruct (get (upperName f) m).
      * reflexivity.
  - apply (IH m n Hc).
Qed.

Lemma addFeatures_all_selected features : forall m n,
  (forall f, In f (presentFeatures features) ->
             In (upperName f) (keys m)) ->
  addFeatures false features m n = (m, Normal n).
Proof.
  induction features as [| [f |] rest IH]; intros m n Hall; simpl in *.
  - reflexivity.
  - rewrite getGridName_truthy. simpl. fold (upperName f).
    assert (Eh : has (upperName f) m = true)
      by (apply has_In, Hall; now left).
    rewrite Eh. apply IH. intros g Hg. apply Hall. now right.
  - now apply IH.
Qed.

End AddFacts.

(** X12: in add mode [updateSelection] never overwrites: on a non-empty
    list whose centroids can be computed it completes, keeps the old
    store as it is and appends to it; a name already selected keeps its
    entry, and a new name gets the entry of the first feature of the list
    with that upper-cased name. *)
Theorem add_mode_keeps_first (features : list (option Feature))
  (options : UpdateOptions) (st : AppState) :
  replace options = false ->
  features <> [] ->
  forallb centroidComputes (presentFeatures features) = true ->
  exists st' extra,
    updateSelection features options st = (st', Normal tt)
    /\ selectedGridMap st' = selectedGridMap st ++ extra
    /\ forall k,
         JsMap.get k (selectedGridMap st')
         = match JsMap.get k (selectedGridMap st) with
           | Some e => Some e
           | None => option_map entryOf (firstWithUpper k features)
           end.
Proof.
  intros Hr Hne Hc.
  destruct (addFeatures_add features (selectedGridMap st) 0 Hc)
    as (extra & n' & E & _ & _).
  destruct (addFeatures_add_get features (selectedGridMap st) 0 Hc)
    as (m' & n'' & E' & Hg).
  rewrite E in E'. injection E' as <- <-.
  exists (withStore st (selectedGridMap st ++ extra)), extra.
  split; [| split; [reflexivity | exact Hg]].
  eapply updateSelection_run; [exact Hne |].
  rewrite Hr. exact E.
Qed.

Lemma add_mode_keeps_first_witness :
  exists st' extra,
    updateSelection
      [Some (mkFeature 5 (Some [("name", "32tls")]) None); Some tileA;
       Some (mkFeature 6 (Some [("name", "31udq")]) None)]
      defaultOptions draggingState
    = (st', Normal tt)
    /\ selectedGridMap st' = selectedGridMap draggingState ++ extra
    /\ forall k,
         JsMap.get k (selectedGridMap st')
         = match JsMap.get k (selectedGridMap draggingState) with
           | Some e => Some e
           | None =>
               option_map entryOf
                 (firstWithUpper k
                    [Some (mkFeature 5 (Some [("name", "32tls")]) None);
                     Some tileA;
                     Some (mkFeature 6 (Some [("name", "31udq")]) None)])
           end.
Proof.
  apply add_mode_keeps_first; [reflexivity | discriminate | reflexivity].
Defined.

(** X13: selecting the same features twice is selecting them once: a
    second [updateSelection] with the same list and options, in add or
    in replace mode, completes and leaves the state exactly as the first
    one left it. *)
Theorem updateSelection_twice (features : list (option Feature))
  (options : UpdateOptions) (st : AppState) :
  forallb centroidComputes (presentFeatures features) = true ->
  exists st',
    updateSelection features options st = (st', Normal tt)
    /\ updateSelection features options st' = (st', Normal tt).
Proof.
  intros Hc.
  destruct features as [| o rest].
  { exists st. split; reflexivity. }
  remember (o :: rest) as features eqn:Ef.
  assert (Hne : features <> []) by (rewrite Ef; discriminate).
  clear Ef.
  destruct (replace options) eqn:Hr.
  - destruct (addFeatures_replace features JsMap.clear 0 Hc)
      as (m' & n' & E & _ & _).
    exists (withStore st m'). split.
    + eapply updateSelection_run; [exact Hne | rewrite Hr; exact E].
    + change (withStore st m') with (withStore (withStore st m') m') at 2.
      eapply updateSelection_run; [exact Hne | rewrite Hr; exact E].
  - destruct (addFeatures_add features (selectedGridMap st) 0 Hc)
      as (extra & n' & E & Hk & _).
    set (m' := selectedGridMap st ++ extra) in *.
    exists (withStore st m'). split.
    + eapply updateSelection_run; [exact Hne | rewrite Hr; exact E].
    + change (withStore st m') with (withStore (withStore st m') m') at 2.
      eapply updateSelection_run; [exact Hne |].
      rewrite Hr. simpl selectedGridMap.
      apply addFeatures_all_selected.
      intros f Hf. unfold m', JsMap.keys. rewrite map_app, in_app_iff.
      fold (JsMap.keys (selectedGridMap st)). fold (JsMap.keys extra).
      destruct (in_dec string_dec (upperName f)
                  (JsMap.keys (selectedGridMap st))) as [Hin | Hout];
        [now left | right].
      apply Hk. split; [exact Hout | now apply in_map].
Qed.

Lemma updateSelection_twice_witness :
  exists st',
    updateSelection [Some tileA; Some tileB] defaultOptions draggingState
    = (st', Normal tt)
    /\ updateSelection [Some tileA; Some tileB] defaultOptions st'
       = (st', Normal tt).
Proof.
  apply updateSelection_twice. reflexivity.
Defined.

(** X14: removal by name ignores the case of the name: for a non-empty
    name it takes exactly the key that is the upper-cased name out of the
    store, leaves every other key with its entry and the rest of the
    state alone, and is the same as removal by the upper-cased name. *)
Theorem removal_by_name (gridName : string) (st : AppState) :
  Js.truthy gridName = true ->
  (forall k,
     In k (JsMap.keys (selectedGridMap (removeGridFromSelection gridName st)))
     <-> In k (JsMap.keys (selectedGridMap st))
         /\ k <> Js.toUpperCase gridName)
  /\ (forall k,
        k <> Js.toUpperCase gridName ->
        JsMap.get k (selectedGridMap (removeGridFromSelection gridName st))
        = JsMap.get k (selectedGridMap st))
  /\ removeGridFromSelection (Js.toUpperCase gridName) st
     = removeGridFromSelection gridName st
  /\ suppressNextGridClick (removeGridFromSelection gridName st)
     = suppressNextGridClick st
  /\ rectangleSelectState (removeGridFromSelection gridName st)
     = rectangleSelectState st.
Proof.
  intros Ht.
  assert (Hget : forall key m k,
            k <> key -> JsMap.get k (JsMap.delete key m) = JsMap.get k m).
  { intros key m k Hk. induction m as [| [k' v] r IH]; [reflexivity |].
    simpl. destruct (String.eqb k' key) eqn:E; simpl.
    - apply String.eqb_eq in E. subst k'.
      destruct (String.eqb key k) eqn:E'; [| exact IH].
      apply String.eqb_eq in E'. congruence.
    - now rewrite IH. }
  unfold removeGridFromSelection. rewrite Ht. simpl negb.
  rewrite toUpperCase_truthy, Ht, toUpperCase_idem. simpl negb.
  set (upper := Js.toUpperCase gridName).
  destruct (JsMap.has upper (selectedGridMap st)) eqn:Eh; simpl.
  - split; [intros k; apply keys_delete |].
    split; [intros k Hk; now apply Hget |]. auto.
  - apply has_false in Eh.
    split; [| auto].
    intros k. split; [| tauto]. intros H. split; [exact H | congruence].
Qed.

Lemma removal_by_name_witness :
  (forall k,
     In k (JsMap.keys
             (selectedGridMap (removeGridFromSelection "32tls" draggingState)))
     <-> In k (JsMap.keys (selectedGridMap draggingState))
         /\ k <> Js.toUpperCase "32tls")
  /\ (forall k,
        k <> Js.toUpperCase "32tls" ->
        JsMap.get k
          (selectedGridMap (removeGridFromSelection "32tls" draggingState))
        = JsMap.get k (selectedGridMap draggingState))
  /\ removeGridFromSelection (Js.toUpperCase "32tls") draggingState
     = removeGridFromSelection "32tls" draggingState
  /\ suppressNextGridClick (removeGridFromSelection "32tls" draggingState)
     = suppressNextGridClick draggingState
  /\ rectangleSelectState (removeGridFromSelection "32tls" draggingState)
     = rectangleSelectState draggingState.
Proof.
  apply removal_by_name. reflexivity.
Defined.

(* ================================================================= *)
(** * The drag gesture *)

Section GestureFacts.
Context {LB : LeafletBounds}.

Lemma updateSelection_store_only features options st :
  exists m, fst (updateSelection features options st) = withStore st m.
Proof.
  unfold updateSelection. destruct features as [| o rest].
  - exists (selectedGridMap st). simpl. now rewrite withStore_same.
  - destruct (addFeatures _ _ _ _) as [m1 [n | e]]; now exists m1.
Qed.

(** What a commit leaves of the gesture: the rectangle state is idle and
    the click-suppression flag is raised exactly if the pointer had
    moved. *)
Lemma completeRectangleSelection_fields finalLatLng st :
  rectangleSelectState (fst (completeRectangleSelection finalLatLng st))
  = idleRectangle
  /\ suppressNextGridClick (fst (completeRectangleSelection finalLatLng st))
     = (hasMoved (rectangleSelectState st) || suppressNextGridClick st)
  /\ polygonLayer (fst (completeRectangleSelection finalLatLng st))
     = polygonLayer st
  /\ gridData (fst (completeRectangleSelection finalLatLng st))
     = gridData st.
Proof.
  unfold completeRectangleSelection.
  destruct (hasMoved (rectangleSelectState st)) eqn:Hm;
    [| simpl; auto].
  set (st0 := scheduleSuppressNextGridClick (resetRectangleSelection st)).
  destruct (startLatLng (rectangleSelectState st)); [| simpl; auto].
  destruct finalLatLng; [| simpl; auto].
  destruct (findFeaturesInBounds _ _) as [[| g sel] | e];
    [simpl; auto | | simpl; auto].
  destruct (negb _ && _); [simpl; auto |].
  destruct (updateSelection_store_only
              (map Some (g :: sel))
              {| replace := (JsMap.size (selectedGridMap st0) =? 0)%nat;
                 centerMap := false; flash := true;
                 focusShareLink := false |} st0) as (m & ->).
  simpl. auto.
Qed.

End GestureFacts.

(** X15: a shift-click on the loaded map that is released without any
    pointer movement changes nothing but the rectangle state, which is
    idle again: the selection is as before and the click-suppression
    flag is not raised, so the click on the tile beneath goes through. *)
Theorem shift_click_without_movement {LB : LeafletBounds}
  (down : LatLng) (up : option LatLng) (st : AppState) :
  gridData st <> None ->
  onRectangleMouseUp up (onRectangleMouseDown true down st)
  = (withRectangle st idleRectangle, Normal tt).
Proof.
  intros Hd. unfold onRectangleMouseDown. simpl negb.
  destruct (gridData st) as [data |] eqn:Ed; [| congruence].
  unfold onRectangleMouseUp. simpl. unfold completeRectangleSelection.
  simpl. now destruct up.
Qed.

Lemma shift_click_without_movement_witness :
  onRectangleMouseUp (LB := CornerBox) (Some (mkLatLng 2 2))
    (onRectangleMouseDown true (mkLatLng 2 2) draggingState)
  = (withRectangle draggingState idleRectangle, Normal tt).
Proof.
  apply shift_click_without_movement. discriminate.
Defined.

(** X16: a shift-drag on the loaded map that has moved always raises the
    click-suppression flag when it is released, whatever it matched and
    even if the commit throws; the next grid click is then swallowed: it
    only lowers the flag and leaves the selection alone. *)
Theorem drag_swallows_next_click {LB : LeafletBounds}
  (down move : LatLng) (up latlng : option LatLng) (f : Feature)
  (st : AppState) :
  gridData st <> None ->
  suppressNextGridClick
    (fst (onRectangleMouseUp up
            (onRectangleMouseMove move
               (onRectangleMouseDown true down st)))) = true
  /\ rectangleSelectState
       (fst (onRectangleMouseUp up
               (onRectangleMouseMove move
                  (onRectangleMouseDown true down st)))) = idleRectangle
  /\ processGridClick (Some f) latlng
       (fst (onRectangleMouseUp up
               (onRectangleMouseMove move
                  (onRectangleMouseDown true down st))))
     = (withSuppress
          (fst (onRectangleMouseUp up
                  (onRectangleMouseMove move
                     (onRectangleMouseDown true down st)))) false,
        Normal tt).
Proof.
  intros Hd.
  set (dragged := onRectangleMouseMove move
                    (onRectangleMouseDown true down st)).
  assert (Hact : active (rectangleSelectState dragged) = true
                 /\ hasMoved (rectangleSelectState dragged) = true).
  { unfold dragged, onRectangleMouseDown. simpl negb.
    destruct (gridData st); [| congruence]. split; reflexivity. }
  destruct Hact as [Ha Hm].
  set (final := match up with
                | Some ll => Some ll
                | None => lastLatLng (rectangleSelectState dragged)
                end).
  assert (Hup : onRectangleMouseUp up dragged
                = completeRectangleSelection final dragged).
  { unfold onRectangleMouseUp. now rewrite Ha. }
  rewrite Hup.
  destruct (completeRectangleSelection_fields final dragged)
    as (Hrect & Hsup & _ & _).
  rewrite Hm in Hsup. simpl in Hsup.
  split; [exact Hsup |]. split; [exact Hrect |].
  unfold processGridClick. now rewrite Hsup.
Qed.

Lemma drag_swallows_next_click_witness :
  suppressNextGridClick
    (fst (onRectangleMouseUp (LB := CornerBox) (Some (mkLatLng 10 10))
            (onRectangleMouseMove (mkLatLng 5 5)
               (onRectangleMouseDown true (mkLatLng 0 0) draggingState))))
  = true.
Proof.
  refine (proj1 (drag_swallows_next_click (LB := CornerBox)
                   (mkLatLng 0 0) (mkLatLng 5 5) (Some (mkLatLng 10 10))
                   None tileA draggingState _)).
  discriminate.
Defined.

(** X17: after a mouse-up handler has run the gesture is over: the
    rectangle state is inactive (idle if a gesture was active), so the
    document-level mouse-up that follows the map-level one, and any
    pointer move after it, change nothing. *)
Theorem mouse_up_ends_the_gesture {LB : LeafletBounds}
  (up converted : option LatLng) (move : LatLng) (st : AppState) :
  active (rectangleSelectState (fst (onRectangleMouseUp up st))) = false
  /\ (active (rectangleSelectState st) = true ->
      rectangleSelectState (fst (onRectangleMouseUp up st)) = idleRectangle)
  /\ onDocumentMouseUp converted (fst (onRectangleMouseUp up st))
     = (fst (onRectangleMouseUp up st), Normal tt)
  /\ onRectangleMouseMove move (fst (onRectangleMouseUp up st))
     = fst (onRectangleMouseUp up st).
Proof.
  assert (Hidle : active (rectangleSelectState st) = true ->
                  rectangleSelectState (fst (onRectangleMouseUp up st))
                  = idleRectangle).
  { intros Ha. unfold onRectangleMouseUp. rewrite Ha. simpl negb.
    cbv iota. apply completeRectangleSelection_fields. }
  assert (Hoff : active (rectangleSelectState (fst (onRectangleMouseUp up st)))
                 = false).
  { destruct (active (rectangleSelectState st)) eqn:Ha.
    - now rewrite (Hidle eq_refl).
    - unfold onRectangleMouseUp. rewrite Ha. exact Ha. }
  split; [exact Hoff |]. split; [exact Hidle |]. split.
  - unfold onDocumentMouseUp. now rewrite Hoff.
  - unfold onRectangleMouseMove. now rewrite Hoff.
Qed.

(* ================================================================= *)
(** * More on the share-state codec *)

Section TrimFacts.
Import Js.

Lemma trimEnd_idem s : trimEnd (trimEnd s) = trimEnd s.
Proof.
  induction s as [| c r IH]; [reflexivity |].
  simpl. destruct (trimEnd r) as [| d r'] eqn:E.
  - destruct (isWhiteSpace c) eqn:Ew; [reflexivity |].
    simpl. now rewrite Ew.
  - change (trimEnd (String c (String d r')))
      with (match trimEnd (String d r') with
            | EmptyString =>
                if isWhiteSpace c then EmptyString
                else String c EmptyString
            | r'' => String c r''
            end).
    now rewrite IH.
Qed.

Lemma trimStart_startsClean s : startsClean (trimStart s) = true.
Proof.
  induction s as [| c r IH]; [reflexivity |].
  simpl. destruct (isWhiteSpace c) eqn:E; [exact IH |].
  simpl. now rewrite E.
Qed.

Lemma trimEnd_startsClean s :
  startsClean s = true -> startsClean (trimEnd s) = true.
Proof.
  destruct s as [| c r]; [reflexivity |].
  intros H. simpl trimEnd. destruct (trimEnd r).
  - destruct (isWhiteSpace c) eqn:E; [reflexivity |].
    simpl. now rewrite E.
  - exact H.
Qed.

Lemma trimStart_of_clean s : startsClean s = true -> trimStart s = s.
Proof.
  destruct s as [| c r]; [reflexivity |].
  simpl. intros H. apply negb_true_iff in H. now rewrite H.
Qed.

Lemma trim_idem s : trim (trim s) = trim s.
Proof.
  unfold trim.
  rewrite (trimStart_of_clean (trimEnd (trimStart s)))
    by apply trimEnd_startsClean, trimStart_startsClean.
  apply trimEnd_idem.
Qed.

Lemma pushName_normal names raw :
  Forall stableName names -> Forall stableName (pushName names raw).
Proof.
  intros H. unfold pushName.
  destruct (0 <? String.length (trim raw))%nat eqn:E; [| exact H].
  apply Forall_app. split; [exact H |].
  constructor; [| constructor]. unfold stableName.
  rewrite toUpperCase_truthy, trim_toUpperCase, trim_idem, toUpperCase_idem.
  split; [| auto]. now destruct (trim raw).
Qed.

Lemma fold_pushName_normal raws : forall names,
  Forall stableName names -> Forall stableName (fold_left pushName raws names).
Proof.
  induction raws as [| raw rest IH]; intros names H; simpl; [exact H |].
  apply IH, pushName_normal, H.
Qed.

End TrimFacts.

(** X18: whatever the query holds, the decoder gives either [null] or a
    non-empty list of names without duplicates, each of them non-empty,
    in upper case and free of white space at both ends. *)
Theorem decoded_names_are_normal (params : SearchParams) :
  match getGridParamsFromUrl params with
  | None => True
  | Some names =>
      names <> [] /\ NoDup names
      /\ Forall (fun n => n <> EmptyString /\ Js.toUpperCase n = n
                          /\ Js.trim n = n) names
  end.
Proof.
  unfold getGridParamsFromUrl.
  set (fromGrids :=
         match URLSearchParams.get "grids" params with
         | Some s =>
             if Js.truthy s then fold_left pushName (Js.split Js.comma s) []
             else []
         | None => []
         end).
  set (names :=
         match URLSearchParams.get "grid" params with
         | Some s => if Js.truthy s then pushName fromGrids s else fromGrids
         | None => fromGrids
         end).
  assert (H1 : Forall stableName fromGrids).
  { unfold fromGrids. destruct (URLSearchParams.get "grids" params) as [s |];
      [| constructor].
    destruct (Js.truthy s); [| constructor].
    apply fold_pushName_normal. constructor. }
  assert (H2 : Forall stableName names).
  { unfold names. destruct (URLSearchParams.get "grid" params) as [s |];
      [| exact H1].
    destruct (Js.truthy s); [| exact H1]. now apply pushName_normal. }
  destruct (Js.newSet names) as [| n0 rest] eqn:E; [exact I |].
  split; [discriminate |]. rewrite <- E.
  split; [apply newSet_NoDup |].
  apply Forall_forall. intros n Hn. apply (proj1 (newSet_In _ _)) in Hn.
  rewrite Forall_forall in H2. destruct (H2 n Hn) as (Ht & Htrim & Hup).
  split; [| auto]. intros ->. discriminate.
Qed.

Section QueryFacts.

Lemma delete_key_absent key params kv :
  In kv (URLSearchParams.delete key params) -> fst kv <> key.
Proof.
  unfold URLSearchParams.delete. intros H.
  apply filter_In in H as [_ H].
  now apply negb_true_iff, String.eqb_neq in H.
Qed.

Lemma set_fresh key value params :
  (forall kv, In kv params -> fst kv <> key) ->
  URLSearchParams.set key value params = params ++ [(key, value)].
Proof.
  induction params as [| [k v] r IH]; intros H; simpl; [reflexivity |].
  destruct (String.eqb k key) eqn:E.
  - apply String.eqb_eq in E. exfalso.
    apply (H (k, v)); [now left | exact E].
  - rewrite IH; [reflexivity |]. intros kv Hkv. apply H. now right.
Qed.

Lemma delete_fresh key params :
  (forall kv, In kv params -> fst kv <> key) ->
  URLSearchParams.delete key params = params.
Proof.
  induction params as [| [k v] r IH]; intros H; simpl; [reflexivity |].
  destruct (String.eqb k key) eqn:E.
  - apply String.eqb_eq in E. exfalso.
    apply (H (k, v)); [now left | exact E].
  - simpl. rewrite IH; [reflexivity |]. intros kv Hkv. apply H. now right.
Qed.

Lemma delete_app key p q :
  URLSearchParams.delete key (p ++ q)
  = URLSearchParams.delete key p ++ URLSearchParams.delete key q.
Proof. apply filter_app. Qed.

Lemma written_query names params :
  updateAddressBarWithSelection names params
  = URLSearchParams.delete "grids" (URLSearchParams.delete "grid" params)
    ++ selectionParameter (upperSorted names).
Proof.
  unfold updateAddressBarWithSelection, selectionParameter.
  set (base := URLSearchParams.delete "grids"
                 (URLSearchParams.delete "grid" params)).
  assert (Hgrids : forall kv, In kv base -> fst kv <> "grids")
    by (intros kv; apply delete_key_absent).
  assert (Hgrid : forall kv, In kv base -> fst kv <> "grid").
  { intros kv H. unfold base, URLSearchParams.delete in H.
    apply filter_In in H as [H _]. revert H. apply delete_key_absent. }
  destruct (upperSorted names) as [| x [| y r]].
  - now rewrite app_nil_r.
  - now apply set_fresh.
  - now apply set_fresh.
Qed.

End QueryFacts.

(** X19: the encoder touches nothing but the [grid] and [grids]
    parameters: the query it writes is the old one without those two, in
    the old order, followed by the one selection parameter if there is a
    name; writing the same names again changes nothing. *)
Theorem encoder_keeps_other_parameters (names : list string)
  (params : SearchParams) :
  updateAddressBarWithSelection names params
  = URLSearchParams.delete "grids" (URLSearchParams.delete "grid" params)
    ++ selectionParameter (upperSorted names)
  /\ (forall key,
        key <> "grid" -> key <> "grids" ->
        filter (fun kv => String.eqb (fst kv) key)
          (updateAddressBarWithSelection names params)
        = filter (fun kv => String.eqb (fst kv) key) params)
  /\ updateAddressBarWithSelection names
       (updateAddressBarWithSelection names params)
     = updateAddressBarWithSelection names params.
Proof.
  split; [apply written_query |]. split.
  - intros key H1 H2. rewrite written_query, filter_app.
    assert (Hsel : filter (fun kv => String.eqb (fst kv) key)
                     (selectionParameter (upperSorted names)) = []).
    { unfold selectionParameter.
      destruct (upperSorted names) as [| x [| y r]];
        cbv beta iota delta [filter fst].
      - reflexivity.
      - destruct (String.eqb "grid" key) eqn:E; [| reflexivity].
        apply String.eqb_eq in E. congruence.
      - destruct (String.eqb "grids" key) eqn:E; [| reflexivity].
        apply String.eqb_eq in E. congruence. }
    rewrite Hsel, app_nil_r.
    assert (Hdel : forall k p, k <> key ->
              filter (fun kv => String.eqb (fst kv) key)
                (URLSearchParams.delete k p)
              = filter (fun kv : string * string => String.eqb (fst kv) key)
                  p).
    { intros k p Hk. induction p as [| [k' v] r IH]; [reflexivity |].
      simpl. destruct (String.eqb k' k) eqn:E; simpl.
      - apply String.eqb_eq in E. subst k'.
        destruct (String.eqb k key) eqn:E'; [| exact IH].
        apply String.eqb_eq in E'. congruence.
      - now rewrite IH. }
    rewrite !Hdel by congruence. reflexivity.
  - rewrite (written_query names (updateAddressBarWithSelection names params)).
    rewrite (written_query names params) at 1.
    set (base := URLSearchParams.delete "grids"
                   (URLSearchParams.delete "grid" params)).
    rewrite !delete_app.
    assert (Hsel : URLSearchParams.delete "grids"
                     (URLSearchParams.delete "grid"
                        (selectionParameter (upperSorted names))) = []).
    { unfold selectionParameter.
      destruct (upperSorted names) as [| x [| y r]]; reflexivity. }
    rewrite Hsel, app_nil_r.
    assert (Hbase : URLSearchParams.delete "grids"
                      (URLSearchParams.delete "grid" base) = base).
    { rewrite (delete_fresh "grid" base).
      - apply delete_fresh. intros kv. apply delete_key_absent.
      - intros kv H. unfold base, URLSearchParams.delete in H.
        apply filter_In in H as [H _]. revert H. apply delete_key_absent. }
    rewrite Hbase. symmetry. apply written_query.
Qed.

(** X20: the query written depends only on the set of upper-cased names:
    two lists of names with the same upper-casings, in any order, with
    any repetitions and in any case, are written alike. *)
Theorem encoder_reads_names_as_a_set (names names' : list string)
  (params : SearchParams) :
  (forall x, In x (map Js.toUpperCase names)
             <-> In x (map Js.toUpperCase names')) ->
  updateAddressBarWithSelection names params
  = updateAddressBarWithSelection names' params.
Proof.
  intros H.
  assert (E : upperSorted names = upperSorted names').
  { apply Ascending_unique; try apply upperSorted_Ascending.
    apply NoDup_Permutation; try apply upperSorted_NoDup.
    intros x. now rewrite !upperSorted_In. }
  unfold updateAddressBarWithSelection. now rewrite E.
Qed.

Lemma encoder_reads_names_as_a_set_witness :
  updateAddressBarWithSelection ["31uDq"; "31UEQ"; "31udq"] [("zoom", "7")]
  = updateAddressBarWithSelection ["31UEQ"; "31UDQ"] [("zoom", "7")].
Proof.
  apply encoder_reads_names_as_a_set.
  intros x. simpl. tauto.
Defined.

(* ================================================================= *)
(** * More on the CSV export *)

Section CsvShape.
Variable toFixed6 : float -> string.

Lemma csvRowValues_width keys entry row :
  csvRowValues toFixed6 keys entry = Normal row ->
  length row = 3 + length keys.
Proof.
  unfold csvRowValues.
  destruct (match centroid entry with
            | Some c => Normal (Some c)
            | None => getPolygonCentroid (geometry (feature entry))
            end) as [c | e]; [| discriminate].
  intros E. injection E as <-. simpl. now rewrite length_map.
Qed.

Lemma csvRowsValues_width keys entries : forall rows,
  csvRowsValues toFixed6 keys entries = Normal rows ->
  length rows = length entries
  /\ Forall (fun row => length row = 3 + length keys) rows.
Proof.
  induction entries as [| e rest IH]; intros rows; simpl.
  - intros E. injection E as <-. split; [reflexivity | constructor].
  - destruct (csvRowValues toFixed6 keys e) as [row | err] eqn:Er;
      [| discriminate].
    destruct (csvRowsValues toFixed6 keys rest) as [rows' | err];
      [| discriminate].
    intros E. injection E as <-.
    destruct (IH rows' eq_refl) as [Hl Hw]. split; [simpl; now rewrite Hl |].
    constructor; [now apply (csvRowValues_width keys e) | exact Hw].
Qed.

End CsvShape.

Lemma collectKeys_fold entries : forall acc,
  NoDup acc ->
  let keys :=
    fold_left
      (fun propertyKeys entry =>
         match properties (feature entry) with
         | Some props => fold_left Js.Set_add (map fst props) propertyKeys
         | None => propertyKeys
         end) entries acc in
  NoDup keys
  /\ forall k,
       In k keys <->
       In k acc
       \/ exists entry props,
            In entry entries /\ properties (feature entry) = Some props
            /\ In k (map fst props).
Proof.
  induction entries as [| e rest IH]; intros acc Hnd; simpl.
  - split; [exact Hnd |]. intros k. split; [now left |].
    intros [H | (e & p & [] & _)]. exact H.
  - destruct (properties (feature e)) as [props |] eqn:Ep.
    + destruct (IH (fold_left Js.Set_add (map fst props) acc)
                  (fold_Set_add_NoDup _ _ Hnd)) as [Hn Hk].
      split; [exact Hn |]. intros k. rewrite Hk, fold_Set_add_In.
      split.
      * intros [[H | H] | (e' & p' & Hin & Hp & Hkp)].
        -- now left.
        -- right. exists e, props. auto.
        -- right. exists e', p'. auto.
      * intros [H | (e' & p' & [<- | Hin] & Hp & Hkp)].
        -- left. now left.
        -- rewrite Ep in Hp. injection Hp as <-. left. now right.
        -- right. exists e', p'. auto.
    + destruct (IH acc Hnd) as [Hn Hk].
      split; [exact Hn |]. intros k. rewrite Hk. split.
      * intros [H | (e' & p' & Hin & Hp & Hkp)]; [now left |].
        right. exists e', p'. auto.
      * intros [H | (e' & p' & [<- | Hin] & Hp & Hkp)]; [now left | |].
        -- rewrite Ep in Hp. discriminate.
        -- right. exists e', p'. auto.
Qed.

Lemma orderedPropertyKeys_spec entries :
  Ascending (orderedPropertyKeys entries)
  /\ NoDup (orderedPropertyKeys entries)
  /\ forall k,
       In k (orderedPropertyKeys entries) <->
       Js.toLowerCase k <> "name"
       /\ exists entry props,
            In entry entries /\ properties (feature entry) = Some props
            /\ In k (map fst props).
Proof.
  destruct (collectKeys_fold entries [] (NoDup_nil _)) as [Hn Hk].
  cbv zeta in Hn, Hk. fold (collectKeys entries) in Hn, Hk.
  unfold orderedPropertyKeys.
  split; [apply sort_Ascending |].
  split; [apply sort_NoDup, NoDup_filter, Hn |].
  intros k. rewrite sort_In, filter_In, Hk.
  rewrite negb_true_iff, String.eqb_neq. simpl. tauto.
Qed.

(** X21: every data row of the CSV export has exactly as many cells as
    the header line has columns, three more than there are property
    columns, and there is one row per entry. *)
Theorem csv_rows_match_header (toFixed6 : float -> string)
  (entries : list SelectionEntry) (rows : list (list string)) :
  csvRowsValues toFixed6 (orderedPropertyKeys entries) entries = Normal rows ->
  length rows = length entries
  /\ Forall (fun row => length row = length (csvHeaders entries)) rows.
Proof.
  intros E.
  destruct (csvRowsValues_width toFixed6 _ _ _ E) as [Hl Hw].
  split; [exact Hl |].
  eapply Forall_impl; [| exact Hw].
  intros row Hr. rewrite Hr. unfold csvHeaders. now rewrite length_app.
Qed.

Lemma csv_rows_match_header_witness :
  length [["31UDQ"; "0"; "0"]; ["31UEQ"; "0"; "0"]]
  = length [entryOf tileA; entryOf tileB]
  /\ Forall (fun row => length row
                        = length (csvHeaders [entryOf tileA; entryOf tileB]))
       [["31UDQ"; "0"; "0"]; ["31UEQ"; "0"; "0"]].
Proof.
  apply (csv_rows_match_header (fun _ => "0")). reflexivity.
Defined.

(** X22: the header of the CSV export is [name], [centroid_lat],
    [centroid_lng] followed by the property keys of the selected
    features, each once and in ascending order, without any key that is
    [name] in some letter case; it does not depend on the order of the
    entries. *)
Theorem csv_header_is_stable (entries entries' : list SelectionEntry) :
  Permutation entries entries' ->
  csvHeaders entries
  = ["name"; "centroid_lat"; "centroid_lng"] ++ orderedPropertyKeys entries
  /\ Ascending (orderedPropertyKeys entries)
  /\ NoDup (orderedPropertyKeys entries)
  /\ (forall k,
        In k (orderedPropertyKeys entries) <->
        Js.toLowerCase k <> "name"
        /\ exists entry props,
             In entry entries /\ properties (feature entry) = Some props
             /\ In k (map fst props))
  /\ csvHeaders entries' = csvHeaders entries.
Proof.
  intros P.
  destruct (orderedPropertyKeys_spec entries) as (Ha & Hn & Hk).
  destruct (orderedPropertyKeys_spec entries') as (Ha' & Hn' & Hk').
  split; [reflexivity |]. split; [exact Ha |]. split; [exact Hn |].
  split; [exact Hk |].
  unfold csvHeaders. f_equal.
  apply Ascending_unique; try assumption.
  apply NoDup_Permutation; try assumption.
  intros k. rewrite Hk, Hk'.
  split; intros [Hl (e & p & Hin & Hp & Hkp)]; (split; [exact Hl |]);
    exists e, p; (split; [| auto]).
  - eapply Permutation_in; [symmetry; exact P | exact Hin].
  - eapply Permutation_in; [exact P | exact Hin].
Qed.

Lemma csv_header_is_stable_witness :
  csvHeaders
    [entryOf (mkFeature 1 (Some [("name", "A"); ("utm", "31"); ("Name", "a")])
                None);
     entryOf (mkFeature 2 (Some [("epsg", "32631"); ("utm", "31")]) None)]
  = ["name"; "centroid_lat"; "centroid_lng"; "epsg"; "utm"].
Proof.
  refine (eq_trans
            (proj1 (csv_header_is_stable
                      [entryOf (mkFeature 1
                                  (Some [("name", "A"); ("utm", "31");
                                         ("Name", "a")]) None);
                       entryOf (mkFeature 2
                                  (Some [("epsg", "32631"); ("utm", "31")])
                                  None)]
                      _ (Permutation_refl _))) _).
  reflexivity.
Defined.

Section EscapeFacts.

Lemma append_quote_inj s : forall s',
  (s ++ String Js.quote EmptyString)%string
  = (s' ++ String Js.quote EmptyString)%string ->
  s = s'.
Proof.
  induction s as [| c r IH]; intros [| d r']; simpl; intros E.
  - reflexivity.
  - injection E as _ E. now destruct r'.
  - injection E as _ E. now destruct r.
  - injection E as -> E. f_equal. now apply IH.
Qed.

Lemma doubleQuotes_inj s : forall s', doubleQuotes s = doubleQuotes s' -> s = s'.
Proof.
  induction s as [| c r IH]; intros [| d r']; simpl.
  - reflexivity.
  - destruct (Ascii.eqb d Js.quote); discriminate.
  - destruct (Ascii.eqb c Js.quote); discriminate.
  - destruct (Ascii.eqb c Js.quote) eqn:Ec;
      destruct (Ascii.eqb d Js.quote) eqn:Ed; intros E.
    + apply Ascii.eqb_eq in Ec, Ed. subst. injection E as E.
      f_equal. now apply IH.
    + injection E as E1 E2. subst d.
      now rewrite Ascii.eqb_refl in Ed.
    + injection E as E1 E2. subst c.
      now rewrite Ascii.eqb_refl in Ec.
    + injection E as -> E. f_equal. now apply IH.
Qed.

Lemma escapeCsvValue_cases value :
  (Js.contains Js.quote value = false /\ escapeCsvValue value = value)
  \/ escapeCsvValue value
     = String Js.quote
         (doubleQuotes value ++ String Js.quote EmptyString).
Proof.
  unfold escapeCsvValue.
  destruct (Js.contains Js.quote value) eqn:Eq; simpl; [now right |].
  destruct (Js.contains Js.comma value || Js.contains Js.newline value);
    [now right | now left].
Qed.

End EscapeFacts.

(** X23: CSV escaping loses nothing: two different values are never
    written as the same cell, and a value without a double quote, comma
    or line feed is written as it is. *)
Theorem escapeCsvValue_is_injective (value value' : string) :
  (escapeCsvValue value = escapeCsvValue value' -> value = value')
  /\ (Js.contains Js.quote value = false ->
      Js.contains Js.comma value = false ->
      Js.contains Js.newline value = false ->
      escapeCsvValue value = value).
Proof.
  split.
  - destruct (escapeCsvValue_cases value) as [[Hq ->] | ->];
      destruct (escapeCsvValue_cases value') as [[Hq' ->] | ->].
    + auto.
    + intros ->. simpl in Hq. discriminate Hq.
    + intros <-. simpl in Hq'. discriminate Hq'.
    + intros E. injection E as E.
      now apply doubleQuotes_inj, append_quote_inj.
  - intros H1 H2 H3. unfold escapeCsvValue. now rewrite H1, H2, H3.
Qed.

(** X24: on every reachable state the CSV export completes: with nothing
    selected it only gives the feedback message, otherwise it is a
    download of the header line and one line per entry whose first cell
    is the name stored in the entry. *)
Theorem csv_export_never_throws {LB : LeafletBounds}
  (toFixed6 : float -> string) (st : AppState) :
  Reachable st ->
  (selectedGridMap st = [] /\
   downloadSelectionAsCSV toFixed6 st
   = Normal (Feedback "Select grids to export first"))
  \/ (selectedGridMap st <> [] /\
      exists rows,
        downloadSelectionAsCSV toFixed6 st
        = Normal (Download "text/csv"
                    (Js.join (String Js.newline EmptyString)
                       (csvLine (csvHeaders (getSelectedEntries st))
                          :: map csvLine rows)))
        /\ map (hd "") rows = map name (getSelectedEntries st)).
Proof.
  intros HR.
  destruct (Reachable_rows_compute st HR) as [Hc Hn].
  destruct (csvRowsValues_rows toFixed6
              (orderedPropertyKeys (getSelectedEntries st))
              (getSelectedEntries st) Hc) as (rows & E & _ & Hrows).
  unfold downloadSelectionAsCSV.
  destruct (selectedGridMap st) as [| kv m] eqn:Em.
  - left. split; [reflexivity |].
    unfold getSelectedEntries. now rewrite Em.
  - right. split; [discriminate |]. exists rows.
    split; [| now rewrite Hrows, Hn].
    destruct (getSelectedEntries st) as [| e es] eqn:Ee.
    + unfold getSelectedEntries in Ee. rewrite Em in Ee. discriminate.
    + now rewrite E.
Qed.

Lemma csv_export_never_throws_witness :
  (selectedGridMap
     (dispatch (LB := CornerBox)
        (UpdateSelection [Some tileB; Some tileA] defaultOptions)
        initialState) = [] /\
   downloadSelectionAsCSV (fun _ => "0")
     (dispatch (LB := CornerBox)
        (UpdateSelection [Some tileB; Some tileA] defaultOptions)
        initialState)
   = Normal (Feedback "Select grids to export first"))
  \/ (selectedGridMap
        (dispatch (LB := CornerBox)
           (UpdateSelection [Some tileB; Some tileA] defaultOptions)
           initialState) <> [] /\
      exists rows,
        downloadSelectionAsCSV (fun _ => "0")
          (dispatch (LB := CornerBox)
             (UpdateSelection [Some tileB; Some tileA] defaultOptions)
             initialState)
        = Normal (Download "text/csv"
                    (Js.join (String Js.newline EmptyString)
                       (csvLine
                          (csvHeaders
                             (getSelectedEntries
                                (dispatch (LB := CornerBox)
                                   (UpdateSelection [Some tileB; Some tileA]
                                      defaultOptions)
                                   initialState)))
                          :: map csvLine rows)))
        /\ map (hd "") rows
           = map name
               (getSelectedEntries
                  (dispatch (LB := CornerBox)
                     (UpdateSelection [Some tileB; Some tileA] defaultOptions)
                     initialState))).
Proof.
  apply (csv_export_never_throws (LB := CornerBox)).
  apply reach_step, reach_init.
Defined.

(* ================================================================= *)
(** * More on de-duplication and search *)

Lemma keepFirst_distinct fs : forall seen,
  NoDup (map upperName fs) ->
  (forall f, In f fs -> ~ In (upperName f) seen) ->
  keepFirst seen (map Some fs) = fs.
Proof.
  induction fs as [| f rest IH]; intros seen Hnd Hfresh; simpl;
    [reflexivity |].
  apply NoDup_cons_iff in Hnd as [Hn Hnd].
  assert (E : Js.mem (upperName f) seen = false)
    by (apply mem_false, Hfresh; now left).
  rewrite E. f_equal. apply IH; [exact Hnd |].
  intros g Hg Hin. apply in_app_or in Hin as [Hin | [Hin | []]].
  - apply (Hfresh g); [now right | exact Hin].
  - apply Hn. rewrite Hin. now apply in_map.
Qed.

Lemma keepFirst_present features : forall seen,
  keepFirst seen (map Some (presentFeatures features))
  = keepFirst seen features.
Proof.
  induction features as [| [f |] rest IH]; intros seen; simpl.
  - reflexivity.
  - destruct (Js.mem (upperName f) seen); [apply IH | f_equal; apply IH].
  - apply IH.
Qed.

(** X25: de-duplicating twice is de-duplicating once; the null elements
    of a list have no influence on the result; and a list of features
    with pairwise different upper-cased names is returned as it is. *)
Theorem dedupeFeaturesByName_is_idempotent (features : list (option Feature))
  (distinct : list Feature) :
  dedupeFeaturesByName (map Some (dedupeFeaturesByName features))
  = dedupeFeaturesByName features
  /\ dedupeFeaturesByName (map Some (presentFeatures features))
     = dedupeFeaturesByName features
  /\ (NoDup (map upperName distinct) ->
      dedupeFeaturesByName (map Some distinct) = distinct).
Proof.
  rewrite !dedupeFeaturesByName_keepFirst.
  split; [| split].
  - apply keepFirst_distinct; [apply keepFirst_NoDup | intros f _ []].
  - apply keepFirst_present.
  - intros H. apply keepFirst_distinct; [exact H | intros f _ []].
Qed.

Section SearchFacts.
Import Js.

Lemma lowerChar_cases c :
  lowerChar c = c \/
  (isUpperAscii c = true /\ isLowerAscii (lowerChar c) = true
   /\ nat_of_ascii (lowerChar c) = nat_of_ascii c + 32).
Proof.
  unfold lowerChar. destruct (isUpperAscii c) eqn:E; [right | now left].
  split; [reflexivity |].
  unfold isUpperAscii in E. apply andb_true_iff in E as [E1 E2].
  apply Nat.leb_le in E1, E2.
  unfold isLowerAscii. rewrite nat_ascii_embedding by lia.
  split; [| reflexivity].
  apply andb_true_iff; split; apply Nat.leb_le; lia.
Qed.

Lemma upperChar_lowerChar c : upperChar (lowerChar c) = upperChar c.
Proof.
  destruct (lowerChar_cases c) as [-> | (Hu & Hl & Hn)]; [reflexivity |].
  unfold upperChar. rewrite Hl, Hn.
  replace (nat_of_ascii c + 32 - 32) with (nat_of_ascii c) by lia.
  rewrite ascii_nat_embedding.
  unfold isUpperAscii, isLowerAscii in *.
  apply andb_true_iff in Hu as [U1 U2]. apply Nat.leb_le in U1, U2.
  destruct ((97 <=? nat_of_ascii c)%nat && (nat_of_ascii c <=? 122)%nat)
    eqn:E; [| reflexivity].
  apply andb_true_iff in E as [E1 _]. apply Nat.leb_le in E1. lia.
Qed.

Lemma isWhiteSpace_lowerChar c : isWhiteSpace (lowerChar c) = isWhiteSpace c.
Proof.
  destruct (lowerChar_cases c) as [-> | (Hu & Hl & _)]; [reflexivity |].
  unfold isWhiteSpace, isUpperAscii, isLowerAscii in *.
  apply andb_true_iff in Hl as [L1 L2], Hu as [U1 U2].
  apply Nat.leb_le in L1, L2, U1, U2.
  transitivity false; [| symmetry];
    (apply orb_false_iff; split;
     [apply andb_false_iff; right; apply Nat.leb_gt; lia
     | apply Nat.eqb_neq; lia]).
Qed.

Lemma toUpperCase_toLowerCase s : toUpperCase (toLowerCase s) = toUpperCase s.
Proof.
  induction s as [| c r IH]; simpl; [reflexivity |].
  now rewrite upperChar_lowerChar, IH.
Qed.

Lemma trimStart_toLowerCase s :
  trimStart (toLowerCase s) = toLowerCase (trimStart s).
Proof.
  induction s as [| c r IH]; simpl; [reflexivity |].
  rewrite isWhiteSpace_lowerChar. now destruct (isWhiteSpace c).
Qed.

Lemma trimEnd_toLowerCase s :
  trimEnd (toLowerCase s) = toLowerCase (trimEnd s).
Proof.
  induction s as [| c r IH]; simpl; [reflexivity |].
  rewrite IH, isWhiteSpace_lowerChar.
  destruct (trimEnd r); simpl; [now destruct (isWhiteSpace c) | reflexivity].
Qed.

Lemma Subsequence_nil {A : Type} (l : list A) : Subsequence [] l.
Proof.
  induction l as [| x l IH]; [constructor | now apply subseq_skip].
Qed.

Lemma firstn_filter_Subsequence {A : Type} (p : A -> bool) l : forall n,
  Subsequence (firstn n (filter p l)) l.
Proof.
  induction l as [| x l IH]; intros n; simpl.
  - destruct n; constructor.
  - destruct (p x).
    + destruct n; simpl; [apply Subsequence_nil | apply subseq_keep, IH].
    + apply subseq_skip, IH.
Qed.

End SearchFacts.

(** X26: the search box hides its results exactly when the input is
    blank once trimmed.  Otherwise it shows at most ten results, taken
    in index order, each with a name that contains the trimmed,
    upper-cased input, and when fewer than ten are shown no item with
    such a name is missing.  The letter case of the input makes no
    difference. *)
Theorem search_results_are_bounded (value : string)
  (index : list Search.Item) :
  (onSearchInput value index = None <->
   Js.toUpperCase (Js.trim value) = EmptyString)
  /\ (forall results,
        onSearchInput value index = Some results ->
        length results <= 10
        /\ Subsequence results index
        /\ Forall (fun item =>
                     includes (Js.toUpperCase (Js.trim value))
                       (Search.name item) = true) results
        /\ (length results < 10 ->
            forall item,
              In item index ->
              includes (Js.toUpperCase (Js.trim value)) (Search.name item)
              = true ->
              In item results))
  /\ onSearchInput (Js.toUpperCase value) index = onSearchInput value index
  /\ onSearchInput (Js.toLowerCase value) index = onSearchInput value index.
Proof.
  split; [| split; [| split]].
  - unfold onSearchInput.
    destruct (Js.toUpperCase (Js.trim value)) as [| c query]; simpl.
    + split; reflexivity.
    + split; discriminate.
  - intros results. unfold onSearchInput.
    destruct (String.length (Js.toUpperCase (Js.trim value)) =? 0)%nat;
      [discriminate |].
    intros [= <-]. unfold performSearch.
    set (found := filter (fun i => includes
                                     (Js.toUpperCase (Js.trim value))
                                     (Search.name i)) index).
    split; [| split; [| split]].
    + rewrite length_firstn. apply Nat.le_min_l.
    + apply firstn_filter_Subsequence.
    + apply Forall_forall. intros item H.
      assert (Hin : In item found)
        by (rewrite <- (firstn_skipn 10 found); apply in_or_app;
            now left).
      apply filter_In in Hin. apply Hin.
    + intros Hfew item Hin Hname. rewrite length_firstn in Hfew.
      rewrite firstn_all2 by lia.
      apply filter_In. now split.
  - unfold onSearchInput. now rewrite trim_toUpperCase, toUpperCase_idem.
  - unfold onSearchInput, Js.trim.
    now rewrite trimStart_toLowerCase, trimEnd_toLowerCase,
      toUpperCase_toLowerCase.
Qed.

Lemma search_results_are_bounded_witness :
  length [itemOf tileA; itemOf tileB] <= 10
  /\ Subsequence [itemOf tileA; itemOf tileB]
       (map itemOf [tileA; tileB; tileC])
  /\ Forall (fun item =>
               includes (Js.toUpperCase (Js.trim " 31u "))
                 (Search.name item) = true) [itemOf tileA; itemOf tileB]
  /\ (length [itemOf tileA; itemOf tileB] < 10 ->
      forall item,
        In item (map itemOf [tileA; tileB; tileC]) ->
        includes (Js.toUpperCase (Js.trim " 31u ")) (Search.name item)
        = true ->
        In item [itemOf tileA; itemOf tileB]).
Proof.
  apply (proj1 (proj2 (search_results_are_bounded " 31u "
                         (map itemOf [tileA; tileB; tileC])))).
  reflexivity.
Defined.

(* ================================================================= *)
(** * More on the rectangle search *)

Section SearchInBounds.
Context {LB : LeafletBounds}.




End SearchInBounds.




(* ================================================================= *)
(** * Instances of the conditional parts *)

(** A data set whose only tile is a multi-polygon without polygons: the
    index build throws, and the load keeps the pending names. *)
Lemma search_index_needs_every_centroid_witness :
  exists app1,
    loadGridData (LB := CornerBox) [tile 7 "31UDQ" (MultiPolygon [])] 5
      (mkBox 0 0 10 10)
      {| app := initialState; pendingGridSelection := Some ["31UDQ"%string];
         searchIndex := [] |}
    = ({| app := app1; pendingGridSelection := Some ["31UDQ"%string];
          searchIndex := [] |}, None)
    /\ selectedGridMap app1 = selectedGridMap initialState.
Proof.
  apply (proj2 (search_index_needs_every_centroid (LB := CornerBox)
                  [tile 7 "31UDQ" (MultiPolygon [])] 5 (mkBox 0 0 10 10)
                  {| app := initialState;
                     pendingGridSelection := Some ["31UDQ"%string];
                     searchIndex := [] |})).
  reflexivity.
Defined.

(** Tile A has a corner in the viewport and is reported visible; a tile
    whose ring holds a position without numbers is not. *)
Lemma viewport_itself_is_always_tested_witness :
  In tileA
    (getVisibleGrids (LB := CornerBox) [tileA; tileB; tileC]
       (mkBox 0 0 10 10))
  /\ ~ In (tile 9 "09XXX" degeneratePolygon)
        (getVisibleGrids (LB := CornerBox)
           [tile 9 "09XXX" degeneratePolygon] (mkBox 0 0 10 10)).
Proof.
  split.
  - apply (proj1 (viewport_itself_is_always_tested (LB := CornerBox)
                    (mkBox 0 0 10 10) [tileA; tileB; tileC] tileA
                    (or_introl eq_refl))
             (squareRing 1 1 2 2) [1; 1]%float);
      [left; reflexivity | reflexivity | left; reflexivity | reflexivity].
  - apply (proj2 (viewport_itself_is_always_tested (LB := CornerBox)
                    (mkBox 0 0 10 10) [tile 9 "09XXX" degeneratePolygon]
                    (tile 9 "09XXX" degeneratePolygon)
                    (or_introl eq_refl))).
    reflexivity.
Defined.

(** The mouse-up that ends the sample drag leaves the idle state. *)
Lemma mouse_up_ends_the_gesture_witness :
  rectangleSelectState
    (fst (onRectangleMouseUp (LB := CornerBox) (Some (mkLatLng 5 5))
            draggingState))
  = idleRectangle.
Proof.
  apply (proj1 (proj2 (mouse_up_ends_the_gesture (LB := CornerBox)
                         (Some (mkLatLng 5 5)) None (mkLatLng 6 6)
                         draggingState))).
  reflexivity.
Defined.

(** A tile name is written to its cell unchanged. *)
Lemma escapeCsvValue_is_injective_witness :
  escapeCsvValue "31UDQ" = "31UDQ"%string.
Proof.
  apply (proj2 (escapeCsvValue_is_injective "31UDQ" "31UEQ"));
    reflexivity.
Defined.

(** Two tiles with different names pass through unchanged. *)
Lemma dedupeFeaturesByName_is_idempotent_witness :
  dedupeFeaturesByName (map Some [tileA; tileB]) = [tileA; tileB].
Proof.
  apply (proj2 (proj2 (dedupeFeaturesByName_is_idempotent []
                         [tileA; tileB]))).
  vm_compute. repeat constructor; simpl; intuition discriminate.
Defined.
